(** * The MySQL database plugin: credential lifecycle engine

    A shallow embedding of the [mysql] package (the plugin that implements
    [newdbplugin.Database] for MySQL): [NewUser], [UpdateUser],
    [DeleteUser], [generateUsername], [changeUserPassword] and
    [executePreparedStatementsWithMap], together with the parts of Go's
    [strings] and [database/sql] packages they call.

    Go strings are byte sequences: they are [string]s here, one [ascii] per
    byte.  Go [error] values are the inductive [error]; a nil error is
    [None].  The backend ([database/sql] over the MySQL driver) is a
    record of response functions over an abstract database state; calls
    thread a [World] that holds the committed state, the working copy of
    the open transaction and a journal of the calls made. *)

From Stdlib Require Import String Ascii List Bool Arith NArith Lia.
From Stdlib Require Import ZArith.
Import ListNotations.
Open Scope string_scope.

Set Implicit Arguments.

(* ===================================================================== *)
(** ** Go's [strings] package *)
(* ===================================================================== *)

Module strings.

(** [strings.HasPrefix(s, prefix)]. *)
Fixpoint HasPrefix (s pre : string) {struct pre} : bool :=
  match pre with
  | EmptyString => true
  | String p pre' =>
      match s with
      | EmptyString => false
      | String c s' => Ascii.eqb c p && HasPrefix s' pre'
      end
  end.

(** [strings.Contains(s, substr)]. *)
Fixpoint Contains (s substr : string) : bool :=
  HasPrefix s substr ||
  match s with
  | EmptyString => false
  | String _ s' => Contains s' substr
  end.

(** Scan for [strings.Replace] with a non-empty [old]: [skip] counts the
    bytes of the current match that are still to be dropped. *)
Fixpoint replace_from (old new : string) (skip : nat) (s : string) : string :=
  match s with
  | EmptyString => EmptyString
  | String c s' =>
      match skip with
      | S k => replace_from old new k s'
      | O =>
          if HasPrefix s old
          then new ++ replace_from old new (String.length old - 1) s'
          else String c (replace_from old new 0 s')
      end
  end.

(** With an empty [old], Go inserts [new] at the start and after every
    UTF-8 sequence; on one-byte sequences that is before every byte and at
    the end.  (The plugin's [old] is never empty.) *)
Fixpoint insert_around (new s : string) : string :=
  match s with
  | EmptyString => new
  | String c s' => new ++ String c (insert_around new s')
  end.

(** [strings.Replace(s, old, new, -1)]: every non-overlapping occurrence
    of [old], leftmost first. *)
Definition Replace (s old new : string) : string :=
  match old with
  | EmptyString => insert_around new s
  | String _ _ => replace_from old new 0 s
  end.

(** [strings.IndexByte(s, c) >= 0]. *)
Fixpoint hasByte (s : string) (c : ascii) : bool :=
  match s with
  | EmptyString => false
  | String c' s' => Ascii.eqb c c' || hasByte s' c
  end.

(** No byte of [s] is a byte of [pattern]. *)
Fixpoint avoids (pattern s : string) : bool :=
  match s with
  | EmptyString => true
  | String c s' => negb (hasByte pattern c) && avoids pattern s'
  end.

Definition byte (c : ascii) : N := N_of_ascii c.

(** [unicode.IsSpace] on the UTF-8 encodings of one, two and three bytes:
    tab, LF, VT, FF, CR, space; U+0085, U+00A0; U+1680, U+2000..U+200A,
    U+2028, U+2029, U+202F, U+205F, U+3000. *)
Definition space1 (c : ascii) : bool :=
  let b := byte c in
  ((9 <=? b) && (b <=? 13) || (b =? 32))%N.

Definition space2 (c1 c2 : ascii) : bool :=
  ((byte c1 =? 194) && ((byte c2 =? 133) || (byte c2 =? 160)))%N.

Definition space3 (c1 c2 c3 : ascii) : bool :=
  let b1 := byte c1 in
  let b2 := byte c2 in
  let b3 := byte c3 in
  ((b1 =? 225) && (b2 =? 154) && (b3 =? 128)
   || (b1 =? 226) && (b2 =? 128)
      && ((128 <=? b3) && (b3 <=? 138) || (b3 =? 168) || (b3 =? 169) || (b3 =? 175))
   || (b1 =? 226) && (b2 =? 129) && (b3 =? 159)
   || (b1 =? 227) && (b2 =? 128) && (b3 =? 128))%N.

(** Drop the white-space runes at the front of [s].  With [backwards] the
    bytes of [s] are in reverse order (the string is read from its end). *)
Fixpoint trim_front (backwards : bool) (s : string) : string :=
  match s with
  | EmptyString => EmptyString
  | String c1 s1 =>
      if space1 c1 then trim_front backwards s1
      else
        match s1 with
        | EmptyString => s
        | String c2 s2 =>
            if (if backwards then space2 c2 c1 else space2 c1 c2)
            then trim_front backwards s2
            else
              match s2 with
              | EmptyString => s
              | String c3 s3 =>
                  if (if backwards then space3 c3 c2 c1 else space3 c1 c2 c3)
                  then trim_front backwards s3
                  else s
              end
        end
  end.

Fixpoint rev_onto (s acc : string) : string :=
  match s with
  | EmptyString => acc
  | String c s' => rev_onto s' (String c acc)
  end.

Definition reverse (s : string) : string := rev_onto s EmptyString.

(** [strings.TrimSpace(s)]: leading and trailing white space removed. *)
Definition TrimSpace (s : string) : string :=
  reverse (trim_front true (reverse (trim_front false s))).

End strings.

(* ===================================================================== *)
(** ** Errors *)
(* ===================================================================== *)

(** The [error] values that reach the plugin's callers. *)
Inductive error : Type :=
| ErrEmptyCreationStatement
    (* dbutil.ErrEmptyCreationStatement *)
| ErrorString (msg : string)
    (* errors.New(msg), fmt.Errorf(msg) *)
| Wrapf (format : string) (err : error)
    (* fmt.Errorf("...%w", err), errwrap.Wrapf("...{{err}}", err) *)
| MySQLError (Number : N) (Message : string)
    (* a pointer to stdmysql.MySQLError *)
| ErrTxDone
    (* sql.ErrTxDone *)
| DriverError (msg : string)
    (* any other error of database/sql or of the driver *)
| ErrGenerateUsername (msg : string).
    (* an error of credsutil.GenerateUsername *)

(** The test of the fallback path: [err] is a MySQL driver error (a
    pointer to [stdmysql.MySQLError]) whose [Number] is 1295, "This
    command is not supported in the prepared statement protocol yet". *)
Definition notPreparable (err : error) : bool :=
  match err with
  | MySQLError number _ => (number =? 1295)%N
  | _ => false
  end.

(* ===================================================================== *)
(** ** The backend: [database/sql] over one connection *)
(* ===================================================================== *)

(** The calls the plugin makes on its mutex, its connection producer, a
    transaction and a prepared statement. *)
Inductive Event : Type :=
| EvLock
| EvUnlock
| EvConnection
| EvBeginTx
| EvPrepare (query : string)
| EvStmtExec (query : string)
| EvStmtClose (query : string)
| EvExec (query : string)
| EvCommit
| EvRollback.

(** How the backend answers.  [DB] is the state of the database; a
    statement may change the working copy of the transaction even when it
    reports an error. *)
Record Driver (DB : Type) : Type := mkDriver {
  drvConnection : DB -> option error;
  drvBeginTx : DB -> option error;
  drvPrepare : string -> DB -> option error;
  drvStmtExec : string -> DB -> DB * option error;
  drvExec : string -> DB -> DB * option error;
  drvCommit : DB -> option error
}.

(** [committed] is what every reader of the database observes; [pending]
    is the working copy of the open transaction, if one is open. *)
Record World (DB : Type) : Type := mkWorld {
  committed : DB;
  pending : option DB;
  journal : list Event
}.

(** A Go call either returns or panics; deferred calls run in both
    cases. *)
Inductive Outcome (A : Type) : Type :=
| Returned (a : A)
| Panicked.
Arguments Panicked {A}.

Definition Run (DB A : Type) : Type := World DB -> Outcome A * World DB.

Definition ret {DB A : Type} (a : A) : Run DB A :=
  fun w => (Returned a, w).

Definition bind {DB A B : Type} (m : Run DB A) (k : A -> Run DB B) : Run DB B :=
  fun w =>
    match m w with
    | (Returned a, w') => k a w'
    | (Panicked, w') => (Panicked, w')
    end.

(** [defer d] before [body]: [d] runs when [body] returns or panics, and
    its result is dropped. *)
Definition defer {DB A : Type} (d : World DB -> World DB) (body : Run DB A) : Run DB A :=
  fun w => let (r, w') := body w in (r, d w').

Declare Scope run_scope.
Delimit Scope run_scope with run.
Notation "x <- m ;; k" := (bind m (fun x => k))
  (at level 61, m at next level, right associativity) : run_scope.
Notation "m ;;; k" := (bind m (fun _ => k))
  (at level 61, right associativity) : run_scope.

Section Backend.
Variable DB : Type.
Variable drv : Driver DB.

Definition record (e : Event) (w : World DB) : World DB :=
  mkWorld (committed w) (pending w) (journal w ++ [e])%list.

Definition setPending (p : option DB) (w : World DB) : World DB :=
  mkWorld (committed w) p (journal w).

(** [m.Lock()], [m.Unlock()]. *)
Definition Lock : Run DB unit := fun w => (Returned tt, record EvLock w).
Definition Unlock (w : World DB) : World DB := record EvUnlock w.

(** [m.getConnection(ctx)]: the error of [m.Connection(ctx)]. *)
Definition getConnection : Run DB (option error) :=
  fun w => (Returned (drvConnection drv (committed w)), record EvConnection w).

(** [db.BeginTx(ctx, nil)]. *)
Definition BeginTx : Run DB (option error) :=
  fun w =>
    match drvBeginTx drv (committed w) with
    | Some err => (Returned (Some err), record EvBeginTx w)
    | None => (Returned None, setPending (Some (committed w)) (record EvBeginTx w))
    end.

(** [tx.PrepareContext(ctx, query)]: the statement handle is nil when
    the error is not. *)
Definition PrepareContext (query : string) : Run DB (option string * option error) :=
  fun w =>
    match pending w with
    | None => (Returned (None, Some ErrTxDone), record (EvPrepare query) w)
    | Some d =>
        match drvPrepare drv query d with
        | Some err => (Returned (None, Some err), record (EvPrepare query) w)
        | None => (Returned (Some query, None), record (EvPrepare query) w)
        end
    end.

(** [tx.ExecContext(ctx, query)]. *)
Definition ExecContext (query : string) : Run DB (option error) :=
  fun w =>
    match pending w with
    | None => (Returned (Some ErrTxDone), record (EvExec query) w)
    | Some d =>
        let (d', err) := drvExec drv query d in
        (Returned err, setPending (Some d') (record (EvExec query) w))
    end.

(** [stmt.ExecContext(ctx)]: a nil [stmt] is dereferenced. *)
Definition StmtExecContext (stmt : option string) : Run DB (option error) :=
  fun w =>
    match stmt with
    | None => (Panicked, w)
    | Some query =>
        match pending w with
        | None => (Returned (Some ErrTxDone), record (EvStmtExec query) w)
        | Some d =>
            let (d', err) := drvStmtExec drv query d in
            (Returned err, setPending (Some d') (record (EvStmtExec query) w))
        end
    end.

(** [stmt.Close()]: a nil [stmt] is dereferenced. *)
Definition StmtClose (stmt : option string) : Run DB unit :=
  fun w =>
    match stmt with
    | None => (Panicked, w)
    | Some query => (Returned tt, record (EvStmtClose query) w)
    end.

(** [tx.Commit()]: the transaction is done afterwards, whether the
    backend installed the working copy or refused. *)
Definition Commit : Run DB (option error) :=
  fun w =>
    match pending w with
    | None => (Returned (Some ErrTxDone), record EvCommit w)
    | Some d =>
        match drvCommit drv d with
        | Some err => (Returned (Some err), setPending None (record EvCommit w))
        | None => (Returned None, mkWorld d None (journal w ++ [EvCommit])%list)
        end
    end.

(** [tx.Rollback()]: the working copy is discarded; on a transaction
    that is done it returns [sql.ErrTxDone] and changes nothing. *)
Definition Rollback (w : World DB) : World DB :=
  setPending None (record EvRollback w).

(** [for _, x := range l { body }] where [body] either falls through
    ([None]) or returns [err] from the enclosing function. *)
Fixpoint forRange {A : Type} (body : A -> Run DB (option error)) (l : list A)
  : Run DB (option error) :=
  match l with
  | [] => ret None
  | x :: l' =>
      (r <- body x ;;
       match r with
       | Some err => ret (Some err)
       | None => forRange body l'
       end)%run
  end.

End Backend.

Arguments Lock {DB}.
Arguments Unlock {DB}.
Arguments Rollback {DB}.
Arguments StmtClose {DB}.

(* ===================================================================== *)
(** ** Requests and responses of [newdbplugin] *)
(* ===================================================================== *)

(** [time.Time] is opaque to the plugin, which only calls [String()]. *)
Record Time : Type := mkTime { Time_String : string }.

Module newdbplugin.

Record Statements : Type := mkStatements { Commands : list string }.

Record UsernameMetadata : Type := mkUsernameMetadata {
  DisplayName : string;
  RoleName : string
}.

Record NewUserRequest : Type := mkNewUserRequest {
  UsernameConfig : UsernameMetadata;
  NewUser_Statements : Statements;
  NewUser_Password : string;
  NewUser_Expiration : Time
}.

Record NewUserResponse : Type := mkNewUserResponse { NewUser_Username : string }.

Record ChangePassword : Type := mkChangePassword {
  NewPassword : string;
  ChangePassword_Statements : Statements
}.

Record ChangeExpiration : Type := mkChangeExpiration {
  NewExpiration : Time;
  ChangeExpiration_Statements : Statements
}.

(** [Password] and [Expiration] are pointers: [None] is nil. *)
Record UpdateUserRequest : Type := mkUpdateUserRequest {
  UpdateUser_Username : string;
  UpdateUser_Password : option ChangePassword;
  UpdateUser_Expiration : option ChangeExpiration
}.

Inductive UpdateUserResponse : Type := mkUpdateUserResponse.

Record DeleteUserRequest : Type := mkDeleteUserRequest {
  DeleteUser_Username : string;
  DeleteUser_Statements : Statements
}.

Inductive DeleteUserResponse : Type := mkDeleteUserResponse.

End newdbplugin.
Import newdbplugin.

(** The options [credsutil.DisplayName(name, maxLength)],
    [credsutil.RoleName(name, maxLength)] and
    [credsutil.MaxLength(maxLength)] that [generateUsername] builds. *)
Inductive UsernameOpt : Type :=
| OptDisplayName (name : string) (maxLength : nat)
| OptRoleName (name : string) (maxLength : nat)
| OptMaxLength (maxLength : nat).

(* ===================================================================== *)
(** ** Package [mysql] *)
(* ===================================================================== *)

Definition tab : string := String (ascii_of_nat 9) EmptyString.
Definition newline : string := String (ascii_of_nat 10) EmptyString.

Definition defaultMysqlRevocationStmts : string :=
  newline ++ tab ++ tab
  ++ "REVOKE ALL PRIVILEGES, GRANT OPTION FROM '{{name}}'@'%'; " ++ newline
  ++ tab ++ tab ++ "DROP USER '{{name}}'@'%'" ++ newline
  ++ tab.

Definition defaultMySQLRotateCredentialsSQL : string :=
  newline ++ tab ++ tab
  ++ "ALTER USER '{{username}}'@'%' IDENTIFIED BY '{{password}}';" ++ newline
  ++ tab.

Definition MetadataLen : nat := 10.
Definition LegacyMetadataLen : nat := 4.
Definition UsernameLen : nat := 32.
Definition LegacyUsernameLen : nat := 16.

Section MySQL.

(** The helpers of the repository that the package calls:
    [strutil.ParseArbitraryStringSlice(input, sep)],
    [dbutil.QueryHelper(tpl, data)] and
    [credsutil.GenerateUsername(opts...)], whose second argument here is
    the uniqueness material it draws. *)
Variable ParseArbitraryStringSlice : string -> string -> list string.
Variable QueryHelper : string -> list (string * string) -> string.
Variable GenerateUsername : list UsernameOpt -> string -> string * option error.

Variable DB : Type.
Variable drv : Driver DB.

(** The [MySQL] struct: its [legacy] flag (the connection producer is the
    [World]). *)
Variable legacy : bool.

Definition generateUsername (req : NewUserRequest) (uniq : string)
  : string * option error :=
  let opts :=
    if legacy
    then [OptDisplayName (DisplayName (UsernameConfig req)) LegacyUsernameLen;
          OptRoleName (RoleName (UsernameConfig req)) LegacyMetadataLen;
          OptMaxLength LegacyUsernameLen]
    else [OptDisplayName (DisplayName (UsernameConfig req)) UsernameLen;
          OptRoleName (RoleName (UsernameConfig req)) MetadataLen;
          OptMaxLength UsernameLen] in
  match GenerateUsername opts uniq with
  | (_, Some err) =>
      (EmptyString, Some (Wrapf "error generating username: {{err}}" err))
  | (username, None) => (username, None)
  end.

(** The body of the inner loop of [executePreparedStatementsWithMap]. *)
Definition executeQuery (queryMap : list (string * string)) (query : string)
  : Run DB (option error) :=
  let query := strings.TrimSpace query in
  if (String.length query =? 0)%nat then ret None
  else
    let query := QueryHelper query queryMap in
    (p <- PrepareContext drv query ;;
     let (stmt, err) := (p : option string * option error) in
     match err with
     | Some err =>
         if notPreparable err
         then
           (err <- ExecContext drv query ;;
            match err with
            | Some err => StmtClose stmt ;;; ret (Some err)
            | None => ret None
            end)
         else ret (Some err)
     | None =>
         (err <- StmtExecContext drv stmt ;;
          match err with
          | Some err => StmtClose stmt ;;; ret (Some err)
          | None => StmtClose stmt ;;; ret None
          end)
     end)%run.

Definition executePreparedStatementsWithMap
  (statements : list string) (queryMap : list (string * string))
  : Run DB (option error) :=
  (Lock ;;;
   defer Unlock
     (err <- getConnection drv ;;
      match err with
      | Some err => ret (Some err)
      | None =>
          err <- BeginTx drv ;;
          match err with
          | Some err => ret (Some err)
          | None =>
              defer Rollback
                (r <- forRange
                        (fun stmt =>
                           forRange (executeQuery queryMap)
                             (ParseArbitraryStringSlice stmt ";"))
                        statements ;;
                 match r with
                 | Some err => ret (Some err)
                 | None => Commit drv
                 end)
          end
      end))%run.

Definition NewUser (req : NewUserRequest) (uniq : string)
  : Run DB (NewUserResponse * option error) :=
  if (List.length (Commands (NewUser_Statements req)) =? 0)%nat
  then ret (mkNewUserResponse EmptyString, Some ErrEmptyCreationStatement)
  else
    match generateUsername req uniq with
    | (_, Some err) => ret (mkNewUserResponse EmptyString, Some err)
    | (username, None) =>
        let password := NewUser_Password req in
        let expirationStr := Time_String (NewUser_Expiration req) in
        let queryMap :=
          [("name", username); ("username", username);
           ("password", password); ("expiration", expirationStr)] in
        (err <- executePreparedStatementsWithMap
                  (Commands (NewUser_Statements req)) queryMap ;;
         match err with
         | Some err => ret (mkNewUserResponse EmptyString, Some err)
         | None => ret (mkNewUserResponse username, None)
         end)%run
    end.

Definition changeUserPassword (username password : string)
  (rotateStatements : list string) : Run DB (option error) :=
  if (username =? EmptyString) || (password =? EmptyString)
  then ret (Some (ErrorString "must provide both username and password"))
  else
    let rotateStatements :=
      if (List.length rotateStatements =? 0)%nat
      then [defaultMySQLRotateCredentialsSQL]
      else rotateStatements in
    let queryMap :=
      [("name", username); ("username", username); ("password", password)] in
    executePreparedStatementsWithMap rotateStatements queryMap.

Definition UpdateUser (req : UpdateUserRequest)
  : Run DB (UpdateUserResponse * option error) :=
  match UpdateUser_Password req, UpdateUser_Expiration req with
  | None, None =>
      ret (mkUpdateUserResponse, Some (ErrorString "no change requested"))
  | _, _ =>
      match UpdateUser_Password req with
      | Some pw =>
          (err <- changeUserPassword (UpdateUser_Username req) (NewPassword pw)
                    (Commands (ChangePassword_Statements pw)) ;;
           match err with
           | Some err =>
               ret (mkUpdateUserResponse,
                    Some (Wrapf "failed to change password: %w" err))
           | None => ret (mkUpdateUserResponse, None)
           end)%run
      | None => ret (mkUpdateUserResponse, None)
      end
  end.

(** The body of the inner loop of [DeleteUser]. *)
Definition revokeQuery (username query : string) : Run DB (option error) :=
  let query := strings.TrimSpace query in
  if (String.length query =? 0)%nat then ret None
  else
    let query := strings.Replace query "{{name}}" username in
    let query := strings.Replace query "{{username}}" username in
    ExecContext drv query.

Definition DeleteUser (req : DeleteUserRequest)
  : Run DB (DeleteUserResponse * option error) :=
  (Lock ;;;
   defer Unlock
     (err <- getConnection drv ;;
      match err with
      | Some err => ret (mkDeleteUserResponse, Some err)
      | None =>
          let revocationStmts := Commands (DeleteUser_Statements req) in
          let revocationStmts :=
            if (List.length revocationStmts =? 0)%nat
            then [defaultMysqlRevocationStmts]
            else revocationStmts in
          err <- BeginTx drv ;;
          match err with
          | Some err => ret (mkDeleteUserResponse, Some err)
          | None =>
              defer Rollback
                (r <- forRange
                        (fun stmt =>
                           forRange (revokeQuery (DeleteUser_Username req))
                             (ParseArbitraryStringSlice stmt ";"))
                        revocationStmts ;;
                 match r with
                 | Some err => ret (mkDeleteUserResponse, Some err)
                 | None =>
                     err <- Commit drv ;;
                     ret (mkDeleteUserResponse, err)
                 end)
          end
      end))%run.

(** *** What the loops send to the backend *)

(** The queries one fragment of a template contributes: none when it is
    blank, else the fragment with the map applied. *)
Definition renderFragment (queryMap : list (string * string)) (fragment : string)
  : list string :=
  let query := strings.TrimSpace fragment in
  if (String.length query =? 0)%nat then []
  else [QueryHelper query queryMap].

(** The queries of [executePreparedStatementsWithMap], in order. *)
Definition rendered (statements : list string) (queryMap : list (string * string))
  : list string :=
  flat_map
    (fun stmt =>
       flat_map (renderFragment queryMap) (ParseArbitraryStringSlice stmt ";"))
    statements.

(** What [executeQuery] does with a rendered query. *)
Definition sendQuery (query : string) : Run DB (option error) :=
  (p <- PrepareContext drv query ;;
   match snd p with
   | Some err =>
       if notPreparable err
       then
         (err <- ExecContext drv query ;;
          match err with
          | Some err => StmtClose (fst p) ;;; ret (Some err)
          | None => ret None
          end)
       else ret (Some err)
   | None =>
       (err <- StmtExecContext drv (fst p) ;;
        match err with
        | Some err => StmtClose (fst p) ;;; ret (Some err)
        | None => StmtClose (fst p) ;;; ret None
        end)
   end)%run.

Definition revokeFragment (username fragment : string) : list string :=
  let query := strings.TrimSpace fragment in
  if (String.length query =? 0)%nat then []
  else
    [strings.Replace (strings.Replace query "{{name}}" username)
       "{{username}}" username].

(** The statements [DeleteUser] runs when the request has none. *)
Definition revocationStatements (req : DeleteUserRequest) : list string :=
  if (List.length (Commands (DeleteUser_Statements req)) =? 0)%nat
  then [defaultMysqlRevocationStmts]
  else Commands (DeleteUser_Statements req).

(** The queries of [DeleteUser], in order. *)
Definition revocationQueries (req : DeleteUserRequest) : list string :=
  flat_map
    (fun stmt =>
       flat_map (revokeFragment (DeleteUser_Username req))
         (ParseArbitraryStringSlice stmt ";"))
    (revocationStatements req).

(** The statements [changeUserPassword] runs. *)
Definition rotationStatements (pw : ChangePassword) : list string :=
  if (List.length (Commands (ChangePassword_Statements pw)) =? 0)%nat
  then [defaultMySQLRotateCredentialsSQL]
  else Commands (ChangePassword_Statements pw).

Definition newUserQueryMap (username : string) (req : NewUserRequest)
  : list (string * string) :=
  [("name", username); ("username", username);
   ("password", NewUser_Password req);
   ("expiration", Time_String (NewUser_Expiration req))].

Definition passwordQueryMap (username password : string)
  : list (string * string) :=
  [("name", username); ("username", username); ("password", password)].

(** *** What the backend does with a statement *)

(** The working copy after [query] has gone through
    [executePreparedStatementsWithMap] without an error: prepared and
    executed, or refused by prepare with error 1295 and executed directly. *)
Definition applyPrepared (query : string) (d : DB) : option DB :=
  match drvPrepare drv query d with
  | None =>
      match drvStmtExec drv query d with
      | (d', None) => Some d'
      | (_, Some _) => None
      end
  | Some err =>
      if notPreparable err
      then
        match drvExec drv query d with
        | (d', None) => Some d'
        | (_, Some _) => None
        end
      else None
  end.

(** The working copy after [query] has gone through [DeleteUser] without
    an error. *)
Definition applyDirect (query : string) (d : DB) : option DB :=
  match drvExec drv query d with
  | (d', None) => Some d'
  | (_, Some _) => None
  end.

(** All of [queries] applied in order, if each one succeeds. *)
Fixpoint applyAll (apply : string -> DB -> option DB) (queries : list string)
  (d : DB) : option DB :=
  match queries with
  | [] => Some d
  | q :: queries' =>
      match apply q d with
      | Some d' => applyAll apply queries' d'
      | None => None
      end
  end.

(** The first query that fails for a reason of its own, with its
    position: prepare refuses it with an error other than 1295, or it is
    prepared and its execution fails.  ([None] also when a query refused
    with 1295 fails in the direct execution.) *)
Fixpoint firstFailure (queries : list string) (d : DB) : option (nat * error) :=
  let later (r : option (nat * error)) :=
    option_map (fun ke => (S (fst ke), snd ke)) r in
  match queries with
  | [] => None
  | q :: queries' =>
      match drvPrepare drv q d with
      | None =>
          match drvStmtExec drv q d with
          | (d', None) => later (firstFailure queries' d')
          | (_, Some err) => Some (0, err)
          end
      | Some err =>
          if notPreparable err
          then
            match drvExec drv q d with
            | (d', None) => later (firstFailure queries' d')
            | (_, Some _) => None
            end
          else Some (0, err)
      end
  end.

(** The world once the lock is held, the connection obtained and the
    transaction begun. *)
Definition begun (w : World DB) : World DB :=
  mkWorld (committed w) (Some (committed w))
    (journal w ++ [EvLock; EvConnection; EvBeginTx])%list.

End MySQL.

(** The calls made on a statement inside the transaction. *)
Definition statementEvent (e : Event) : bool :=
  match e with
  | EvPrepare _ | EvStmtExec _ | EvStmtClose _ | EvExec _ => true
  | _ => false
  end.

(** "The error of a failed statement is tagged with the statement's
    index": the index can be read off the error that is returned. *)
Definition errorCarriesIndex {DB : Type}
  (ParseArbitraryStringSlice : string -> string -> list string)
  (QueryHelper : string -> list (string * string) -> string)
  (drv : Driver DB) : Prop :=
  exists indexOf : error -> option nat,
    forall statements queryMap w k err,
      firstFailure drv
        (rendered ParseArbitraryStringSlice QueryHelper statements queryMap)
        (committed w) = Some (k, err) ->
      exists err',
        fst (executePreparedStatementsWithMap ParseArbitraryStringSlice
               QueryHelper drv statements queryMap w) = Returned (Some err')
        /\ indexOf err' = Some k.

(** A call that returned a nil error. *)
Definition succeeded {A : Type} (r : Outcome (A * option error)) : bool :=
  match r with
  | Returned (_, None) => true
  | _ => false
  end.

(** All or nothing: no transaction is left open, and the committed state
    is the one of [queries] all applied when the call succeeded and the
    one before the call when it did not. *)
Definition allOrNothing {DB : Type} (apply : string -> DB -> option DB)
  (queries : list string) (ok : bool) (w w' : World DB) : Prop :=
  pending w' = None /\
  if ok
  then applyAll apply queries (committed w) = Some (committed w')
  else committed w' = committed w.

(** A call that began a transaction resolves it.  Its journal: the
    statement calls, then [Commit] when every query was applied, then the
    deferred [Rollback] and [Unlock].  Its committed state: the one of
    every query applied when [Commit] was reached and the backend accepted
    it, the one before the call otherwise. *)
Definition closesTransaction {DB : Type} (drv : Driver DB)
  (apply : string -> DB -> option DB) (queries : list string)
  (w w' : World DB) : Prop :=
  exists evs,
    forallb statementEvent evs = true
    /\ journal w' =
       (journal w ++ [EvLock; EvConnection; EvBeginTx] ++ evs
        ++ match applyAll apply queries (committed w) with
           | Some _ => [EvCommit; EvRollback; EvUnlock]
           | None => [EvRollback; EvUnlock]
           end)%list
    /\ committed w' =
       match applyAll apply queries (committed w) with
       | Some d =>
           match drvCommit drv d with
           | None => d
           | Some _ => committed w
           end
       | None => committed w
       end.

(** A call that began a transaction commits when every query succeeds:
    it resolves the transaction as [closesTransaction] has it, and its
    error is nil exactly when every query was applied and the backend
    accepted the commit. *)
Definition commitsWhenAllSucceed {DB : Type} (drv : Driver DB)
  (apply : string -> DB -> option DB) (queries : list string)
  (ok : bool) (w w' : World DB) : Prop :=
  closesTransaction drv apply queries w w'
  /\ pending w' = None
  /\ ok = match applyAll apply queries (committed w) with
          | Some d =>
              match drvCommit drv d with
              | None => true
              | Some _ => false
              end
          | None => false
          end.

(** *** The calls of the statement loop, read off the backend's answers *)

(** The calls that one query costs [executePreparedStatementsWithMap] on
    the working copy [d]: prepared, executed and closed when the backend
    prepares it; prepared and executed directly when prepare refuses it
    with error 1295; prepared only when prepare refuses it otherwise. *)
Definition queryCalls {DB : Type} (drv : Driver DB) (query : string) (d : DB)
  : list Event :=
  match drvPrepare drv query d with
  | None => [EvPrepare query; EvStmtExec query; EvStmtClose query]
  | Some err =>
      if notPreparable err then [EvPrepare query; EvExec query]
      else [EvPrepare query]
  end.

(** The working copy after these calls, whether the query failed or
    not. *)
Definition afterQuery {DB : Type} (drv : Driver DB) (query : string) (d : DB)
  : DB :=
  match drvPrepare drv query d with
  | None => fst (drvStmtExec drv query d)
  | Some err => if notPreparable err then fst (drvExec drv query d) else d
  end.

(** The calls that [queries] cost when each of them is sent, in order. *)
Fixpoint callsOf {DB : Type} (drv : Driver DB) (queries : list string) (d : DB)
  : list Event :=
  match queries with
  | [] => []
  | q :: queries' =>
      (queryCalls drv q d ++ callsOf drv queries' (afterQuery drv q d))%list
  end.

(** How many of [queries] are sent: all of them, or the ones up to the
    first that fails. *)
Fixpoint attempted {DB : Type} (drv : Driver DB) (queries : list string) (d : DB)
  : nat :=
  match queries with
  | [] => 0
  | q :: queries' =>
      match applyPrepared drv q d with
      | Some d' => S (attempted drv queries' d')
      | None => 1
      end
  end.

(** The queries that a journal sends to prepare, in order. *)
Fixpoint preparedQueries (evs : list Event) : list string :=
  match evs with
  | [] => []
  | EvPrepare q :: evs' => q :: preparedQueries evs'
  | _ :: evs' => preparedQueries evs'
  end.

(** A journal leaks no statement handle, on a backend that starts from
    the working copy [d]: a prepare that returned a handle (the backend
    prepared the query) is followed at once by the execution and the
    close of that statement, and no statement is executed or closed
    anywhere else. *)
Fixpoint leakFree {DB : Type} (drv : Driver DB) (evs : list Event) (d : DB)
  : bool :=
  match evs with
  | [] => true
  | EvPrepare q :: evs1 =>
      match drvPrepare drv q d with
      | None =>
          match evs1 with
          | EvStmtExec q1 :: EvStmtClose q2 :: evs2 =>
              (q1 =? q)%string && (q2 =? q)%string
              && leakFree drv evs2 (fst (drvStmtExec drv q d))
          | _ => false
          end
      | Some _ => leakFree drv evs1 d
      end
  | EvStmtExec _ :: _ => false
  | EvStmtClose _ :: _ => false
  | EvExec q :: evs' => leakFree drv evs' (fst (drvExec drv q d))
  | _ :: evs' => leakFree drv evs' d
  end.

(* ===================================================================== *)
(** ** The helpers of the repository, from their description *)
(* ===================================================================== *)

Module strutil.

(** Modelled from the spec: the scan of [ParseArbitraryStringSlice],
    which cuts [s] at every occurrence of [sep]; [skip] counts the bytes
    of the current separator still to be dropped. *)
Fixpoint split_from (sep : string) (skip : nat) (s : string) : list string :=
  match s with
  | EmptyString => [EmptyString]
  | String c s' =>
      match skip with
      | S k => split_from sep k s'
      | O =>
          if strings.HasPrefix s sep
          then EmptyString :: split_from sep (String.length sep - 1) s'
          else
            match split_from sep 0 s' with
            | fragment :: rest => String c fragment :: rest
            | [] => [String c EmptyString]
            end
      end
  end.

(** Modelled from the spec: [strutil.ParseArbitraryStringSlice(input,
    sep)], which is not among the sources; section 4.2 has it split a
    template on the statement separator (trimming and dropping the empty
    fragments is done by the caller's loop).  An empty separator splits
    nothing. *)
Definition ParseArbitraryStringSlice (input sep : string) : list string :=
  match sep with
  | EmptyString => [input]
  | String _ _ => split_from sep 0 input
  end.

End strutil.

Module dbutil.

(** Modelled from the spec: the placeholder token of a key. *)
Definition placeholder (key : string) : string := "{{" ++ key ++ "}}".

(** Modelled from the spec: the pair of [data] whose placeholder token
    stands at the start of [s], if one does. *)
Fixpoint recognized (s : string) (data : list (string * string))
  : option (string * string) :=
  match data with
  | [] => None
  | (key, value) :: data' =>
      if strings.HasPrefix s (placeholder key) then Some (key, value)
      else recognized s data'
  end.

(** Modelled from the spec: one pass over the template, from left to
    right; a recognized placeholder token gives way to its value, which is
    not read again, and every other byte stays.  [skip] counts the bytes
    of the current token still to be dropped. *)
Fixpoint substitute (data : list (string * string)) (skip : nat) (tpl : string)
  : string :=
  match tpl with
  | EmptyString => EmptyString
  | String c tpl' =>
      match skip with
      | S n => substitute data n tpl'
      | O =>
          match recognized tpl data with
          | Some (key, value) =>
              value ++ substitute data (String.length key + 3) tpl'
          | None => String c (substitute data 0 tpl')
          end
      end
  end.

(** Modelled from the spec: [dbutil.QueryHelper(tpl, data)], which is not
    among the sources; section 4.2 has it replace every recognized
    placeholder token [{{key}}], of a key of the map, with the key's
    value and leave every other token as it is. *)
Definition QueryHelper (tpl : string) (data : list (string * string)) : string :=
  substitute data 0 tpl.

End dbutil.

(** The Statement Renderer in the words of section 4.2: split the
    template on [;], trim each fragment, discard the empty ones, and
    substitute the placeholders of each surviving statement. *)
Definition Render (template : string) (substitutions : list (string * string))
  : list string :=
  map (fun statement => dbutil.QueryHelper statement substitutions)
    (filter (fun fragment => negb (String.length fragment =? 0)%nat)
       (map strings.TrimSpace
          (strutil.ParseArbitraryStringSlice template ";"))).

(** *** A template as its tokens *)

(** A template is read as a sequence of tokens: stretches of text and
    placeholder tokens [{{key}}]. *)
Inductive Token : Type :=
| Text (text : string)
| Placeholder (key : string).

Definition tokenText (token : Token) : string :=
  match token with
  | Text text => text
  | Placeholder key => dbutil.placeholder key
  end.

(** The template that the tokens spell. *)
Definition compose (tokens : list Token) : string :=
  fold_right (fun token rest => tokenText token ++ rest) EmptyString tokens.

(** The value of a key in the map. *)
Fixpoint lookup (key : string) (data : list (string * string)) : option string :=
  match data with
  | [] => None
  | (key', value) :: data' =>
      if (key' =? key)%string then Some value else lookup key data'
  end.

(** "Replaces every recognized placeholder token with its substitution
    value; unrecognized tokens are left verbatim": the tokens one by
    one. *)
Definition tokenValue (data : list (string * string)) (token : Token) : string :=
  match token with
  | Text text => text
  | Placeholder key =>
      match lookup key data with
      | Some value => value
      | None => dbutil.placeholder key
      end
  end.

Definition fill (data : list (string * string)) (tokens : list Token) : string :=
  fold_right (fun token rest => tokenValue data token ++ rest) EmptyString
    tokens.

(** The tokens are told apart by their braces: a text holds no opening
    brace and a key no brace. *)
Definition plain (token : Token) : bool :=
  match token with
  | Text text => strings.avoids "{" text
  | Placeholder key => strings.avoids "{}" key
  end.

Definition plainKeys (data : list (string * string)) : bool :=
  forallb (fun kv => strings.avoids "{}" (fst kv)) data.

Module credsutil.

(** Modelled from the spec: the settings that the options of
    [GenerateUsername] fill in (the names and their length budgets, and the
    maximum length of the username). *)
Record usernameOptions : Type := mkUsernameOptions {
  displayName : string;
  displayNameLen : nat;
  roleName : string;
  roleNameLen : nat;
  maxLen : nat
}.

(** Modelled from the spec: one option applied to the settings. *)
Definition applyOpt (op : usernameOptions) (opt : UsernameOpt) : usernameOptions :=
  match opt with
  | OptDisplayName name n =>
      mkUsernameOptions name n (roleName op) (roleNameLen op) (maxLen op)
  | OptRoleName name n =>
      mkUsernameOptions (displayName op) (displayNameLen op) name n (maxLen op)
  | OptMaxLength n =>
      mkUsernameOptions (displayName op) (displayNameLen op)
        (roleName op) (roleNameLen op) n
  end.

(** Modelled from the spec: truncation, the first [n] bytes of [s]. *)
Fixpoint trunc (s : string) (n : nat) : string :=
  match n, s with
  | S n', String c s' => String c (trunc s' n')
  | _, _ => EmptyString
  end.

(** Modelled from the spec: the suffix of a call that draws nothing.
    Sections 4.3 and 7 have every generated username carry a uniqueness
    suffix that is not empty: one byte at least. *)
Definition leastSuffix : string := "0".

(** Modelled from the spec: the uniqueness suffix of a call that draws
    [uniq], "the minimum uniqueness suffix" of section 4.3: the bytes
    drawn, all of them needed, and never an empty suffix. *)
Definition suffix (uniq : string) : string :=
  match uniq with
  | EmptyString => leastSuffix
  | String _ _ => uniq
  end.

(** Modelled from the spec: [credsutil.GenerateUsername(opts...)], which
    is not among the sources; section 4.3 has it combine a prefix from the
    display name, a fragment from the role name and a uniqueness suffix,
    take the truncation budget from the human-readable parts first, keep
    the suffix intact, and fail only when the suffix alone does not fit
    the maximum length.  [uniq] is what the generator draws for this
    call. *)
Definition GenerateUsername (opts : list UsernameOpt) (uniq : string)
  : string * option error :=
  let op :=
    fold_left applyOpt opts
      (mkUsernameOptions EmptyString 0 EmptyString 0 0) in
  if (maxLen op <? String.length (suffix uniq))%nat
  then (EmptyString,
        Some (ErrGenerateUsername "uniqueness suffix exceeds the maximum length"))
  else
    let human :=
      trunc (displayName op) (displayNameLen op)
      ++ trunc (roleName op) (roleNameLen op) in
    (trunc human (maxLen op - String.length (suffix uniq)) ++ suffix uniq, None).

End credsutil.

(* ===================================================================== *)
(** ** A backend to run the plugin against *)
(* ===================================================================== *)

Module demo.

(** The database is the list of the statements applied to it. *)
Definition DB : Type := list string.

Definition notSupported : error :=
  MySQLError 1295
    "This command is not supported in the prepared statement protocol yet".

Definition syntaxError : error :=
  MySQLError 1064 "You have an error in your SQL syntax".

(** An old server: user management is not in the prepared-statement
    protocol. *)
Definition prepare (query : string) (d : DB) : option error :=
  if strings.HasPrefix query "ALTER USER" || strings.HasPrefix query "CREATE USER"
  then Some notSupported
  else if strings.HasPrefix query "SELEC "
  then Some syntaxError
  else None.

Definition noSuchUser : error :=
  MySQLError 1396 "Operation failed for 'ghost'@'%'".

(** A statement about the account [ghost] fails: there is no such user. *)
Definition exec (query : string) (d : DB) : DB * option error :=
  if strings.Contains query "'ghost'"
  then (d, Some noSuchUser)
  else ((d ++ [query])%list, None).

Definition driver : Driver DB :=
  mkDriver (fun _ => None) (fun _ => None) prepare exec exec (fun _ => None).

Definition idle : World DB := mkWorld [] None [].

Definition executePreparedStatementsWithMap :=
  executePreparedStatementsWithMap strutil.ParseArbitraryStringSlice
    dbutil.QueryHelper driver.

Definition NewUser :=
  NewUser strutil.ParseArbitraryStringSlice dbutil.QueryHelper
    credsutil.GenerateUsername driver.

Definition UpdateUser :=
  UpdateUser strutil.ParseArbitraryStringSlice dbutil.QueryHelper driver.

Definition DeleteUser :=
  DeleteUser strutil.ParseArbitraryStringSlice driver.

Definition expiry : Time := mkTime "2026-11-02 00:00:00 +0000 UTC".

(** A creation request with two statements in one template. *)
Definition newAlice : NewUserRequest :=
  mkNewUserRequest (mkUsernameMetadata "token" "readonly")
    (mkStatements
       ["CREATE USER '{{name}}'@'%' IDENTIFIED BY '{{password}}'; GRANT SELECT ON *.* TO '{{name}}'@'%';"])
    "s3cret" expiry.

(** A creation request whose only template holds no statement. *)
Definition blankRequest : NewUserRequest :=
  mkNewUserRequest (mkUsernameMetadata "token" "readonly")
    (mkStatements [" ; "]) "s3cret" expiry.

Definition createAlice : string :=
  "CREATE USER 'alice'@'%' IDENTIFIED BY 's3cret'".

Definition grantAlice : string := "GRANT SELECT ON *.* TO 'alice'@'%'".

Definition alterGhost : string :=
  "ALTER USER 'ghost'@'%' IDENTIFIED BY 's3cret'".

(** A creation request without statements. *)
Definition emptyRequest : NewUserRequest :=
  mkNewUserRequest (mkUsernameMetadata "token" "readonly")
    (mkStatements []) "s3cret" expiry.

Definition updateNothing : UpdateUserRequest :=
  mkUpdateUserRequest "alice" None None.

Definition extendAlice : UpdateUserRequest :=
  mkUpdateUserRequest "alice" None
    (Some (mkChangeExpiration expiry (mkStatements []))).

Definition rotateAlice : UpdateUserRequest :=
  mkUpdateUserRequest "alice"
    (Some (mkChangePassword "n3w" (mkStatements []))) None.

Definition deleteAlice : DeleteUserRequest :=
  mkDeleteUserRequest "alice" (mkStatements []).

End demo.

(* ===================================================================== *)
(** ** Readings of a journal and of a backend *)
(* ===================================================================== *)

(** The calls on the mutex. *)
Definition lockEvent (e : Event) : bool :=
  match e with
  | EvLock | EvUnlock => true
  | _ => false
  end.

Section Readings.
Variable DB : Type.
Variable drv : Driver DB.

(** The run of [queries] through [executePreparedStatementsWithMap]
    reaches a query that prepare refuses with error 1295 and whose direct
    execution fails. *)
Fixpoint reachesNilClose (queries : list string) (d : DB) : bool :=
  match queries with
  | [] => false
  | q :: queries' =>
      match drvPrepare drv q d with
      | None =>
          match drvStmtExec drv q d with
          | (d', None) => reachesNilClose queries' d'
          | (_, Some _) => false
          end
      | Some err =>
          if notPreparable err
          then
            match drvExec drv q d with
            | (d', None) => reachesNilClose queries' d'
            | (_, Some _) => true
            end
          else false
      end
  end.

(** The first query whose direct execution fails, with its position. *)
Fixpoint firstDirectFailure (queries : list string) (d : DB)
  : option (nat * error) :=
  match queries with
  | [] => None
  | q :: queries' =>
      match drvExec drv q d with
      | (d', None) =>
          option_map (fun ke => (S (fst ke), snd ke))
            (firstDirectFailure queries' d')
      | (_, Some err) => Some (0, err)
      end
  end.

End Readings.

Module outage.

(** Backends that refuse at one point and are the old server otherwise. *)
Definition unreachable : error := DriverError "dial tcp: connection refused".

Definition readOnly : error :=
  MySQLError 1792 "Cannot execute statement in a READ ONLY transaction".

Definition lostConnection : error := DriverError "invalid connection".

Definition noConnection : Driver demo.DB :=
  mkDriver (fun _ => Some unreachable) (fun _ => None) demo.prepare demo.exec
    demo.exec (fun _ => None).

Definition noTransaction : Driver demo.DB :=
  mkDriver (fun _ => None) (fun _ => Some readOnly) demo.prepare demo.exec
    demo.exec (fun _ => None).

Definition noCommit : Driver demo.DB :=
  mkDriver (fun _ => None) (fun _ => None) demo.prepare demo.exec demo.exec
    (fun _ => Some lostConnection).

(** A deletion whose second statement is about an account that does not
    exist. *)
Definition dropBoth : DeleteUserRequest :=
  mkDeleteUserRequest "alice"
    (mkStatements
       ["REVOKE ALL ON *.* FROM '{{name}}'@'%'; DROP USER 'ghost'@'%'; DROP USER '{{name}}'@'%'"]).

Definition dropBothQueries : list string :=
  ["REVOKE ALL ON *.* FROM 'alice'@'%'"; "DROP USER 'ghost'@'%'"].

(** A password change without a user name. *)
Definition rotateNobody : UpdateUserRequest :=
  mkUpdateUserRequest EmptyString
    (Some (mkChangePassword "n3w" (mkStatements []))) None.

(** A password change together with an expiration change. *)
Definition rotateAndExtend : UpdateUserRequest :=
  mkUpdateUserRequest "alice"
    (Some (mkChangePassword "n3w" (mkStatements [])))
    (Some (mkChangeExpiration demo.expiry (mkStatements []))).

(** A uniqueness suffix of seventeen bytes. *)
Definition longSuffix : string := "0123456789abcdefg".

End outage.

(* ===================================================================== *)
(** ** The [retry] function of the package-installation script *)
(* ===================================================================== *)

Module sh.

(** Shell arithmetic is on signed 64-bit integers. *)
Definition wrap64 (z : Z) : Z := ((z + 2 ^ 63) mod 2 ^ 64 - 2 ^ 63)%Z.

(** What [retry] does: it runs the command (for the [attempt]-th time,
    from 0) and sleeps. *)
Inductive Call : Type :=
| Run (attempt : nat)
| Sleep (seconds : Z).

(** How [retry] ends: [return 0], [exit] of the whole script with a
    status, or still looping when the fuel is spent. *)
Inductive End : Type :=
| Return (status : N)
| Exit (status : N)
| Looping.

(** The [until "$@"; do ... done] loop.  [cmd n] is the exit status of the
    [n]-th run of the command, [count] the shell variable.  The script
    runs under [set -e]: a [sleep] that refuses its argument (a negative
    number, after the power wrapped around) ends the script with status
    1.  A negative exponent does not occur below 2^63 iterations; the
    power is then taken as shell arithmetic's error, status 1. *)
Fixpoint until (fuel : nat) (retries : Z) (cmd : nat -> N) (n : nat) (count : Z)
  : list Call * End :=
  match fuel with
  | O => ([], Looping)
  | S fuel' =>
      let status := cmd n in
      if (status =? 0)%N then ([Run n], Return 0%N)
      else if (count <? 0)%Z then ([Run n], Exit 1%N)
      else
        let wait := wrap64 (2 ^ count) in
        let count := wrap64 (count + 1) in
        if (count <? retries)%Z
        then
          if (wait <? 0)%Z then ([Run n; Sleep wait], Exit 1%N)
          else
            let (calls, e) := until fuel' retries cmd (S n) count in
            (Run n :: Sleep wait :: calls, e)
        else ([Run n], Exit status)
  end.

(** [retry retries cmd...]: [local retries=$1; shift; local count=0]. *)
Definition retry (fuel : nat) (retries : Z) (cmd : nat -> N) : list Call * End :=
  until fuel retries cmd 0 0%Z.

(** The seconds slept in a run. *)
Fixpoint slept (calls : list Call) : Z :=
  match calls with
  | [] => 0%Z
  | Sleep seconds :: calls' => (seconds + slept calls')%Z
  | Run _ :: calls' => slept calls'
  end.

(** The runs in a run. *)
Fixpoint runs (calls : list Call) : nat :=
  match calls with
  | [] => 0
  | Run _ :: calls' => S (runs calls')
  | Sleep _ :: calls' => runs calls'
  end.

(** Runs [from], [from + 1], ... of the command, [k] of them, each
    followed by a sleep of two to the power of its number. *)
Fixpoint backoff (from k : nat) : list Call :=
  match k with
  | O => []
  | S k' => Run from :: Sleep (2 ^ Z.of_nat from) :: backoff (S from) k'
  end.

(** A command that fails twice, with status 100, and then succeeds. *)
Definition flaky (n : nat) : N := if (n <? 2)%nat then 100%N else 0%N.

(** A command that fails every time, with status 7. *)
Definition broken (n : nat) : N := 7%N.

(** *** The script around [retry] *)

(** The commands of the script's body: [cloud-init status --wait],
    [cd /tmp], [sudo yum -y install ...], [sudo apt update],
    [sudo apt install -y ...], [sudo zypper install --no-confirm ...] and
    [sudo SUSEConnect -p PackageHub/12.5/x86_64]. *)
Inductive Command : Type :=
| CloudInitWait
| CdTmp
| YumInstall
| AptUpdate
| AptInstall
| ZypperInstall
| SUSEConnect.

(** What the script does: it prints a line or runs a command. *)
Inductive Step : Type :=
| Echo (line : string)
| Exec (command : Command).

Section Script.

(** The host: the variables [PACKAGES] and [packages], the output of
    [command -v name], and the exit status of a command after the steps
    made so far. *)
Variable PACKAGES packages : string.
Variable command_v : string -> string.
Variable status : list Step -> Command -> N.

(** A stretch of the script, from the steps made so far: the steps made
    after it, and the status the script has exited with, if it has. *)
Definition Script : Type := list Step -> list Step * option N.

Definition echo (line : string) : Script :=
  fun log => ((log ++ [Echo line])%list, None).

(** A simple command under [set -e]: a status other than 0 ends the
    script with it. *)
Definition exec (command : Command) : Script :=
  fun log =>
    ((log ++ [Exec command])%list,
     let exit := status log command in
     if (exit =? 0)%N then None else Some exit).

Definition exit (code : N) : Script := fun log => (log, Some code).

Definition andThen (first second : Script) : Script :=
  fun log =>
    match first log with
    | (log', None) => second log'
    | (log', Some code) => (log', Some code)
    end.

(** [[ -n "$(command -v name)" ]]. *)
Definition found (name : string) : bool :=
  negb (command_v name =? "")%string.

(** [sudo zypper install ... || ( sudo SUSEConnect ... && sudo zypper
    install ... )]: the commands left of [||] and of [&&] do not end the
    script when they fail; the list, the last command of the script,
    gives it its status. *)
Definition zypper : Script :=
  fun log =>
    let log1 := (log ++ [Exec ZypperInstall])%list in
    if (status log ZypperInstall =? 0)%N then (log1, None)
    else
      let log2 := (log1 ++ [Exec SUSEConnect])%list in
      let exit := status log1 SUSEConnect in
      if (exit =? 0)%N then exec ZypperInstall log2 else (log2, Some exit).

(** The script from its first line on; [retry] is defined and not
    called. *)
Definition body : Script :=
  if (PACKAGES =? "")%string
  then andThen (echo "No dependencies to install.") (exit 0)
  else
    andThen (exec CloudInitWait)
      (andThen (echo ("Installing Dependencies: " ++ packages))
         (if found "yum" then andThen (exec CdTmp) (exec YumInstall)
          else if found "apt"
          then andThen (exec CdTmp) (andThen (exec AptUpdate) (exec AptInstall))
          else if found "zypper" then zypper
          else andThen (echo "No package manager found.") (exit 1))).

(** The steps of a run of the script and its exit status. *)
Definition script : list Step * N :=
  match body [] with
  | (log, None) => (log, 0%N)
  | (log, Some code) => (log, code)
  end.

(** The package manager the script settles on. *)
Definition chosen : option string :=
  if found "yum" then Some "yum"
  else if found "apt" then Some "apt"
  else if found "zypper" then Some "zypper"
  else None.

End Script.

(** The package manager a command belongs to. *)
Definition manager (command : Command) : option string :=
  match command with
  | YumInstall => Some "yum"
  | AptUpdate | AptInstall => Some "apt"
  | ZypperInstall | SUSEConnect => Some "zypper"
  | CloudInitWait | CdTmp => None
  end.

Definition isInstall (command : Command) : bool :=
  match command with
  | YumInstall | AptInstall | ZypperInstall => true
  | _ => false
  end.

Definition sameCommand (c1 c2 : Command) : bool :=
  match c1, c2 with
  | CloudInitWait, CloudInitWait | CdTmp, CdTmp | YumInstall, YumInstall
  | AptUpdate, AptUpdate | AptInstall, AptInstall
  | ZypperInstall, ZypperInstall | SUSEConnect, SUSEConnect => true
  | _, _ => false
  end.

(** How many times a command runs. *)
Fixpoint times (command : Command) (log : list Step) : nat :=
  match log with
  | [] => 0
  | Exec c :: log' =>
      (if sameCommand command c then 1 else 0) + times command log'
  | Echo _ :: log' => times command log'
  end.

(** A host with zypper only, whose repositories lack the package until
    PackageHub is registered: the first install fails with status 104. *)
Definition onlyZypper (name : string) : string :=
  if (name =? "zypper")%string then "/usr/bin/zypper" else "".

Definition registered (log : list Step) : bool :=
  existsb (fun step =>
             match step with
             | Exec SUSEConnect => true
             | _ => false
             end) log.

Definition packageHub (log : list Step) (command : Command) : N :=
  match command with
  | ZypperInstall => if registered log then 0%N else 104%N
  | _ => 0%N
  end.

(** A host with yum and apt, where everything works. *)
Definition yumAndApt (name : string) : string :=
  if (name =? "zypper")%string then "" else "/usr/bin/" ++ name.

Definition works (log : list Step) (command : Command) : N := 0%N.

End sh.

(* ===================================================================== *)
(** ** Package [cache]: the static secret cache updater *)
(* ===================================================================== *)

Module cache.

Set Warnings "-register-all".

(** What [json.Unmarshal] puts in an [interface{}]: nil, a bool, a number
    (kept as its text), a string, a slice or a map. *)
Inductive json : Type :=
| JNull
| JBool (b : bool)
| JNumber (text : string)
| JString (s : string)
| JArray (items : list json)
| JObject (fields : list (string * json)).

(** [m[key]] on a [map[string]interface{}]: a missing key gives nil. *)
Fixpoint index (m : list (string * json)) (key : string) : json :=
  match m with
  | [] => JNull
  | (k, v) :: m' => if (k =? key)%string then v else index m' key
  end.

(** The type assertions [v.(map[string]interface{})], [v.(bool)] and
    [v.(string)], with their [ok]. *)
Definition asMap (v : json) : option (list (string * json)) :=
  match v with
  | JObject fields => Some fields
  | _ => None
  end.

Definition asBool (v : json) : option bool :=
  match v with
  | JBool b => Some b
  | _ => None
  end.

Definition asString (v : json) : option string :=
  match v with
  | JString s => Some s
  | _ => None
  end.

(** The errors of the package: [fmt.Errorf(format, args..., err)] with the
    strings given to its [%s] verbs and the error given to [%w] (nil is
    [None]), and the errors of the websocket, of [encoding/json] and of
    the API client. *)
Inductive error : Type :=
| Errorf (format : string) (args : list string) (wrapped : option error)
| Foreign (msg : string).

(** [time.Second] and [StaticSecretBackoff], in nanoseconds. *)
Definition Second : Z := 1000000000%Z.
Definition StaticSecretBackoff : Z := (10 * Second)%Z.

Definition unexpectedEventFormat : string :=
  "unexpected event format, message: %s" ++ newline ++ "error: %w".

Section Updater.

(** The API client's secrets ([*api.Secret]), its address, token and
    namespace; [json.Unmarshal] into a [map[string]interface{}];
    [client.Clone()] at the [n]-th update of a call; and
    [client.Logical().ReadWithContext(ctx, path)]. *)
Variable Secret : Type.
Variable address token namespace : string.
Variable Unmarshal : string -> error + list (string * json).
Variable Clone : nat -> option error.
Variable ReadWithContext : string -> option Secret * option error.

(** The calls the updater makes. *)
Inductive Event : Type :=
| EvAddHeader (key value : string)
| EvDial (url : string)
| EvLogError (err : error)
| EvSleep (nanoseconds : Z)
| EvRead
| EvClone
| EvCacheGet (path : string)
| EvReadSecret (path : string)
| EvLogInfo (secret : option Secret)
| EvClose.

(** A call returns an error (nil is [None]) or is still waiting, for the
    next dial or the next message. *)
Inductive Result : Type :=
| Returns (err : option error)
| Waits.

Definition wsLocation : string :=
  "ws://" ++ address ++ "/v1/sys/events/subscribe/kv*?json=true".

(** The calls of one [openWebSocketConnection]. *)
Definition dialCalls : list Event :=
  [EvAddHeader "X-Vault-Token" token;
   EvAddHeader "X-Vault-Namespace" namespace;
   EvDial wsLocation].

Definition dialError (err : error) : error :=
  Errorf
    ("error returned when opening event stream web socket, ensure auto-auth token"
     ++ " has correct permissions and Vault is version 1.16 or above: %w")
    [] (Some err).

(** [openWebSocketConnection(ctx)]; [dial] is the error of
    [websocket.Dial]. *)
Definition openWebSocketConnection (dial : option error)
  : list Event * option error :=
  match dial with
  | Some err => (dialCalls, Some (dialError err))
  | None => (dialCalls, None)
  end.

(** [updateStaticSecret(ctx, path)], at the [n]-th update. *)
Definition updateStaticSecret (n : nat) (path : string)
  : list Event * option error :=
  match Clone n with
  | Some err => ([EvClone], Some err)
  | None =>
      ([EvClone; EvCacheGet path; EvReadSecret path;
        EvLogInfo (fst (ReadWithContext path))],
       None)
  end.

(** The first loop of [streamStaticSecretEvents]: dial until it works.
    [dials] are the errors of the coming calls of [websocket.Dial]; the
    boolean tells whether a connection is open. *)
Fixpoint connect (dials : list (option error)) : list Event * bool :=
  match dials with
  | [] => ([], false)
  | dial :: dials' =>
      match openWebSocketConnection dial with
      | (calls, Some err) =>
          let (later, connected) := connect dials' in
          ((calls ++ [EvLogError err; EvSleep StaticSecretBackoff] ++ later)%list,
           connected)
      | (calls, None) => (calls, true)
      end
  end.

(** One turn of the second loop, on a message that was read: the calls of
    an update, and the error to return, if any ([None]: next message);
    the boolean tells whether an update was made. *)
Definition handle (n : nat) (message : string)
  : list Event * option error * bool :=
  match Unmarshal message with
  | inl err =>
      ([],
       Some (Errorf ("error when unmarshaling event, message: %s" ++ newline
                     ++ "error: %w") [message] (Some err)),
       false)
  | inr messageMap =>
      match asMap (index messageMap "data") with
      | None => ([], Some (Errorf unexpectedEventFormat [message] None), false)
      | Some data =>
          match asMap (index data "event") with
          | None =>
              ([], Some (Errorf unexpectedEventFormat [message] None), false)
          | Some event =>
              match asMap (index event "metadata") with
              | None =>
                  ([], Some (Errorf unexpectedEventFormat [message] None), false)
              | Some metadata =>
                  match asBool (index metadata "modified") with
                  | Some true =>
                      match asString (index metadata "path") with
                      | None =>
                          ([], Some (Errorf unexpectedEventFormat [message] None),
                           false)
                      | Some path =>
                          match updateStaticSecret n path with
                          | (calls, Some err) =>
                              (calls,
                               Some (Errorf unexpectedEventFormat [message]
                                       (Some err)),
                               true)
                          | (calls, None) => (calls, None, true)
                          end
                      end
                  | _ => ([], None, false)
                  end
              end
          end
      end
  end.

(** The second loop: read and handle, until something fails.  [reads] are
    the results of the coming calls of [conn.Read]: an error or a
    message; [n] counts the updates made. *)
Fixpoint receive (n : nat) (reads : list (error + string)) : list Event * Result :=
  match reads with
  | [] => ([], Waits)
  | inl err :: _ =>
      ([EvRead],
       Returns
         (Some (Errorf
                  "error when attempting to read from event stream, reopening websocket: %w"
                  [] (Some err))))
  | inr message :: reads' =>
      match handle n message with
      | (calls, Some err, _) => (EvRead :: calls, Returns (Some err))
      | (calls, None, updated) =>
          let (later, result) :=
            receive (if updated then S n else n) reads' in
          ((EvRead :: calls ++ later)%list, result)
      end
  end.

(** [streamStaticSecretEvents(ctx)]: the deferred [conn.Close] runs when
    the function returns. *)
Definition streamStaticSecretEvents (dials : list (option error))
  (reads : list (error + string)) : list Event * Result :=
  match connect dials with
  | (calls, false) => (calls, Waits)
  | (calls, true) =>
      match receive 0 reads with
      | (later, Returns err) => ((calls ++ later ++ [EvClose])%list, Returns err)
      | (later, Waits) => ((calls ++ later)%list, Waits)
      end
  end.

(** The calls of one failed attempt to connect. *)
Definition failedDial (err : error) : list Event :=
  (dialCalls ++ [EvLogError (dialError err); EvSleep StaticSecretBackoff])%list.

(** The nanoseconds slept, the messages read and the closes in a run. *)
Fixpoint slept (calls : list Event) : Z :=
  match calls with
  | [] => 0%Z
  | EvSleep d :: calls' => (d + slept calls')%Z
  | _ :: calls' => slept calls'
  end.

Fixpoint count (p : Event -> bool) (calls : list Event) : nat :=
  match calls with
  | [] => 0
  | e :: calls' => (if p e then 1 else 0) + count p calls'
  end.

Definition isRead (e : Event) : bool :=
  match e with
  | EvRead => true
  | _ => false
  end.

Definition isClose (e : Event) : bool :=
  match e with
  | EvClose => true
  | _ => false
  end.

End Updater.

(** The example event of the source, as [json.Unmarshal] gives it. *)
Definition exampleEvent : list (string * json) :=
  [("id", JString "a3be9fb1-b514-519f-5b25-b6f144a8c1ce");
   ("source", JString "https://vaultproject.io/");
   ("specversion", JString "1.0");
   ("type", JString "*");
   ("data",
    JObject
      [("event",
        JObject
          [("id", JString "a3be9fb1-b514-519f-5b25-b6f144a8c1ce");
           ("metadata",
            JObject
              [("current_version", JString "1");
               ("data_path", JString "secret/data/foo");
               ("modified", JString "true");
               ("oldest_version", JString "0");
               ("operation", JString "data-write");
               ("path", JString "secret/data/foo")])]);
       ("event_type", JString "kv-v2/data-write");
       ("plugin_info",
        JObject
          [("mount_class", JString "secret");
           ("mount_accessor", JString "kv_5dc4d18e");
           ("mount_path", JString "secret/");
           ("plugin", JString "kv")])]);
   ("datacontentype", JString "application/cloudevents");
   ("time", JString "2023-09-12T15:19:49.394915-07:00")].

(** The same event with [modified] as a JSON boolean. *)
Definition modifiedEvent : list (string * json) :=
  [("data",
    JObject
      [("event",
        JObject
          [("metadata",
            JObject
              [("modified", JBool true);
               ("path", JString "secret/data/foo")])])])].

(** A decoder for three messages: the two events, and anything else is
    not JSON. *)
Definition decode (message : string) : error + list (string * json) :=
  if (message =? "example")%string then inr exampleEvent
  else if (message =? "modified")%string then inr modifiedEvent
  else inl (Foreign "invalid character").

Definition closed : error := Foreign "websocket closed".

Definition forbidden : error := Foreign "403 permission denied".

(** A client that clones, and whose reads of secrets fail. *)
Definition cloneOk (n : nat) : option error := None.

Definition readFails (path : string) : option string * option error :=
  (None, Some forbidden).

End cache.

(* ===================================================================== *)
(** ** Loops *)
(* ===================================================================== *)

Section Loops.
Variable DB : Type.
Variable A : Type.

Lemma forRange_ext (body1 body2 : A -> Run DB (option error)) (l : list A) :
  (forall x w, body1 x w = body2 x w) ->
  forall w, forRange body1 l w = forRange body2 l w.
Proof.
  intros Hext. induction l as [|x l IH]; intros w; simpl; [reflexivity|].
  unfold bind. rewrite Hext.
  destruct (body2 x w) as [[[err|]|] w']; auto.
Qed.

Lemma forRange_app (body : A -> Run DB (option error)) (l1 l2 : list A) :
  forall w,
    forRange body (l1 ++ l2)%list w =
    match forRange body l1 w with
    | (Returned None, w') => forRange body l2 w'
    | other => other
    end.
Proof.
  induction l1 as [|x l1 IH]; intros w; simpl; [reflexivity|].
  unfold bind.
  destruct (body x w) as [[[err|]|] w']; simpl; auto.
Qed.

End Loops.

Lemma forRange_flat_map {DB A B : Type} (f : A -> list B)
  (body : B -> Run DB (option error)) (l : list A) :
  forall w,
    forRange (fun x => forRange body (f x)) l w = forRange body (flat_map f l) w.
Proof.
  induction l as [|x l IH]; intros w; [reflexivity|].
  cbn [flat_map]. rewrite forRange_app.
  cbn [forRange]. unfold bind.
  destruct (forRange body (f x) w) as [[[err|]|] w']; auto.
Qed.

(* ===================================================================== *)
(** ** The statement loops *)
(* ===================================================================== *)

Lemma preparedQueries_app (evs1 evs2 : list Event) :
  preparedQueries (evs1 ++ evs2)
  = (preparedQueries evs1 ++ preparedQueries evs2)%list.
Proof.
  induction evs1 as [|e evs1 IH]; [reflexivity|].
  destruct e; cbn; rewrite ?IH; reflexivity.
Qed.

Section Engine.
Variable ParseArbitraryStringSlice : string -> string -> list string.
Variable QueryHelper : string -> list (string * string) -> string.
Variable DB : Type.
Variable drv : Driver DB.

Lemma executeQuery_sendQuery (queryMap : list (string * string)) (fragment : string)
  (w : World DB) :
  executeQuery QueryHelper drv queryMap fragment w =
  forRange (sendQuery drv) (renderFragment QueryHelper queryMap fragment) w.
Proof.
  unfold executeQuery, renderFragment.
  destruct (String.length (strings.TrimSpace fragment) =? 0)%nat; [reflexivity|].
  simpl. unfold sendQuery, bind.
  destruct (PrepareContext drv _ w) as [[[stmt [err|]]|] w1]; simpl; [| |reflexivity].
  - destruct (notPreparable err); [|reflexivity].
    destruct (ExecContext drv _ w1) as [[[err'|]|] w2]; simpl; try reflexivity.
    destruct (StmtClose stmt w2) as [[[]|] w3]; reflexivity.
  - destruct (StmtExecContext drv stmt w1) as [[[err'|]|] w2]; simpl; try reflexivity;
      destruct (StmtClose stmt w2) as [[[]|] w3]; reflexivity.
Qed.

Lemma executeQuery_loops (statements : list string) (queryMap : list (string * string))
  (w : World DB) :
  forRange
    (fun stmt =>
       forRange (executeQuery QueryHelper drv queryMap)
         (ParseArbitraryStringSlice stmt ";"))
    statements w =
  forRange (sendQuery drv)
    (rendered ParseArbitraryStringSlice QueryHelper statements queryMap) w.
Proof.
  unfold rendered. rewrite <- forRange_flat_map.
  apply forRange_ext. intros stmt w'.
  rewrite <- forRange_flat_map.
  apply forRange_ext. intros fragment w''.
  apply executeQuery_sendQuery.
Qed.

Lemma revokeQuery_ExecContext (username fragment : string) (w : World DB) :
  revokeQuery drv username fragment w =
  forRange (ExecContext drv) (revokeFragment username fragment) w.
Proof.
  unfold revokeQuery, revokeFragment.
  destruct (String.length (strings.TrimSpace fragment) =? 0)%nat; [reflexivity|].
  simpl. unfold bind.
  destruct (ExecContext drv _ w) as [[[err|]|] w1]; reflexivity.
Qed.

Lemma revokeQuery_loops (req : DeleteUserRequest) (w : World DB) :
  forRange
    (fun stmt =>
       forRange (revokeQuery drv (DeleteUser_Username req))
         (ParseArbitraryStringSlice stmt ";"))
    (revocationStatements req) w =
  forRange (ExecContext drv) (revocationQueries ParseArbitraryStringSlice req) w.
Proof.
  unfold revocationQueries. rewrite <- forRange_flat_map.
  apply forRange_ext. intros stmt w'.
  rewrite <- forRange_flat_map.
  apply forRange_ext. intros fragment w''.
  apply revokeQuery_ExecContext.
Qed.

(** One rendered query, on an open transaction. *)
Lemma sendQuery_cases (q : string) (w : World DB) (d : DB) :
  pending w = Some d ->
  sendQuery drv q w =
  match drvPrepare drv q d with
  | None =>
      (Returned (snd (drvStmtExec drv q d)),
       mkWorld (committed w) (Some (fst (drvStmtExec drv q d)))
         (journal w ++ [EvPrepare q; EvStmtExec q; EvStmtClose q])%list)
  | Some err =>
      if notPreparable err
      then
        (match snd (drvExec drv q d) with
         | None => Returned None
         | Some _ => Panicked
         end,
         mkWorld (committed w) (Some (fst (drvExec drv q d)))
           (journal w ++ [EvPrepare q; EvExec q])%list)
      else
        (Returned (Some err),
         mkWorld (committed w) (Some d) (journal w ++ [EvPrepare q])%list)
  end.
Proof.
  intros Hp. unfold sendQuery, bind, PrepareContext. rewrite Hp.
  destruct (drvPrepare drv q d) as [err|]; cbn [fst snd].
  - destruct (notPreparable err).
    + unfold ExecContext, StmtClose, record, setPending, ret. cbn. rewrite Hp.
      destruct (drvExec drv q d) as [d' [err'|]]; cbn;
        rewrite <- !app_assoc; reflexivity.
    + unfold record, ret. rewrite Hp. reflexivity.
  - unfold StmtExecContext, StmtClose, record, setPending, ret. cbn. rewrite Hp.
    destruct (drvStmtExec drv q d) as [d' [err'|]]; cbn;
      rewrite <- !app_assoc; reflexivity.
Qed.

Lemma ExecContext_cases (q : string) (w : World DB) (d : DB) :
  pending w = Some d ->
  ExecContext drv q w =
  (Returned (snd (drvExec drv q d)),
   mkWorld (committed w) (Some (fst (drvExec drv q d)))
     (journal w ++ [EvExec q])%list).
Proof.
  intros Hp. unfold ExecContext. rewrite Hp.
  destruct (drvExec drv q d) as [d' err]. reflexivity.
Qed.

Lemma world_eta (w : World DB) (d : DB) :
  pending w = Some d ->
  w = mkWorld (committed w) (Some d) (journal w ++ [])%list.
Proof.
  intros Hp. destruct w as [c p j]. cbn in *. rewrite app_nil_r. congruence.
Qed.

(** The loop of [executePreparedStatementsWithMap] touches only the
    working copy, makes only statement calls, and falls through exactly
    when every query is applied. *)
Lemma sendQuery_loop (qs : list string) :
  forall (w : World DB) (d : DB),
    pending w = Some d ->
    exists r d' evs,
      forRange (sendQuery drv) qs w =
        (r, mkWorld (committed w) (Some d') (journal w ++ evs)%list)
      /\ forallb statementEvent evs = true
      /\ match applyAll (applyPrepared drv) qs d with
         | Some d1 => r = Returned None /\ d' = d1
         | None => r <> Returned None
         end.
Proof.
  induction qs as [|q qs IH]; intros w d Hp.
  - exists (Returned None), d, []. cbn. unfold ret.
    rewrite <- (world_eta w Hp). auto.
  - cbn [forRange applyAll]. unfold bind, applyPrepared.
    rewrite (sendQuery_cases q w Hp).
    destruct (drvPrepare drv q d) as [err|].
    + destruct (notPreparable err).
      * destruct (drvExec drv q d) as [d1 [err'|]]; cbn [fst snd].
        -- exists Panicked, d1, [EvPrepare q; EvExec q].
           split; [reflexivity | split; [reflexivity | discriminate]].
        -- match goal with
           | |- context [forRange _ qs ?w1] =>
               destruct (IH w1 d1 eq_refl) as (r & d' & evs & Hrun & Hev & Hres)
           end.
           exists r, d', ([EvPrepare q; EvExec q] ++ evs)%list.
           rewrite Hrun. cbn [committed journal].
           rewrite <- app_assoc.
           split; [reflexivity | split; [exact Hev | exact Hres]].
      * exists (Returned (Some err)), d, [EvPrepare q].
        split; [reflexivity | split; [reflexivity | discriminate]].
    + destruct (drvStmtExec drv q d) as [d1 [err'|]]; cbn [fst snd].
      * exists (Returned (Some err')), d1,
          [EvPrepare q; EvStmtExec q; EvStmtClose q].
        split; [reflexivity | split; [reflexivity | discriminate]].
      * match goal with
        | |- context [forRange _ qs ?w1] =>
            destruct (IH w1 d1 eq_refl) as (r & d' & evs & Hrun & Hev & Hres)
        end.
        exists r, d',
          ([EvPrepare q; EvStmtExec q; EvStmtClose q] ++ evs)%list.
        rewrite Hrun. cbn [committed journal].
        rewrite <- app_assoc.
        split; [reflexivity | split; [exact Hev | exact Hres]].
Qed.

(** The loop stops at the first query that fails for a reason of its own
    and returns that query's error as the backend gave it. *)
Lemma sendQuery_loop_failure (qs : list string) :
  forall (w : World DB) (d : DB) (k : nat) (err : error),
    pending w = Some d ->
    firstFailure drv qs d = Some (k, err) ->
    exists d' evs,
      forRange (sendQuery drv) qs w =
        (Returned (Some err),
         mkWorld (committed w) (Some d') (journal w ++ evs)%list)
      /\ forallb statementEvent evs = true.
Proof.
  induction qs as [|q qs IH]; intros w d k err Hp Hfail; [discriminate|].
  cbn [forRange firstFailure] in *. unfold bind.
  rewrite (sendQuery_cases q w Hp).
  destruct (drvPrepare drv q d) as [e|].
  - destruct (notPreparable e).
    + destruct (drvExec drv q d) as [d1 [err'|]]; cbn [fst snd]; [discriminate|].
      destruct (firstFailure drv qs d1) as [[k' e']|] eqn:Hrest; [|discriminate].
      cbn in Hfail. injection Hfail as <- <-.
      match goal with
      | |- context [forRange _ qs ?w1] =>
          destruct (IH w1 d1 k' e' eq_refl Hrest) as (d' & evs & Hrun & Hev)
      end.
      exists d', ([EvPrepare q; EvExec q] ++ evs)%list.
      rewrite Hrun. cbn [committed journal]. rewrite <- app_assoc.
      split; [reflexivity | exact Hev].
    + injection Hfail as <- <-. exists d, [EvPrepare q]. split; reflexivity.
  - destruct (drvStmtExec drv q d) as [d1 [err'|]]; cbn [fst snd].
    + injection Hfail as <- <-.
      exists d1, [EvPrepare q; EvStmtExec q; EvStmtClose q]. split; reflexivity.
    + destruct (firstFailure drv qs d1) as [[k' e']|] eqn:Hrest; [|discriminate].
      cbn in Hfail. injection Hfail as <- <-.
      match goal with
      | |- context [forRange _ qs ?w1] =>
          destruct (IH w1 d1 k' e' eq_refl Hrest) as (d' & evs & Hrun & Hev)
      end.
      exists d', ([EvPrepare q; EvStmtExec q; EvStmtClose q] ++ evs)%list.
      rewrite Hrun. cbn [committed journal]. rewrite <- app_assoc.
      split; [reflexivity | exact Hev].
Qed.

(** The calls of the loop, one by one: those of the queries it sends. *)
Lemma sendQuery_loop_calls (qs : list string) :
  forall (w : World DB) (d : DB),
    pending w = Some d ->
    exists r d',
      forRange (sendQuery drv) qs w =
        (r, mkWorld (committed w) (Some d')
              (journal w ++ callsOf drv (firstn (attempted drv qs d) qs) d)%list)
      /\ match applyAll (applyPrepared drv) qs d with
         | Some d1 => r = Returned None /\ d' = d1
         | None => r <> Returned None
         end.
Proof.
  induction qs as [|q qs IH]; intros w d Hp.
  - exists (Returned None), d. cbn. unfold ret.
    rewrite <- (world_eta w Hp). auto.
  - cbn [forRange applyAll attempted]. unfold bind.
    rewrite (sendQuery_cases q w Hp).
    unfold applyPrepared.
    destruct (drvPrepare drv q d) as [err|] eqn:Hprepare.
    + destruct (notPreparable err) eqn:Hnp.
      * destruct (drvExec drv q d) as [d1 [err'|]] eqn:Hexec; cbn [fst snd].
        -- exists Panicked, d1. cbn [firstn callsOf].
           unfold queryCalls. rewrite Hprepare, Hnp, app_nil_r.
           split; [reflexivity | discriminate].
        -- match goal with
           | |- context [forRange _ qs ?w1] =>
               destruct (IH w1 d1 eq_refl) as (r & d' & Hrun & Hres)
           end.
           exists r, d'. rewrite Hrun. cbn [committed journal firstn callsOf].
           unfold queryCalls, afterQuery. rewrite Hprepare, Hnp, Hexec.
           cbn [fst]. rewrite <- app_assoc.
           split; [reflexivity | exact Hres].
      * exists (Returned (Some err)), d. cbn [firstn callsOf].
        unfold queryCalls. rewrite Hprepare, Hnp, app_nil_r.
        split; [reflexivity | discriminate].
    + destruct (drvStmtExec drv q d) as [d1 [err'|]] eqn:Hexec; cbn [fst snd].
      * exists (Returned (Some err')), d1. cbn [firstn callsOf].
        unfold queryCalls. rewrite Hprepare, app_nil_r.
        split; [reflexivity | discriminate].
      * match goal with
        | |- context [forRange _ qs ?w1] =>
            destruct (IH w1 d1 eq_refl) as (r & d' & Hrun & Hres)
        end.
        exists r, d'. rewrite Hrun. cbn [committed journal firstn callsOf].
        unfold queryCalls, afterQuery. rewrite Hprepare, Hexec.
        cbn [fst]. rewrite <- app_assoc.
        split; [reflexivity | exact Hres].
Qed.

(** The loop sends the queries up to the first that fails. *)
Lemma attempted_failure (qs : list string) :
  forall (d : DB) (k : nat) (err : error),
    firstFailure drv qs d = Some (k, err) -> attempted drv qs d = S k.
Proof.
  induction qs as [|q qs IH]; intros d k err Hfail; [discriminate|].
  cbn [firstFailure attempted] in *. unfold applyPrepared.
  destruct (drvPrepare drv q d) as [e|].
  - destruct (notPreparable e).
    + destruct (drvExec drv q d) as [d1 [err'|]]; [discriminate|].
      destruct (firstFailure drv qs d1) as [[k' e']|] eqn:Hrest; [|discriminate].
      cbn in Hfail. injection Hfail as <- <-.
      rewrite (IH d1 k' e' Hrest). reflexivity.
    + injection Hfail as <- <-. reflexivity.
  - destruct (drvStmtExec drv q d) as [d1 [err'|]].
    + injection Hfail as <- <-. reflexivity.
    + destruct (firstFailure drv qs d1) as [[k' e']|] eqn:Hrest; [|discriminate].
      cbn in Hfail. injection Hfail as <- <-.
      rewrite (IH d1 k' e' Hrest). reflexivity.
Qed.

(** The loop sends every query when each of them succeeds. *)
Lemma attempted_all (qs : list string) :
  forall (d d1 : DB),
    applyAll (applyPrepared drv) qs d = Some d1 ->
    firstn (attempted drv qs d) qs = qs.
Proof.
  induction qs as [|q qs IH]; intros d d1 Hall; [reflexivity|].
  cbn [applyAll attempted] in *.
  destruct (applyPrepared drv q d) as [d'|]; [|discriminate].
  cbn [firstn]. rewrite (IH d' d1 Hall). reflexivity.
Qed.

(** The loop of [DeleteUser]. *)
Lemma ExecContext_loop (qs : list string) :
  forall (w : World DB) (d : DB),
    pending w = Some d ->
    exists r d' evs,
      forRange (ExecContext drv) qs w =
        (Returned r, mkWorld (committed w) (Some d') (journal w ++ evs)%list)
      /\ forallb statementEvent evs = true
      /\ match applyAll (applyDirect drv) qs d with
         | Some d1 => r = None /\ d' = d1
         | None => r <> None
         end.
Proof.
  induction qs as [|q qs IH]; intros w d Hp.
  - exists None, d, []. cbn. unfold ret.
    rewrite <- (world_eta w Hp). auto.
  - cbn [forRange applyAll]. unfold bind, applyDirect.
    rewrite (ExecContext_cases q w Hp).
    destruct (drvExec drv q d) as [d1 [err'|]]; cbn [fst snd].
    + exists (Some err'), d1, [EvExec q].
      split; [reflexivity | split; [reflexivity | discriminate]].
    + match goal with
      | |- context [forRange _ qs ?w1] =>
          destruct (IH w1 d1 eq_refl) as (r & d' & evs & Hrun & Hev & Hres)
      end.
      exists r, d', ([EvExec q] ++ evs)%list.
      rewrite Hrun. cbn [committed journal].
      rewrite <- app_assoc.
      split; [reflexivity | split; [exact Hev | exact Hres]].
Qed.

(** *** [executePreparedStatementsWithMap] as a whole *)

Lemma begun_steps (w : World DB) :
  setPending (Some (committed w))
    (record EvBeginTx (record EvConnection (record EvLock w))) = begun w.
Proof.
  unfold begun, setPending, record. cbn. rewrite <- !app_assoc. reflexivity.
Qed.

Lemma executePreparedStatementsWithMap_no_connection
  (statements : list string) (queryMap : list (string * string))
  (w : World DB) (err : error) :
  drvConnection drv (committed w) = Some err ->
  executePreparedStatementsWithMap ParseArbitraryStringSlice QueryHelper drv
    statements queryMap w =
  (Returned (Some err),
   mkWorld (committed w) (pending w)
     (journal w ++ [EvLock; EvConnection; EvUnlock])%list).
Proof.
  intros Hc.
  unfold executePreparedStatementsWithMap, bind, defer, Lock, getConnection.
  cbn. rewrite Hc. unfold ret, Unlock, record. cbn.
  rewrite <- !app_assoc. reflexivity.
Qed.

Lemma executePreparedStatementsWithMap_no_transaction
  (statements : list string) (queryMap : list (string * string))
  (w : World DB) (err : error) :
  drvConnection drv (committed w) = None ->
  drvBeginTx drv (committed w) = Some err ->
  executePreparedStatementsWithMap ParseArbitraryStringSlice QueryHelper drv
    statements queryMap w =
  (Returned (Some err),
   mkWorld (committed w) (pending w)
     (journal w ++ [EvLock; EvConnection; EvBeginTx; EvUnlock])%list).
Proof.
  intros Hc Hb.
  unfold executePreparedStatementsWithMap, bind, defer, Lock, getConnection,
    BeginTx.
  cbn. rewrite Hc. cbn. rewrite Hb. unfold ret, Unlock, record. cbn.
  rewrite <- !app_assoc. reflexivity.
Qed.

Lemma executePreparedStatementsWithMap_begun
  (statements : list string) (queryMap : list (string * string)) (w : World DB) :
  drvConnection drv (committed w) = None ->
  drvBeginTx drv (committed w) = None ->
  executePreparedStatementsWithMap ParseArbitraryStringSlice QueryHelper drv
    statements queryMap w =
  match
    forRange (sendQuery drv)
      (rendered ParseArbitraryStringSlice QueryHelper statements queryMap)
      (begun w)
  with
  | (Returned None, w1) =>
      let (r, w2) := Commit drv w1 in (r, Unlock (Rollback w2))
  | (r, w1) => (r, Unlock (Rollback w1))
  end.
Proof.
  intros Hc Hb.
  unfold executePreparedStatementsWithMap, bind, defer, Lock, getConnection,
    BeginTx.
  cbn. rewrite Hc. cbn. rewrite Hb.
  rewrite begun_steps, executeQuery_loops.
  destruct (forRange _ _ (begun w)) as [[[err|]|] w1]; try reflexivity.
  destruct (Commit drv w1) as [r w2]. reflexivity.
Qed.

Lemma executePreparedStatementsWithMap_outcome
  (statements : list string) (queryMap : list (string * string)) (w : World DB) :
  drvConnection drv (committed w) = None ->
  drvBeginTx drv (committed w) = None ->
  exists r d' evs tail,
    executePreparedStatementsWithMap ParseArbitraryStringSlice QueryHelper drv
      statements queryMap w =
      (r, mkWorld d' None
            (journal w ++ [EvLock; EvConnection; EvBeginTx] ++ evs ++ tail)%list)
    /\ forallb statementEvent evs = true
    /\ match
         applyAll (applyPrepared drv)
           (rendered ParseArbitraryStringSlice QueryHelper statements queryMap)
           (committed w)
       with
       | Some d1 =>
           tail = [EvCommit; EvRollback; EvUnlock]
           /\ match drvCommit drv d1 with
              | None => r = Returned None /\ d' = d1
              | Some err => r = Returned (Some err) /\ d' = committed w
              end
       | None =>
           tail = [EvRollback; EvUnlock]
           /\ r <> Returned None /\ d' = committed w
       end.
Proof.
  intros Hc Hb.
  rewrite (executePreparedStatementsWithMap_begun statements queryMap w Hc Hb).
  destruct (sendQuery_loop
              (rendered ParseArbitraryStringSlice QueryHelper statements queryMap)
              (begun w) eq_refl)
    as (r & d' & evs & Hrun & Hev & Hres).
  rewrite Hrun. cbn [begun committed journal] in *.
  destruct (applyAll _ _ (committed w)) as [d1|].
  - destruct Hres as [-> ->].
    unfold Commit, Unlock, Rollback, record, setPending. cbn.
    destruct (drvCommit drv d1) as [err|]; cbn.
    + exists (Returned (Some err)), (committed w), evs,
        [EvCommit; EvRollback; EvUnlock].
      rewrite <- !app_assoc. cbn. auto.
    + exists (Returned None), d1, evs, [EvCommit; EvRollback; EvUnlock].
      rewrite <- !app_assoc. cbn. auto.
  - exists r, (committed w), evs, [EvRollback; EvUnlock].
    split; [|auto].
    unfold Unlock, Rollback, record, setPending.
    destruct r as [[err|]|]; [| congruence |]; cbn;
      rewrite <- !app_assoc; reflexivity.
Qed.

(** A query that fails leaves the sequence unapplied. *)
Lemma firstFailure_applyAll (qs : list string) :
  forall (d : DB) (k : nat) (err : error),
    firstFailure drv qs d = Some (k, err) ->
    applyAll (applyPrepared drv) qs d = None.
Proof.
  induction qs as [|q qs IH]; intros d k err Hfail; [discriminate|].
  cbn [firstFailure applyAll] in *. unfold applyPrepared.
  destruct (drvPrepare drv q d) as [e|].
  - destruct (notPreparable e); [|reflexivity].
    destruct (drvExec drv q d) as [d1 [err'|]]; [reflexivity|].
    destruct (firstFailure drv qs d1) as [[k' e']|] eqn:Hrest; [|discriminate].
    exact (IH d1 k' e' Hrest).
  - destruct (drvStmtExec drv q d) as [d1 [err'|]]; [reflexivity|].
    destruct (firstFailure drv qs d1) as [[k' e']|] eqn:Hrest; [|discriminate].
    exact (IH d1 k' e' Hrest).
Qed.

(** Each query that is sent is prepared once, and the calls are calls on
    statements. *)
Lemma preparedQueries_callsOf (qs : list string) :
  forall d : DB, preparedQueries (callsOf drv qs d) = qs.
Proof.
  induction qs as [|q qs IH]; intros d; [reflexivity|].
  cbn [callsOf]. unfold queryCalls.
  destruct (drvPrepare drv q d) as [e|]; [destruct (notPreparable e)|];
    cbn; rewrite IH; reflexivity.
Qed.

Lemma statementEvent_callsOf (qs : list string) :
  forall d : DB, forallb statementEvent (callsOf drv qs d) = true.
Proof.
  induction qs as [|q qs IH]; intros d; [reflexivity|].
  cbn [callsOf]. unfold queryCalls.
  destruct (drvPrepare drv q d) as [e|]; [destruct (notPreparable e)|];
    cbn; apply IH.
Qed.

(** The calls of a run of [executePreparedStatementsWithMap] that began
    its transaction, with its result. *)
Lemma executePreparedStatementsWithMap_calls
  (statements : list string) (queryMap : list (string * string)) (w : World DB) :
  drvConnection drv (committed w) = None ->
  drvBeginTx drv (committed w) = None ->
  let queries :=
    rendered ParseArbitraryStringSlice QueryHelper statements queryMap in
  exists r d' tail,
    executePreparedStatementsWithMap ParseArbitraryStringSlice QueryHelper drv
      statements queryMap w =
      (r, mkWorld d' None
            (journal w ++ [EvLock; EvConnection; EvBeginTx]
             ++ callsOf drv
                  (firstn (attempted drv queries (committed w)) queries)
                  (committed w)
             ++ tail)%list)
    /\ match applyAll (applyPrepared drv) queries (committed w) with
       | Some d1 =>
           tail = [EvCommit; EvRollback; EvUnlock]
           /\ match drvCommit drv d1 with
              | None => r = Returned None /\ d' = d1
              | Some err => r = Returned (Some err) /\ d' = committed w
              end
       | None =>
           tail = [EvRollback; EvUnlock]
           /\ r <> Returned None /\ d' = committed w
       end
    /\ forall k err,
         firstFailure drv queries (committed w) = Some (k, err) ->
         r = Returned (Some err).
Proof.
  intros Hc Hb queries. subst queries.
  rewrite (executePreparedStatementsWithMap_begun statements queryMap w Hc Hb).
  destruct (sendQuery_loop_calls
              (rendered ParseArbitraryStringSlice QueryHelper statements queryMap)
              (begun w) eq_refl)
    as (r & d' & Hrun & Hres).
  assert (Hfailure :
    forall k err,
      firstFailure drv
        (rendered ParseArbitraryStringSlice QueryHelper statements queryMap)
        (committed w) = Some (k, err) ->
      r = Returned (Some err)).
  { intros k err Hfail.
    destruct (sendQuery_loop_failure _ (begun w) eq_refl Hfail)
      as (d2 & evs & Hrun2 & _).
    rewrite Hrun2 in Hrun. congruence. }
  rewrite Hrun. cbn [begun committed journal] in *.
  destruct (applyAll _ _ (committed w)) as [d1|].
  - destruct Hres as [-> ->].
    unfold Commit, Unlock, Rollback, record, setPending. cbn.
    destruct (drvCommit drv d1) as [err|]; cbn.
    + exists (Returned (Some err)), (committed w),
        [EvCommit; EvRollback; EvUnlock].
      rewrite <- !app_assoc. cbn.
      split; [reflexivity | split; [auto|]].
      intros k0 e0 Hf. specialize (Hfailure k0 e0 Hf). congruence.
    + exists (Returned None), d1, [EvCommit; EvRollback; EvUnlock].
      rewrite <- !app_assoc. cbn.
      split; [reflexivity | split; [auto|]].
      intros k0 e0 Hf. specialize (Hfailure k0 e0 Hf). congruence.
  - exists r, (committed w), [EvRollback; EvUnlock].
    split; [|split; [auto | exact Hfailure]].
    unfold Unlock, Rollback, record, setPending.
    destruct r as [[err|]|]; [| congruence |]; cbn;
      rewrite <- !app_assoc; reflexivity.
Qed.

(** *** [DeleteUser] as a whole *)

Lemma DeleteUser_no_connection (req : DeleteUserRequest) (w : World DB)
  (err : error) :
  drvConnection drv (committed w) = Some err ->
  DeleteUser ParseArbitraryStringSlice drv req w =
  (Returned (mkDeleteUserResponse, Some err),
   mkWorld (committed w) (pending w)
     (journal w ++ [EvLock; EvConnection; EvUnlock])%list).
Proof.
  intros Hc.
  unfold DeleteUser, bind, defer, Lock, getConnection.
  cbn. rewrite Hc. unfold ret, Unlock, record. cbn.
  rewrite <- !app_assoc. reflexivity.
Qed.

Lemma DeleteUser_no_transaction (req : DeleteUserRequest) (w : World DB)
  (err : error) :
  drvConnection drv (committed w) = None ->
  drvBeginTx drv (committed w) = Some err ->
  DeleteUser ParseArbitraryStringSlice drv req w =
  (Returned (mkDeleteUserResponse, Some err),
   mkWorld (committed w) (pending w)
     (journal w ++ [EvLock; EvConnection; EvBeginTx; EvUnlock])%list).
Proof.
  intros Hc Hb.
  unfold DeleteUser, bind, defer, Lock, getConnection, BeginTx.
  cbn. rewrite Hc. cbn. rewrite Hb. unfold ret, Unlock, record. cbn.
  rewrite <- !app_assoc. reflexivity.
Qed.

Lemma DeleteUser_outcome (req : DeleteUserRequest) (w : World DB) :
  drvConnection drv (committed w) = None ->
  drvBeginTx drv (committed w) = None ->
  exists err d' evs tail,
    DeleteUser ParseArbitraryStringSlice drv req w =
      (Returned (mkDeleteUserResponse, err),
       mkWorld d' None
         (journal w ++ [EvLock; EvConnection; EvBeginTx] ++ evs ++ tail)%list)
    /\ forallb statementEvent evs = true
    /\ match
         applyAll (applyDirect drv)
           (revocationQueries ParseArbitraryStringSlice req) (committed w)
       with
       | Some d1 =>
           tail = [EvCommit; EvRollback; EvUnlock]
           /\ err = drvCommit drv d1
           /\ d' = match drvCommit drv d1 with
                   | None => d1
                   | Some _ => committed w
                   end
       | None =>
           tail = [EvRollback; EvUnlock] /\ err <> None /\ d' = committed w
       end.
Proof.
  intros Hc Hb.
  unfold DeleteUser, bind, defer, Lock, getConnection, BeginTx.
  cbn. rewrite Hc. cbn. rewrite Hb.
  rewrite begun_steps.
  change (if (Datatypes.length (Commands (DeleteUser_Statements req)) =? 0)%nat
          then [defaultMysqlRevocationStmts]
          else Commands (DeleteUser_Statements req))
    with (revocationStatements req).
  rewrite revokeQuery_loops.
  destruct (ExecContext_loop (revocationQueries ParseArbitraryStringSlice req)
              (begun w) eq_refl)
    as (r & d' & evs & Hrun & Hev & Hres).
  rewrite Hrun. cbn [begun committed journal] in *.
  destruct (applyAll _ _ (committed w)) as [d1|].
  - destruct Hres as [-> ->].
    unfold Commit, Unlock, Rollback, record, setPending, ret. cbn.
    destruct (drvCommit drv d1) as [err|]; cbn.
    + exists (Some err), (committed w), evs, [EvCommit; EvRollback; EvUnlock].
      rewrite <- !app_assoc. cbn. auto.
    + exists None, d1, evs, [EvCommit; EvRollback; EvUnlock].
      rewrite <- !app_assoc. cbn. auto.
  - destruct r as [err|]; [|congruence].
    exists (Some err), (committed w), evs, [EvRollback; EvUnlock].
    split; [|split; [exact Hev | split; [reflexivity | split; [discriminate | reflexivity]]]].
    unfold Unlock, Rollback, record, setPending, ret. cbn.
    rewrite <- !app_assoc. reflexivity.
Qed.

Lemma DeleteUser_begun (req : DeleteUserRequest) (w : World DB) :
  drvConnection drv (committed w) = None ->
  drvBeginTx drv (committed w) = None ->
  DeleteUser ParseArbitraryStringSlice drv req w =
  match
    forRange (ExecContext drv)
      (revocationQueries ParseArbitraryStringSlice req) (begun w)
  with
  | (Returned None, w1) =>
      match Commit drv w1 with
      | (Returned err, w2) =>
          (Returned (mkDeleteUserResponse, err), Unlock (Rollback w2))
      | (Panicked, w2) => (Panicked, Unlock (Rollback w2))
      end
  | (Returned (Some err), w1) =>
      (Returned (mkDeleteUserResponse, Some err), Unlock (Rollback w1))
  | (Panicked, w1) => (Panicked, Unlock (Rollback w1))
  end.
Proof.
  intros Hc Hb.
  unfold DeleteUser, bind, defer, Lock, getConnection, BeginTx.
  cbn. rewrite Hc. cbn. rewrite Hb.
  rewrite begun_steps.
  change (if (Datatypes.length (Commands (DeleteUser_Statements req)) =? 0)%nat
          then [defaultMysqlRevocationStmts]
          else Commands (DeleteUser_Statements req))
    with (revocationStatements req).
  rewrite revokeQuery_loops.
  destruct (forRange _ _ (begun w)) as [[[err|]|] w1]; try reflexivity.
  destruct (Commit drv w1) as [[err|] w2]; reflexivity.
Qed.

(** [NewUser] past its checks is [executePreparedStatementsWithMap]. *)
Lemma NewUser_runs
  (GenerateUsername : list UsernameOpt -> string -> string * option error)
  (legacy : bool) (req : NewUserRequest) (uniq username : string)
  (w : World DB) :
  Commands (NewUser_Statements req) <> [] ->
  generateUsername GenerateUsername legacy req uniq = (username, None) ->
  NewUser ParseArbitraryStringSlice QueryHelper GenerateUsername drv legacy
    req uniq w =
  match
    executePreparedStatementsWithMap ParseArbitraryStringSlice QueryHelper drv
      (Commands (NewUser_Statements req)) (newUserQueryMap username req) w
  with
  | (Returned (Some err), w') =>
      (Returned (mkNewUserResponse EmptyString, Some err), w')
  | (Returned None, w') => (Returned (mkNewUserResponse username, None), w')
  | (Panicked, w') => (Panicked, w')
  end.
Proof.
  intros Hsome Hgen. unfold NewUser. rewrite Hgen.
  destruct (Commands (NewUser_Statements req)) as [|c cs]; [congruence|].
  cbn [Datatypes.length Nat.eqb]. unfold bind, newUserQueryMap.
  destruct (executePreparedStatementsWithMap _ _ _ _ _ w) as [[[err|]|] w'];
    reflexivity.
Qed.

(** [UpdateUser] with a password change, past its checks, is
    [executePreparedStatementsWithMap]. *)
Lemma UpdateUser_runs (req : UpdateUserRequest) (pw : ChangePassword)
  (w : World DB) :
  UpdateUser_Password req = Some pw ->
  UpdateUser_Username req <> EmptyString ->
  NewPassword pw <> EmptyString ->
  UpdateUser ParseArbitraryStringSlice QueryHelper drv req w =
  match
    executePreparedStatementsWithMap ParseArbitraryStringSlice QueryHelper drv
      (rotationStatements pw)
      (passwordQueryMap (UpdateUser_Username req) (NewPassword pw)) w
  with
  | (Returned (Some err), w') =>
      (Returned (mkUpdateUserResponse,
                 Some (Wrapf "failed to change password: %w" err)), w')
  | (Returned None, w') => (Returned (mkUpdateUserResponse, None), w')
  | (Panicked, w') => (Panicked, w')
  end.
Proof.
  intros Hpw Husername Hpassword. unfold UpdateUser. rewrite Hpw.
  assert (Hrun :
    changeUserPassword ParseArbitraryStringSlice QueryHelper drv
      (UpdateUser_Username req) (NewPassword pw)
      (Commands (ChangePassword_Statements pw)) w =
    executePreparedStatementsWithMap ParseArbitraryStringSlice QueryHelper drv
      (rotationStatements pw)
      (passwordQueryMap (UpdateUser_Username req) (NewPassword pw)) w).
  { unfold changeUserPassword.
    apply String.eqb_neq in Husername, Hpassword.
    rewrite Husername, Hpassword. reflexivity. }
  destruct (UpdateUser_Expiration req); unfold bind; rewrite Hrun;
    destruct (executePreparedStatementsWithMap _ _ _ _ _ w) as [[[err|]|] w'];
    reflexivity.
Qed.

(** *** Atomicity *)

Lemma executePreparedStatementsWithMap_atomic
  (statements : list string) (queryMap : list (string * string)) (w : World DB) :
  pending w = None ->
  let res :=
    executePreparedStatementsWithMap ParseArbitraryStringSlice QueryHelper drv
      statements queryMap w in
  pending (snd res) = None
  /\ match fst res with
     | Returned None =>
         applyAll (applyPrepared drv)
           (rendered ParseArbitraryStringSlice QueryHelper statements queryMap)
           (committed w) = Some (committed (snd res))
     | _ => committed (snd res) = committed w
     end.
Proof.
  intros Hp.
  destruct (drvConnection drv (committed w)) as [err|] eqn:Hc.
  { rewrite (executePreparedStatementsWithMap_no_connection _ _ _ Hc). cbn. auto. }
  destruct (drvBeginTx drv (committed w)) as [err|] eqn:Hb.
  { rewrite (executePreparedStatementsWithMap_no_transaction _ _ _ Hc Hb). cbn. auto. }
  destruct (executePreparedStatementsWithMap_outcome statements queryMap w Hc Hb)
    as (r & d' & evs & tail & Hrun & _ & Hres).
  rewrite Hrun. cbn. split; [reflexivity|].
  destruct (applyAll _ _ (committed w)) as [d1|].
  - destruct Hres as [_ Hres].
    destruct (drvCommit drv d1) as [err|]; destruct Hres as [-> ->]; reflexivity.
  - destruct Hres as (_ & Hr & ->).
    destruct r as [[err|]|]; congruence.
Qed.

Lemma DeleteUser_atomic (req : DeleteUserRequest) (w : World DB) :
  pending w = None ->
  allOrNothing (applyDirect drv)
    (revocationQueries ParseArbitraryStringSlice req)
    (succeeded (fst (DeleteUser ParseArbitraryStringSlice drv req w)))
    w (snd (DeleteUser ParseArbitraryStringSlice drv req w)).
Proof.
  intros Hp. unfold allOrNothing.
  destruct (drvConnection drv (committed w)) as [err|] eqn:Hc.
  { rewrite (DeleteUser_no_connection _ _ Hc). cbn. auto. }
  destruct (drvBeginTx drv (committed w)) as [err|] eqn:Hb.
  { rewrite (DeleteUser_no_transaction _ _ Hc Hb). cbn. auto. }
  destruct (DeleteUser_outcome req w Hc Hb)
    as (err & d' & evs & tail & Hrun & _ & Hres).
  rewrite Hrun. cbn. split; [reflexivity|].
  destruct (applyAll _ _ (committed w)) as [d1|].
  - destruct Hres as (_ & -> & ->).
    destruct (drvCommit drv d1) as [e|]; reflexivity.
  - destruct Hres as (_ & Herr & ->).
    destruct err as [e|]; congruence.
Qed.

(** A run of [executePreparedStatementsWithMap] that began its
    transaction commits when every statement succeeds and rolls back. *)
Lemma executePreparedStatementsWithMap_commits
  (statements : list string) (queryMap : list (string * string)) (w : World DB) :
  drvConnection drv (committed w) = None ->
  drvBeginTx drv (committed w) = None ->
  let res :=
    executePreparedStatementsWithMap ParseArbitraryStringSlice QueryHelper drv
      statements queryMap w in
  commitsWhenAllSucceed drv (applyPrepared drv)
    (rendered ParseArbitraryStringSlice QueryHelper statements queryMap)
    match fst res with
    | Returned None => true
    | _ => false
    end
    w (snd res).
Proof.
  intros Hc Hb res. subst res. unfold commitsWhenAllSucceed, closesTransaction.
  destruct (executePreparedStatementsWithMap_outcome statements queryMap w Hc Hb)
    as (r & d' & evs & tail & Hrun & Hev & Hres).
  rewrite Hrun. cbn [fst snd journal committed pending].
  destruct (applyAll _ _ (committed w)) as [d1|].
  - destruct Hres as [-> Hres].
    destruct (drvCommit drv d1); destruct Hres as [-> ->];
      (split; [exists evs; auto | split; reflexivity]).
  - destruct Hres as (-> & Hr & ->).
    split; [exists evs; auto | split; [reflexivity|]].
    destruct r as [[err|]|]; congruence.
Qed.

Lemma DeleteUser_commits (req : DeleteUserRequest) (w : World DB) :
  drvConnection drv (committed w) = None ->
  drvBeginTx drv (committed w) = None ->
  let res := DeleteUser ParseArbitraryStringSlice drv req w in
  commitsWhenAllSucceed drv (applyDirect drv)
    (revocationQueries ParseArbitraryStringSlice req)
    (succeeded (fst res)) w (snd res).
Proof.
  intros Hc Hb res. subst res. unfold commitsWhenAllSucceed, closesTransaction.
  destruct (DeleteUser_outcome req w Hc Hb)
    as (err & d' & evs & tail & Hrun & Hev & Hres).
  rewrite Hrun. cbn [fst snd journal committed pending succeeded].
  destruct (applyAll _ _ (committed w)) as [d1|].
  - destruct Hres as (-> & -> & ->).
    split; [exists evs; auto | split; [reflexivity|]].
    destruct (drvCommit drv d1); reflexivity.
  - destruct Hres as (-> & Herr & ->).
    split; [exists evs; auto | split; [reflexivity|]].
    destruct err; congruence.
Qed.

(** C1.  Every lifecycle operation is all or nothing: after [NewUser],
    [UpdateUser] with a password change, and [DeleteUser], no transaction
    is open, and the committed state is the one with every rendered
    statement applied when the call succeeded and the state before the
    call in every other case (an error, or a panic).  And each of them,
    once it has begun its transaction, commits when every statement
    succeeds: in its journal the statement calls are followed by [Commit]
    exactly when every statement succeeded, and by the deferred
    [Rollback] on every path, before the lock is released and the call
    returns; the call returns a nil error exactly when every statement
    succeeded and the backend accepted the commit, and the committed state
    is then the new one. *)
Theorem lifecycle_all_or_nothing
  (GenerateUsername : list UsernameOpt -> string -> string * option error)
  (legacy : bool) (w : World DB) :
  pending w = None ->
  (forall req uniq,
      let res :=
        NewUser ParseArbitraryStringSlice QueryHelper GenerateUsername drv
          legacy req uniq w in
      allOrNothing (applyPrepared drv)
        (rendered ParseArbitraryStringSlice QueryHelper
           (Commands (NewUser_Statements req))
           (newUserQueryMap
              (fst (generateUsername GenerateUsername legacy req uniq)) req))
        (succeeded (fst res)) w (snd res))
  /\ (forall req pw,
        UpdateUser_Password req = Some pw ->
        let res :=
          UpdateUser ParseArbitraryStringSlice QueryHelper drv req w in
        allOrNothing (applyPrepared drv)
          (rendered ParseArbitraryStringSlice QueryHelper
             (rotationStatements pw)
             (passwordQueryMap (UpdateUser_Username req) (NewPassword pw)))
          (succeeded (fst res)) w (snd res))
  /\ (forall req,
        let res := DeleteUser ParseArbitraryStringSlice drv req w in
        allOrNothing (applyDirect drv)
          (revocationQueries ParseArbitraryStringSlice req)
          (succeeded (fst res)) w (snd res))
  /\ (drvConnection drv (committed w) = None ->
      drvBeginTx drv (committed w) = None ->
      (forall statements queryMap,
          let res :=
            executePreparedStatementsWithMap ParseArbitraryStringSlice
              QueryHelper drv statements queryMap w in
          commitsWhenAllSucceed drv (applyPrepared drv)
            (rendered ParseArbitraryStringSlice QueryHelper statements queryMap)
            match fst res with
            | Returned None => true
            | _ => false
            end
            w (snd res))
      /\ (forall req uniq username,
            Commands (NewUser_Statements req) <> [] ->
            generateUsername GenerateUsername legacy req uniq
              = (username, None) ->
            let res :=
              NewUser ParseArbitraryStringSlice QueryHelper GenerateUsername
                drv legacy req uniq w in
            commitsWhenAllSucceed drv (applyPrepared drv)
              (rendered ParseArbitraryStringSlice QueryHelper
                 (Commands (NewUser_Statements req))
                 (newUserQueryMap username req))
              (succeeded (fst res)) w (snd res))
      /\ (forall req pw,
            UpdateUser_Password req = Some pw ->
            UpdateUser_Username req <> EmptyString ->
            NewPassword pw <> EmptyString ->
            let res :=
              UpdateUser ParseArbitraryStringSlice QueryHelper drv req w in
            commitsWhenAllSucceed drv (applyPrepared drv)
              (rendered ParseArbitraryStringSlice QueryHelper
                 (rotationStatements pw)
                 (passwordQueryMap (UpdateUser_Username req) (NewPassword pw)))
              (succeeded (fst res)) w (snd res))
      /\ (forall req,
            let res := DeleteUser ParseArbitraryStringSlice drv req w in
            commitsWhenAllSucceed drv (applyDirect drv)
              (revocationQueries ParseArbitraryStringSlice req)
              (succeeded (fst res)) w (snd res))).
Proof.
  intros Hp. repeat apply conj.
  - intros req uniq. cbv zeta. unfold NewUser, allOrNothing.
    destruct (Datatypes.length (Commands (NewUser_Statements req)) =? 0)%nat;
      [cbn; auto|].
    destruct (generateUsername GenerateUsername legacy req uniq)
      as [username [err|]]; [cbn; auto|].
    unfold bind.
    pose proof (executePreparedStatementsWithMap_atomic
                  (Commands (NewUser_Statements req))
                  (newUserQueryMap username req) w Hp) as Hatomic.
    cbv zeta in Hatomic. unfold newUserQueryMap in *. cbn [fst].
    destruct (executePreparedStatementsWithMap _ _ _ _ _ w)
      as [[[err|]|] w']; cbn in *; exact Hatomic.
  - intros req pw Hpw. cbv zeta. unfold UpdateUser, allOrNothing.
    rewrite Hpw.
    assert (Hgo :
      forall res : Outcome (UpdateUserResponse * option error) * World DB,
        res =
          bind
            (changeUserPassword ParseArbitraryStringSlice QueryHelper drv
               (UpdateUser_Username req) (NewPassword pw)
               (Commands (ChangePassword_Statements pw)))
            (fun err =>
               match err with
               | Some err =>
                   ret (mkUpdateUserResponse,
                        Some (Wrapf "failed to change password: %w" err))
               | None => ret (mkUpdateUserResponse, None)
               end) w ->
        pending (snd res) = None
        /\ (if succeeded (fst res)
            then
              applyAll (applyPrepared drv)
                (rendered ParseArbitraryStringSlice QueryHelper
                   (rotationStatements pw)
                   (passwordQueryMap (UpdateUser_Username req) (NewPassword pw)))
                (committed w) = Some (committed (snd res))
            else committed (snd res) = committed w)).
    { intros res ->. unfold bind, changeUserPassword.
      destruct ((UpdateUser_Username req =? EmptyString)
                || (NewPassword pw =? EmptyString))%bool;
        [cbn; auto|].
      pose proof (executePreparedStatementsWithMap_atomic
                    (rotationStatements pw)
                    (passwordQueryMap (UpdateUser_Username req) (NewPassword pw))
                    w Hp) as Hatomic.
      cbv zeta in Hatomic. unfold rotationStatements, passwordQueryMap in *.
      destruct (executePreparedStatementsWithMap _ _ _ _ _ w)
        as [[[err|]|] w']; cbn in *; exact Hatomic. }
    destruct (UpdateUser_Expiration req); apply Hgo; reflexivity.
  - intros req. apply DeleteUser_atomic, Hp.
  - intros Hc Hb. repeat apply conj.
    + intros statements queryMap.
      exact (executePreparedStatementsWithMap_commits statements queryMap w Hc Hb).
    + intros req uniq username Hsome Hgen res. subst res.
      pose proof (executePreparedStatementsWithMap_commits
                    (Commands (NewUser_Statements req))
                    (newUserQueryMap username req) w Hc Hb) as Hcommits.
      cbv zeta in Hcommits.
      rewrite (NewUser_runs GenerateUsername legacy req uniq w Hsome Hgen).
      destruct (executePreparedStatementsWithMap _ _ _ _ _ w)
        as [[[err|]|] w']; exact Hcommits.
    + intros req pw Hpw Husername Hpassword res. subst res.
      pose proof (executePreparedStatementsWithMap_commits
                    (rotationStatements pw)
                    (passwordQueryMap (UpdateUser_Username req) (NewPassword pw))
                    w Hc Hb) as Hcommits.
      cbv zeta in Hcommits.
      rewrite (UpdateUser_runs req w Hpw Husername Hpassword).
      destruct (executePreparedStatementsWithMap _ _ _ _ _ w)
        as [[[err|]|] w']; exact Hcommits.
    + intros req. exact (DeleteUser_commits req w Hc Hb).
Qed.

(** *** One statement of the sequence *)

(** The queries before the one of interest, all applied. *)
Lemma sendQuery_loop_prefix (pre rest : list string) (w : World DB) (d d1 : DB) :
  pending w = Some d ->
  applyAll (applyPrepared drv) pre d = Some d1 ->
  exists evs1,
    forallb statementEvent evs1 = true
    /\ forRange (sendQuery drv) (pre ++ rest)%list w =
       forRange (sendQuery drv) rest
         (mkWorld (committed w) (Some d1) (journal w ++ evs1)%list).
Proof.
  intros Hp Hpre.
  destruct (sendQuery_loop pre w Hp) as (r & d' & evs & Hrun & Hev & Hres).
  rewrite Hpre in Hres. destruct Hres as [-> ->].
  exists evs. split; [exact Hev|].
  rewrite forRange_app, Hrun. reflexivity.
Qed.

(** C2.  A statement that prepare refuses with MySQL error 1295 is
    executed directly, unprepared: the calls made for it are the refused
    prepare and one [ExecContext] of the same query.  When that execution
    succeeds the loop goes on with the statements after it, and when these
    succeed and the commit does, the operation returns no error and the
    whole sequence is committed.  A statement that prepare refuses with any
    other error ends the operation: that error is returned, no later
    statement is attempted and the transaction is rolled back. *)
Theorem not_preparable_fallback
  (statements : list string) (queryMap : list (string * string))
  (w : World DB) (pre post : list string) (q : string) (d1 : DB) (err : error) :
  drvConnection drv (committed w) = None ->
  drvBeginTx drv (committed w) = None ->
  rendered ParseArbitraryStringSlice QueryHelper statements queryMap
    = (pre ++ q :: post)%list ->
  applyAll (applyPrepared drv) pre (committed w) = Some d1 ->
  drvPrepare drv q d1 = Some err ->
  let res :=
    executePreparedStatementsWithMap ParseArbitraryStringSlice QueryHelper drv
      statements queryMap w in
  (notPreparable err = true ->
   forall d2,
     drvExec drv q d1 = (d2, None) ->
     (exists evs1 evs2 tail,
         forallb statementEvent evs1 = true
         /\ forallb statementEvent evs2 = true
         /\ journal (snd res) =
            (journal w ++ [EvLock; EvConnection; EvBeginTx] ++ evs1
             ++ [EvPrepare q; EvExec q] ++ evs2 ++ tail)%list
         /\ (tail = [EvCommit; EvRollback; EvUnlock]
             \/ tail = [EvRollback; EvUnlock]))
     /\ (forall d3,
           applyAll (applyPrepared drv) post d2 = Some d3 ->
           drvCommit drv d3 = None ->
           fst res = Returned None
           /\ committed (snd res) = d3
           /\ pending (snd res) = None))
  /\ (notPreparable err = false ->
      exists evs1,
        forallb statementEvent evs1 = true
        /\ res =
           (Returned (Some err),
            mkWorld (committed w) None
              (journal w ++ [EvLock; EvConnection; EvBeginTx] ++ evs1
               ++ [EvPrepare q; EvRollback; EvUnlock])%list)).
Proof.
  intros Hc Hb Hqs Hpre Hprep res. subst res.
  rewrite (executePreparedStatementsWithMap_begun statements queryMap w Hc Hb).
  rewrite Hqs.
  destruct (sendQuery_loop_prefix pre (q :: post) (begun w) eq_refl Hpre)
    as (evs1 & Hev1 & Hrun1).
  rewrite Hrun1. cbn [forRange begun committed journal]. unfold bind.
  match goal with
  | |- context [sendQuery drv q ?w1] =>
      rewrite (sendQuery_cases q w1 (d:=d1) eq_refl), Hprep
  end.
  cbn [committed journal].
  split.
  - intros Hnp d2 Hexec. rewrite Hnp, Hexec. cbn [fst snd].
    match goal with
    | |- context [forRange (sendQuery drv) post ?w2] =>
        destruct (sendQuery_loop post w2 eq_refl)
          as (r & d' & evs2 & Hrun2 & Hev2 & Hres)
    end.
    rewrite Hrun2. cbn [committed journal]. split.
    + exists evs1, evs2.
      destruct r as [[e|]|].
      * exists [EvRollback; EvUnlock]. cbn.
        rewrite <- !app_assoc. cbn. auto.
      * exists [EvCommit; EvRollback; EvUnlock].
        unfold Commit. cbn. destruct (drvCommit drv d'); cbn;
          rewrite <- !app_assoc; cbn; auto.
      * exists [EvRollback; EvUnlock]. cbn.
        rewrite <- !app_assoc. cbn. auto.
    + intros d3 Hpost Hcommit. rewrite Hpost in Hres.
      destruct Hres as [-> ->].
      unfold Commit. cbn. rewrite Hcommit. cbn. auto.
  - intros Hnp. rewrite Hnp. exists evs1. split; [exact Hev1|].
    unfold ret, Unlock, Rollback, record, setPending. cbn.
    rewrite <- !app_assoc. reflexivity.
Qed.

Lemma executePreparedStatementsWithMap_failure
  (statements : list string) (queryMap : list (string * string))
  (w : World DB) (k : nat) (err : error) :
  drvConnection drv (committed w) = None ->
  drvBeginTx drv (committed w) = None ->
  firstFailure drv
    (rendered ParseArbitraryStringSlice QueryHelper statements queryMap)
    (committed w) = Some (k, err) ->
  exists evs,
    forallb statementEvent evs = true
    /\ executePreparedStatementsWithMap ParseArbitraryStringSlice QueryHelper
         drv statements queryMap w =
       (Returned (Some err),
        mkWorld (committed w) None
          (journal w ++ [EvLock; EvConnection; EvBeginTx] ++ evs
           ++ [EvRollback; EvUnlock])%list).
Proof.
  intros Hc Hb Hfail.
  rewrite (executePreparedStatementsWithMap_begun statements queryMap w Hc Hb).
  destruct (sendQuery_loop_failure _ (begun w) eq_refl Hfail)
    as (d' & evs & Hrun & Hev).
  rewrite Hrun. exists evs. split; [exact Hev|].
  unfold Unlock, Rollback, record, setPending, begun. cbn.
  rewrite <- !app_assoc. reflexivity.
Qed.

(** C5, as the code has it.  When statement number [k] is the first to
    fail for a reason of its own (prepare refuses it with an error other
    than 1295, or its prepared execution fails), the operation stops
    there: the statements sent to the backend are the statements 0 to
    [k], each prepared once, and none after them; the transaction is
    rolled back, nothing is committed, and the backend's error for
    statement [k] comes back with no index attached: as it is from
    [executePreparedStatementsWithMap] and from [NewUser], wrapped in
    "failed to change password" from [UpdateUser]. *)
Theorem failing_statement_error_is_returned (w : World DB) :
  drvConnection drv (committed w) = None ->
  drvBeginTx drv (committed w) = None ->
  let aborted (queries : list string) (k : nat) : World DB :=
    mkWorld (committed w) None
      (journal w ++ [EvLock; EvConnection; EvBeginTx]
       ++ callsOf drv (firstn (S k) queries) (committed w)
       ++ [EvRollback; EvUnlock])%list in
  (forall queries k,
      preparedQueries (journal (aborted queries k))
      = (preparedQueries (journal w) ++ firstn (S k) queries)%list)
  /\ (forall statements queryMap k err,
        let queries :=
          rendered ParseArbitraryStringSlice QueryHelper statements queryMap in
        firstFailure drv queries (committed w) = Some (k, err) ->
        executePreparedStatementsWithMap ParseArbitraryStringSlice
          QueryHelper drv statements queryMap w =
        (Returned (Some err), aborted queries k))
  /\ (forall GenerateUsername legacy req uniq username k err,
        let queries :=
          rendered ParseArbitraryStringSlice QueryHelper
            (Commands (NewUser_Statements req))
            (newUserQueryMap username req) in
        Commands (NewUser_Statements req) <> [] ->
        generateUsername GenerateUsername legacy req uniq = (username, None) ->
        firstFailure drv queries (committed w) = Some (k, err) ->
        NewUser ParseArbitraryStringSlice QueryHelper GenerateUsername drv
          legacy req uniq w =
        (Returned (mkNewUserResponse EmptyString, Some err), aborted queries k))
  /\ (forall req pw k err,
        let queries :=
          rendered ParseArbitraryStringSlice QueryHelper
            (rotationStatements pw)
            (passwordQueryMap (UpdateUser_Username req) (NewPassword pw)) in
        UpdateUser_Password req = Some pw ->
        UpdateUser_Username req <> EmptyString ->
        NewPassword pw <> EmptyString ->
        firstFailure drv queries (committed w) = Some (k, err) ->
        UpdateUser ParseArbitraryStringSlice QueryHelper drv req w =
        (Returned (mkUpdateUserResponse,
                   Some (Wrapf "failed to change password: %w" err)),
         aborted queries k)).
Proof.
  intros Hc Hb aborted.
  assert (Hrun :
    forall statements queryMap k err,
      firstFailure drv
        (rendered ParseArbitraryStringSlice QueryHelper statements queryMap)
        (committed w) = Some (k, err) ->
      executePreparedStatementsWithMap ParseArbitraryStringSlice QueryHelper
        drv statements queryMap w =
      (Returned (Some err),
       aborted
         (rendered ParseArbitraryStringSlice QueryHelper statements queryMap)
         k)).
  { intros statements queryMap k err Hfail.
    destruct (executePreparedStatementsWithMap_calls statements queryMap w Hc Hb)
      as (r & d' & tail & Hrun & Hres & Hr).
    rewrite Hrun, (attempted_failure _ _ Hfail), (Hr k err Hfail).
    rewrite (firstFailure_applyAll _ _ Hfail) in Hres.
    destruct Hres as (-> & _ & ->). reflexivity. }
  split; [|split; [|split]].
  - intros queries k. unfold aborted. cbn [journal].
    rewrite !preparedQueries_app, preparedQueries_callsOf. cbn.
    rewrite app_nil_r.
    reflexivity.
  - intros statements queryMap k err queries. exact (Hrun _ _ k err).
  - intros GenerateUsername legacy req uniq username k err queries
      Hsome Hgen Hfail.
    rewrite (NewUser_runs GenerateUsername legacy req uniq w Hsome Hgen).
    rewrite (Hrun _ _ k err Hfail). reflexivity.
  - intros req pw k err queries Hpw Husername Hpassword Hfail.
    rewrite (UpdateUser_runs req w Hpw Husername Hpassword).
    rewrite (Hrun _ _ k err Hfail). reflexivity.
Qed.

End Engine.

(* ===================================================================== *)
(** ** Facts about [strings] *)
(* ===================================================================== *)

Section Strings.
Import strings.

Lemma length_append (s1 s2 : string) :
  String.length (s1 ++ s2) = String.length s1 + String.length s2.
Proof.
  induction s1 as [|c s1 IH]; cbn; [reflexivity | now rewrite IH].
Qed.

Lemma append_assoc (s1 s2 s3 : string) : (s1 ++ s2) ++ s3 = s1 ++ s2 ++ s3.
Proof.
  induction s1 as [|c s1 IH]; cbn; [reflexivity | now rewrite IH].
Qed.






End Strings.

(* ===================================================================== *)
(** ** Validation *)
(* ===================================================================== *)

Section Validation.
Variable ParseArbitraryStringSlice : string -> string -> list string.
Variable QueryHelper : string -> list (string * string) -> string.
Variable GenerateUsername : list UsernameOpt -> string -> string * option error.
Variable DB : Type.
Variable drv : Driver DB.

(** C4, as the code has it.  [NewUser] with an empty list of statements
    returns [dbutil.ErrEmptyCreationStatement] at once: whatever the
    username generator and the backend would do, no username is generated
    and the world is untouched (no lock, no connection, no transaction). *)
Theorem new_user_without_statements_rejected
  (legacy : bool) (req : NewUserRequest) (uniq : string) (w : World DB) :
  Commands (NewUser_Statements req) = [] ->
  NewUser ParseArbitraryStringSlice QueryHelper GenerateUsername drv legacy
    req uniq w =
  (Returned (mkNewUserResponse EmptyString, Some ErrEmptyCreationStatement), w).
Proof.
  intros Hempty. unfold NewUser. rewrite Hempty. reflexivity.
Qed.

(** C7.  [UpdateUser] with neither a password change nor an expiration
    change returns the error "no change requested" and leaves the world
    untouched: no lock is taken, no connection obtained, no transaction
    opened. *)
Theorem update_user_without_change_rejected (req : UpdateUserRequest)
  (w : World DB) :
  UpdateUser_Password req = None ->
  UpdateUser_Expiration req = None ->
  UpdateUser ParseArbitraryStringSlice QueryHelper drv req w =
  (Returned (mkUpdateUserResponse, Some (ErrorString "no change requested")), w).
Proof.
  intros Hpassword Hexpiration. unfold UpdateUser.
  rewrite Hpassword, Hexpiration. reflexivity.
Qed.

(** C8.  [UpdateUser] with an expiration change and no password change
    returns no error and leaves the world untouched: no statement is sent
    to the backend, and nothing else is either. *)
Theorem update_user_expiration_only (req : UpdateUserRequest)
  (expiration : ChangeExpiration) (w : World DB) :
  UpdateUser_Password req = None ->
  UpdateUser_Expiration req = Some expiration ->
  UpdateUser ParseArbitraryStringSlice QueryHelper drv req w =
  (Returned (mkUpdateUserResponse, None), w).
Proof.
  intros Hpassword Hexpiration. unfold UpdateUser.
  rewrite Hpassword, Hexpiration. reflexivity.
Qed.

(** C3 fails on the code.  When prepare refuses a statement with error
    1295 and the direct execution of it fails too, the error path calls
    [Close] on the statement handle that the refused prepare left nil: the
    call panics instead of returning the error, on every backend and at
    every position of the sequence. *)
Theorem fallback_failure_panics
  (statements : list string) (queryMap : list (string * string))
  (w : World DB) (pre post : list string) (q : string) (d1 d2 : DB)
  (err err' : error) :
  drvConnection drv (committed w) = None ->
  drvBeginTx drv (committed w) = None ->
  rendered ParseArbitraryStringSlice QueryHelper statements queryMap
    = (pre ++ q :: post)%list ->
  applyAll (applyPrepared drv) pre (committed w) = Some d1 ->
  drvPrepare drv q d1 = Some err ->
  notPreparable err = true ->
  drvExec drv q d1 = (d2, Some err') ->
  fst (executePreparedStatementsWithMap ParseArbitraryStringSlice QueryHelper
         drv statements queryMap w) = Panicked.
Proof.
  intros Hc Hb Hqs Hpre Hprep Hnp Hexec.
  rewrite executePreparedStatementsWithMap_begun by assumption.
  rewrite Hqs.
  destruct (@sendQuery_loop_prefix DB drv pre (q :: post) (begun w)
              (committed w) d1 eq_refl Hpre)
    as (evs1 & _ & Hrun1).
  rewrite Hrun1. cbn [forRange]. unfold bind.
  match goal with
  | |- context [sendQuery drv q ?w1] =>
      rewrite (@sendQuery_cases DB drv q w1 d1 eq_refl), Hprep, Hnp, Hexec
  end.
  reflexivity.
Qed.

End Validation.

(* ===================================================================== *)
(** ** Username generation *)
(* ===================================================================== *)




(* ===================================================================== *)
(** ** Rendering *)
(* ===================================================================== *)

Lemma split_from_cons (sep : string) (skip : nat) (s : string) :
  exists fragment rest, strutil.split_from sep skip s = fragment :: rest.
Proof.
  revert skip. induction s as [|c s IH]; intros skip; cbn.
  - eauto.
  - destruct skip as [|k]; [|apply IH].
    destruct (strings.HasPrefix (String c s) sep); [eauto|].
    destruct (IH 0) as (fragment & rest & ->). eauto.
Qed.

Lemma concat_String (sep : string) (c : ascii) (fragment : string)
  (rest : list string) :
  String.concat sep (String c fragment :: rest) =
  String c (String.concat sep (fragment :: rest)).
Proof. destruct rest; reflexivity. Qed.

(** The fragments of a template are its pieces between the semicolons. *)
Lemma split_semicolon (s : string) :
  String.concat ";" (strutil.ParseArbitraryStringSlice s ";") = s
  /\ Forall (fun fragment => strings.Contains fragment ";" = false)
       (strutil.ParseArbitraryStringSlice s ";").
Proof.
  unfold strutil.ParseArbitraryStringSlice.
  induction s as [|c s [IHc IHf]]; [cbn; auto|].
  cbn [strutil.split_from strings.HasPrefix String.length Nat.sub].
  rewrite andb_true_r.
  destruct (Ascii.eqb_spec c ";"%char) as [->|Hc].
  - destruct (split_from_cons ";" 0 s) as (fragment & rest & Hs).
    rewrite Hs in *. split.
    + change (String.concat ";" (EmptyString :: fragment :: rest))
        with (EmptyString ++ ";" ++ String.concat ";" (fragment :: rest)).
      rewrite IHc. reflexivity.
    + constructor; [reflexivity | exact IHf].
  - destruct (split_from_cons ";" 0 s) as (fragment & rest & Hs).
    rewrite Hs in *. split.
    + rewrite concat_String, IHc. reflexivity.
    + inversion IHf as [|? ? Hfragment Hrest]; subst.
      constructor; [|exact Hrest].
      cbn [strings.Contains strings.HasPrefix].
      apply Ascii.eqb_neq in Hc. rewrite Hc, Hfragment. reflexivity.
Qed.

Lemma renderFragment_filter (queryMap : list (string * string))
  (fragments : list string) :
  flat_map (renderFragment dbutil.QueryHelper queryMap) fragments =
  map (fun statement => dbutil.QueryHelper statement queryMap)
    (filter (fun fragment => negb (String.length fragment =? 0)%nat)
       (map strings.TrimSpace fragments)).
Proof.
  induction fragments as [|fragment fragments IH]; [reflexivity|].
  cbn [flat_map map filter]. rewrite IH. unfold renderFragment.
  destruct (String.length (strings.TrimSpace fragment) =? 0)%nat; reflexivity.
Qed.

(** *** Substitution *)

Lemma recognized_none (s : string) (data : list (string * string)) :
  (forall key value,
      In (key, value) data ->
      strings.HasPrefix s (dbutil.placeholder key) = false) ->
  dbutil.recognized s data = None.
Proof.
  induction data as [|[key value] data IH]; intros Hno; [reflexivity|].
  cbn [dbutil.recognized].
  rewrite (Hno key value) by (left; reflexivity).
  apply IH. intros k v Hin. apply (Hno k v). right. exact Hin.
Qed.

(** No placeholder token starts at a byte that is not an opening brace,
    nor at an opening brace that another byte follows. *)
Lemma recognized_not_brace (c : ascii) (s : string)
  (data : list (string * string)) :
  Ascii.eqb c "{" = false ->
  dbutil.recognized (String c s) data = None.
Proof.
  intros Hc. apply recognized_none. intros key value _.
  cbn. rewrite Hc. reflexivity.
Qed.

Lemma recognized_one_brace (c : ascii) (s : string)
  (data : list (string * string)) :
  Ascii.eqb c "{" = false ->
  dbutil.recognized (String "{" (String c s)) data = None.
Proof.
  intros Hc. apply recognized_none. intros key value _.
  cbn. rewrite Hc. reflexivity.
Qed.

(** A statement with no placeholder of the map comes out as it went in. *)
Lemma QueryHelper_verbatim (data : list (string * string)) :
  forall tpl,
    (forall key value,
        In (key, value) data ->
        strings.Contains tpl ("{{" ++ key ++ "}}") = false) ->
    dbutil.QueryHelper tpl data = tpl.
Proof.
  unfold dbutil.QueryHelper.
  induction tpl as [|c tpl IH]; intros Hno; [reflexivity|].
  cbn [dbutil.substitute].
  rewrite recognized_none.
  - rewrite IH; [reflexivity|].
    intros key value Hin. specialize (Hno key value Hin).
    cbn [strings.Contains] in Hno. apply orb_false_elim in Hno.
    exact (proj2 Hno).
  - intros key value Hin. specialize (Hno key value Hin).
    cbn [strings.Contains] in Hno. apply orb_false_elim in Hno.
    exact (proj1 Hno).
Qed.

(** Text without an opening brace stays. *)
Lemma substitute_text (data : list (string * string)) (text rest : string) :
  strings.avoids "{" text = true ->
  dbutil.substitute data 0 (text ++ rest)
  = text ++ dbutil.substitute data 0 rest.
Proof.
  induction text as [|c text IH]; intros Hplain; [reflexivity|].
  cbn [strings.avoids strings.hasByte] in Hplain.
  apply andb_true_iff in Hplain. destruct Hplain as [Hc Hplain].
  rewrite orb_false_r in Hc. apply negb_true_iff in Hc.
  cbn [append dbutil.substitute].
  rewrite recognized_not_brace by exact Hc.
  rewrite (IH Hplain). reflexivity.
Qed.

(** The bytes of a token that was replaced are dropped. *)
Lemma substitute_skip (data : list (string * string)) (token rest : string) :
  dbutil.substitute data (String.length token) (token ++ rest)
  = dbutil.substitute data 0 rest.
Proof.
  induction token as [|c token IH]; [destruct rest; reflexivity|].
  cbn [append String.length dbutil.substitute]. exact IH.
Qed.

Lemma avoids_braces (c : ascii) (key : string) :
  strings.avoids "{}" (String c key) = true ->
  Ascii.eqb c "{" = false /\ Ascii.eqb c "}" = false
  /\ strings.avoids "{}" key = true.
Proof.
  cbn [strings.avoids strings.hasByte]. intros H.
  apply andb_true_iff in H. destruct H as [Hc Hkey].
  apply negb_true_iff in Hc. rewrite orb_false_r in Hc.
  apply orb_false_elim in Hc. destruct Hc as [Hopen Hclose].
  auto.
Qed.

Lemma avoids_open (key : string) :
  strings.avoids "{}" key = true -> strings.avoids "{" key = true.
Proof.
  induction key as [|c key IH]; intros H; [reflexivity|].
  destruct (@avoids_braces _ _ H) as (Hopen & _ & Hkey).
  cbn [strings.avoids strings.hasByte]. rewrite Hopen, (IH Hkey). reflexivity.
Qed.

(** Two keys without braces: the token of one starts with the token of
    the other only when they are the same key. *)
Lemma HasPrefix_key (key' : string) :
  forall key rest,
    strings.avoids "{}" key' = true ->
    strings.avoids "{}" key = true ->
    strings.HasPrefix (key ++ "}}" ++ rest) (key' ++ "}}")
    = (key' =? key)%string.
Proof.
  induction key' as [|c' key' IH]; intros key rest Hkey' Hkey.
  - destruct key as [|c key]; [reflexivity|].
    destruct (@avoids_braces _ _ Hkey) as (_ & Hclose & _).
    cbn. rewrite Hclose. reflexivity.
  - destruct (@avoids_braces _ _ Hkey') as (_ & Hclose' & Hrest').
    destruct key as [|c key].
    + cbn [append strings.HasPrefix String.eqb].
      rewrite (Ascii.eqb_sym "}" c'), Hclose'. reflexivity.
    + destruct (@avoids_braces _ _ Hkey) as (_ & _ & Hrest).
      cbn [append strings.HasPrefix String.eqb].
      pose proof (IH key rest Hrest' Hrest) as Hkeys. cbn [append] in Hkeys.
      rewrite Hkeys, Ascii.eqb_sym.
      destruct (Ascii.eqb c' c); reflexivity.
Qed.

Lemma recognized_placeholder (data : list (string * string))
  (key rest : string) :
  plainKeys data = true ->
  strings.avoids "{}" key = true ->
  dbutil.recognized (dbutil.placeholder key ++ rest) data
  = match lookup key data with
    | Some value => Some (key, value)
    | None => None
    end.
Proof.
  intros Hkeys Hkey.
  induction data as [|[key' value] data IH]; [reflexivity|].
  cbn [plainKeys forallb fst] in Hkeys.
  apply andb_true_iff in Hkeys. destruct Hkeys as [Hkey' Hkeys].
  cbn [dbutil.recognized lookup].
  assert (Hprefix :
    strings.HasPrefix (dbutil.placeholder key ++ rest) (dbutil.placeholder key')
    = (key' =? key)%string).
  { unfold dbutil.placeholder. cbn [append strings.HasPrefix].
    rewrite !Ascii.eqb_refl. cbn [andb].
    rewrite <- (@HasPrefix_key key' key rest Hkey' Hkey).
    rewrite <- !append_assoc. reflexivity. }
  rewrite Hprefix.
  destruct (String.eqb_spec key' key) as [->|_]; [reflexivity|].
  apply IH. exact Hkeys.
Qed.

Lemma substitute_cons (data : list (string * string)) (c : ascii)
  (tpl : string) :
  dbutil.substitute data 0 (String c tpl)
  = match dbutil.recognized (String c tpl) data with
    | Some (key, value) =>
        value ++ dbutil.substitute data (String.length key + 3) tpl
    | None => String c (dbutil.substitute data 0 tpl)
    end.
Proof. reflexivity. Qed.

(** A recognized placeholder token gives way to its value. *)
Lemma substitute_known (data : list (string * string))
  (key value rest : string) :
  plainKeys data = true ->
  strings.avoids "{}" key = true ->
  lookup key data = Some value ->
  dbutil.substitute data 0 (dbutil.placeholder key ++ rest)
  = value ++ dbutil.substitute data 0 rest.
Proof.
  intros Hkeys Hkey Hvalue.
  pose proof (@recognized_placeholder data key rest Hkeys Hkey) as Hrecognized.
  rewrite Hvalue in Hrecognized.
  unfold dbutil.placeholder in *. cbn [append] in *.
  rewrite substitute_cons, Hrecognized. f_equal.
  change (String "{" ((key ++ "}}") ++ rest))
    with (("{" ++ key ++ "}}") ++ rest).
  replace (String.length key + 3) with (String.length ("{" ++ key ++ "}}")).
  - apply substitute_skip.
  - cbn [append String.length]. rewrite length_append. cbn. lia.
Qed.

(** A placeholder token of no key of the map stays. *)
Lemma substitute_unknown (data : list (string * string)) (key rest : string) :
  plainKeys data = true ->
  strings.avoids "{}" key = true ->
  lookup key data = None ->
  dbutil.substitute data 0 (dbutil.placeholder key ++ rest)
  = dbutil.placeholder key ++ dbutil.substitute data 0 rest.
Proof.
  intros Hkeys Hkey Hvalue.
  pose proof (@recognized_placeholder data key rest Hkeys Hkey) as Hrecognized.
  rewrite Hvalue in Hrecognized.
  unfold dbutil.placeholder in *. cbn [append] in *.
  rewrite substitute_cons, Hrecognized. f_equal.
  assert (Hplain : strings.avoids "{" (key ++ "}}") = true).
  { clear - Hkey. induction key as [|c key IH]; [reflexivity|].
    destruct (@avoids_braces _ _ Hkey) as (Hopen & _ & Hrest).
    cbn [append strings.avoids strings.hasByte].
    rewrite Hopen, (IH Hrest). reflexivity. }
  assert (Hnext :
    dbutil.recognized (String "{" ((key ++ "}}") ++ rest)) data = None).
  { destruct key as [|c key].
    - apply recognized_one_brace. reflexivity.
    - destruct (@avoids_braces _ _ Hkey) as (Hopen & _ & _).
      apply recognized_one_brace. exact Hopen. }
  rewrite substitute_cons, Hnext. f_equal.
  apply substitute_text. exact Hplain.
Qed.

(** The substitution, token by token. *)
Lemma QueryHelper_tokens (data : list (string * string)) (tokens : list Token) :
  plainKeys data = true ->
  forallb plain tokens = true ->
  dbutil.QueryHelper (compose tokens) data = fill data tokens.
Proof.
  intros Hkeys. unfold dbutil.QueryHelper.
  induction tokens as [|token tokens IH]; intros Hplain; [reflexivity|].
  cbn [forallb] in Hplain. apply andb_true_iff in Hplain.
  destruct Hplain as [Htoken Hplain].
  cbn [compose fill fold_right].
  fold (compose tokens). fold (fill data tokens).
  destruct token as [text|key]; cbn [tokenText tokenValue plain] in *.
  - rewrite (@substitute_text data text (compose tokens) Htoken), (IH Hplain).
    reflexivity.
  - destruct (lookup key data) as [value|] eqn:Hvalue.
    + rewrite (@substitute_known data key value (compose tokens) Hkeys Htoken Hvalue).
      rewrite (IH Hplain). reflexivity.
    + rewrite (@substitute_unknown data key (compose tokens) Hkeys Htoken Hvalue).
      rewrite (IH Hplain). reflexivity.
Qed.

Lemma rendered_Render (statements : list string)
  (queryMap : list (string * string)) :
  rendered strutil.ParseArbitraryStringSlice dbutil.QueryHelper
    statements queryMap =
  flat_map (fun template => Render template queryMap) statements.
Proof.
  unfold rendered, Render.
  induction statements as [|template statements IH]; [reflexivity|].
  cbn [flat_map]. rewrite IH, renderFragment_filter. reflexivity.
Qed.

(** What [executeQuery] does with one fragment of a template. *)
Lemma executeQuery_calls (DB : Type) (drv : Driver DB)
  (queryMap : list (string * string)) (fragment : string)
  (w : World DB) (d : DB) :
  pending w = Some d ->
  journal (snd (executeQuery dbutil.QueryHelper drv queryMap fragment w))
  = (journal w
     ++ if (String.length (strings.TrimSpace fragment) =? 0)%nat then []
        else queryCalls drv
               (dbutil.QueryHelper (strings.TrimSpace fragment) queryMap)
               d)%list.
Proof.
  intros Hp.
  rewrite (@executeQuery_sendQuery dbutil.QueryHelper DB drv queryMap fragment w).
  unfold renderFragment.
  destruct (String.length (strings.TrimSpace fragment) =? 0)%nat.
  - cbn. rewrite app_nil_r. reflexivity.
  - cbn [forRange]. unfold bind, queryCalls.
    rewrite (@sendQuery_cases DB drv _ w d Hp).
    destruct (drvPrepare drv _ d) as [err|].
    + destruct (notPreparable err); [|reflexivity].
      destruct (snd (drvExec drv _ d)); reflexivity.
    + destruct (snd (drvStmtExec drv _ d)); reflexivity.
Qed.

(** The statements that a run of [executePreparedStatementsWithMap] sends
    to the backend. *)
Lemma executePreparedStatementsWithMap_sends (DB : Type) (drv : Driver DB)
  (statements : list string) (queryMap : list (string * string))
  (w : World DB) :
  drvConnection drv (committed w) = None ->
  drvBeginTx drv (committed w) = None ->
  let queries := flat_map (fun template => Render template queryMap) statements in
  preparedQueries
    (journal
       (snd (executePreparedStatementsWithMap strutil.ParseArbitraryStringSlice
               dbutil.QueryHelper drv statements queryMap w)))
  = (preparedQueries (journal w)
     ++ firstn (attempted drv queries (committed w)) queries)%list.
Proof.
  intros Hc Hb queries. subst queries.
  destruct (@executePreparedStatementsWithMap_calls
              strutil.ParseArbitraryStringSlice dbutil.QueryHelper DB drv
              statements queryMap w Hc Hb)
    as (r & d' & tail & Hrun & Hres & _).
  rewrite Hrun. cbn [snd journal].
  rewrite !preparedQueries_app, preparedQueries_callsOf, rendered_Render.
  assert (Htail : preparedQueries tail = []).
  { destruct (applyAll _ _ (committed w)); destruct Hres as [-> _];
      reflexivity. }
  rewrite Htail, app_nil_r. reflexivity.
Qed.

(** C10.  What [executePreparedStatementsWithMap] sends to the backend is
    the rendering of section 4.2 of each template in turn.  Its loop body
    [executeQuery] trims its fragment, sends nothing for an empty one, and
    sends the others with the placeholders substituted; a run that began
    its transaction prepares the rendered statements in their order, up
    to the first that fails, and all of them when each succeeds.  The
    rendering splits the template on [;] (the fragments, joined by [;],
    give the template back, and none holds a [;]), trims each fragment,
    drops the empty ones and substitutes the placeholders.  In a
    statement read as text and placeholder tokens, every placeholder
    token of a key of the map is replaced with the key's value, every
    other placeholder token and the text stay as they are, and the order
    of the entries of the map does not matter; a statement without any
    placeholder of the map is sent as it is.  The rotation template with
    username [u1] and password [p1] renders to the single statement
    [ALTER USER 'u1'@'%' IDENTIFIED BY 'p1']. *)
Theorem statement_rendering :
  (forall (DB : Type) (drv : Driver DB) queryMap fragment (w : World DB) d,
      pending w = Some d ->
      journal (snd (executeQuery dbutil.QueryHelper drv queryMap fragment w))
      = (journal w
         ++ if (String.length (strings.TrimSpace fragment) =? 0)%nat then []
            else queryCalls drv
                   (dbutil.QueryHelper (strings.TrimSpace fragment) queryMap)
                   d)%list)
  /\ (forall (DB : Type) (drv : Driver DB) statements queryMap (w : World DB),
        drvConnection drv (committed w) = None ->
        drvBeginTx drv (committed w) = None ->
        let queries :=
          flat_map (fun template => Render template queryMap) statements in
        let sent :=
          preparedQueries
            (journal
               (snd (executePreparedStatementsWithMap
                       strutil.ParseArbitraryStringSlice dbutil.QueryHelper
                       drv statements queryMap w))) in
        sent
        = (preparedQueries (journal w)
           ++ firstn (attempted drv queries (committed w)) queries)%list
        /\ (forall d1,
              applyAll (applyPrepared drv) queries (committed w) = Some d1 ->
              sent = (preparedQueries (journal w) ++ queries)%list))
  /\ (forall statements queryMap,
        rendered strutil.ParseArbitraryStringSlice dbutil.QueryHelper
          statements queryMap =
        flat_map (fun template => Render template queryMap) statements)
  /\ (forall template,
        String.concat ";" (strutil.ParseArbitraryStringSlice template ";")
          = template
        /\ Forall (fun fragment => strings.Contains fragment ";" = false)
             (strutil.ParseArbitraryStringSlice template ";"))
  /\ (forall queryMap tokens,
        plainKeys queryMap = true ->
        forallb plain tokens = true ->
        dbutil.QueryHelper (compose tokens) queryMap = fill queryMap tokens)
  /\ (forall queryMap queryMap' tokens,
        plainKeys queryMap = true ->
        plainKeys queryMap' = true ->
        forallb plain tokens = true ->
        (forall key, lookup key queryMap = lookup key queryMap') ->
        dbutil.QueryHelper (compose tokens) queryMap
        = dbutil.QueryHelper (compose tokens) queryMap')
  /\ (forall statement queryMap,
        (forall key value,
            In (key, value) queryMap ->
            strings.Contains statement ("{{" ++ key ++ "}}") = false) ->
        dbutil.QueryHelper statement queryMap = statement)
  /\ dbutil.QueryHelper "GRANT '{{role}}' TO '{{name}}', '{{name}}'"
       [("name", "u1")] = "GRANT '{{role}}' TO 'u1', 'u1'"
  /\ rendered strutil.ParseArbitraryStringSlice dbutil.QueryHelper
       ["ALTER USER '{{username}}'@'%' IDENTIFIED BY '{{password}}';"]
       [("username", "u1"); ("password", "p1")] =
     ["ALTER USER 'u1'@'%' IDENTIFIED BY 'p1'"].
Proof.
  repeat apply conj.
  - exact executeQuery_calls.
  - intros DB drv statements queryMap w Hc Hb queries sent.
    subst queries sent.
    pose proof (@executePreparedStatementsWithMap_sends DB drv statements
                  queryMap w Hc Hb) as Hsends.
    cbv zeta in Hsends. split; [exact Hsends|].
    intros d1 Hall. rewrite Hsends.
    rewrite <- rendered_Render in *.
    rewrite (@attempted_all DB drv _ _ _ Hall). reflexivity.
  - exact rendered_Render.
  - exact split_semicolon.
  - exact QueryHelper_tokens.
  - intros queryMap queryMap' tokens Hkeys Hkeys' Hplain Hsame.
    rewrite (@QueryHelper_tokens queryMap tokens Hkeys Hplain).
    rewrite (@QueryHelper_tokens queryMap' tokens Hkeys' Hplain).
    clear - Hsame. induction tokens as [|token tokens IH]; [reflexivity|].
    cbn [fill fold_right]. fold (fill queryMap tokens).
    fold (fill queryMap' tokens). rewrite IH.
    destruct token as [text|key]; cbn [tokenValue]; [reflexivity|].
    rewrite (Hsame key). reflexivity.
  - intros statement queryMap. apply QueryHelper_verbatim.
  - reflexivity.
  - reflexivity.
Qed.

(* ===================================================================== *)
(** ** Revocation with the default statements *)
(* ===================================================================== *)



(* ===================================================================== *)
(** ** The plugin on the old server *)
(* ===================================================================== *)

(** Rotating the password of the account [ghost] with the default
    rotation statement: prepare refuses [ALTER USER] with error 1295, the
    direct execution fails, and the error path calls [Close] on the nil
    statement handle.  The call panics instead of returning the error
    (the deferred [Rollback] and [Unlock] still run). *)
Example rotate_ghost_panics :
  demo.executePreparedStatementsWithMap [defaultMySQLRotateCredentialsSQL]
    (passwordQueryMap "ghost" "s3cret") demo.idle =
  (Panicked,
   mkWorld [] None
     [EvLock; EvConnection; EvBeginTx;
      EvPrepare "ALTER USER 'ghost'@'%' IDENTIFIED BY 's3cret'";
      EvExec "ALTER USER 'ghost'@'%' IDENTIFIED BY 's3cret'";
      EvRollback; EvUnlock]).
Proof. reflexivity. Qed.

(** C4 fails for a list of templates that render to nothing: the list
    [" ; "] has no statement in it, and [NewUser] generates a username,
    takes the lock, opens a transaction, commits it and reports success. *)
Lemma new_user_blank_statements_accepted :
  rendered strutil.ParseArbitraryStringSlice dbutil.QueryHelper
    (Commands (NewUser_Statements demo.blankRequest))
    (newUserQueryMap "tokenreadonlyAb12Cd34" demo.blankRequest) = []
  /\ demo.NewUser false demo.blankRequest "Ab12Cd34" demo.idle =
     (Returned (mkNewUserResponse "tokenreadonlyAb12Cd34", None),
      mkWorld [] None
        [EvLock; EvConnection; EvBeginTx; EvCommit; EvRollback; EvUnlock]).
Proof. split; reflexivity. Qed.

(** C5 fails: the same error comes back whether the failing statement is
    the first or the second, so no index can be read off it. *)
Lemma error_carries_no_index :
  ~ errorCarriesIndex strutil.ParseArbitraryStringSlice dbutil.QueryHelper
      demo.driver.
Proof.
  intros [indexOf Hindex].
  destruct (Hindex ["SELEC 1"] [] demo.idle 0 demo.syntaxError eq_refl)
    as (err0 & Hrun0 & Hindex0).
  destruct (Hindex ["SELECT 1; SELEC 1"] [] demo.idle 1 demo.syntaxError eq_refl)
    as (err1 & Hrun1 & Hindex1).
  cbv in Hrun0, Hrun1.
  injection Hrun0 as <-. injection Hrun1 as <-.
  rewrite Hindex0 in Hindex1. discriminate.
Qed.

(* ===================================================================== *)
(** ** The theorems at work on the old server *)
(* ===================================================================== *)

(** Creating, rotating and deleting an account on the old server, from
    the idle world. *)
Lemma lifecycle_all_or_nothing_witness :
  pending demo.idle = None
  /\ allOrNothing (applyPrepared demo.driver)
       (rendered strutil.ParseArbitraryStringSlice dbutil.QueryHelper
          (Commands (NewUser_Statements demo.newAlice))
          (newUserQueryMap "tokenreadonlyAb12Cd34" demo.newAlice))
       (succeeded (fst (demo.NewUser false demo.newAlice "Ab12Cd34" demo.idle)))
       demo.idle (snd (demo.NewUser false demo.newAlice "Ab12Cd34" demo.idle))
  /\ allOrNothing (applyPrepared demo.driver)
       (rendered strutil.ParseArbitraryStringSlice dbutil.QueryHelper
          [defaultMySQLRotateCredentialsSQL] (passwordQueryMap "alice" "n3w"))
       (succeeded (fst (demo.UpdateUser demo.rotateAlice demo.idle)))
       demo.idle (snd (demo.UpdateUser demo.rotateAlice demo.idle))
  /\ allOrNothing (applyDirect demo.driver)
       (revocationQueries strutil.ParseArbitraryStringSlice demo.deleteAlice)
       (succeeded (fst (demo.DeleteUser demo.deleteAlice demo.idle)))
       demo.idle (snd (demo.DeleteUser demo.deleteAlice demo.idle))
  /\ drvConnection demo.driver (committed demo.idle) = None
  /\ drvBeginTx demo.driver (committed demo.idle) = None
  /\ commitsWhenAllSucceed demo.driver (applyPrepared demo.driver)
       (rendered strutil.ParseArbitraryStringSlice dbutil.QueryHelper
          (Commands (NewUser_Statements demo.newAlice))
          (newUserQueryMap "tokenreadonlyAb12Cd34" demo.newAlice))
       (succeeded (fst (demo.NewUser false demo.newAlice "Ab12Cd34" demo.idle)))
       demo.idle (snd (demo.NewUser false demo.newAlice "Ab12Cd34" demo.idle))
  /\ commitsWhenAllSucceed demo.driver (applyPrepared demo.driver)
       (rendered strutil.ParseArbitraryStringSlice dbutil.QueryHelper
          [defaultMySQLRotateCredentialsSQL] (passwordQueryMap "alice" "n3w"))
       (succeeded (fst (demo.UpdateUser demo.rotateAlice demo.idle)))
       demo.idle (snd (demo.UpdateUser demo.rotateAlice demo.idle)).
Proof.
  pose proof (@lifecycle_all_or_nothing strutil.ParseArbitraryStringSlice
                dbutil.QueryHelper demo.DB demo.driver
                credsutil.GenerateUsername false demo.idle eq_refl)
    as (Hnew & Hupdate & Hdelete & Hcommits).
  destruct (Hcommits eq_refl eq_refl) as (_ & Hnew' & Hupdate' & _).
  split; [reflexivity|]. split; [|split; [|split]].
  - exact (Hnew demo.newAlice "Ab12Cd34").
  - exact (Hupdate demo.rotateAlice _ eq_refl).
  - exact (Hdelete demo.deleteAlice).
  - do 2 (split; [reflexivity|]). split.
    + apply (Hnew' demo.newAlice "Ab12Cd34" "tokenreadonlyAb12Cd34");
        [discriminate | reflexivity].
    + apply (Hupdate' demo.rotateAlice _ eq_refl); discriminate.
Defined.

(** [CREATE USER] is refused by prepare with error 1295, runs directly,
    and the [GRANT] after it is prepared and executed: both are committed. *)
Lemma not_preparable_fallback_witness :
  rendered strutil.ParseArbitraryStringSlice dbutil.QueryHelper
    (Commands (NewUser_Statements demo.newAlice))
    (newUserQueryMap "alice" demo.newAlice)
    = ([] ++ demo.createAlice :: [demo.grantAlice])%list
  /\ drvPrepare demo.driver demo.createAlice [] = Some demo.notSupported
  /\ notPreparable demo.notSupported = true
  /\ drvExec demo.driver demo.createAlice [] = ([demo.createAlice], None)
  /\ fst (demo.executePreparedStatementsWithMap
            (Commands (NewUser_Statements demo.newAlice))
            (newUserQueryMap "alice" demo.newAlice) demo.idle)
     = Returned None
  /\ committed
       (snd (demo.executePreparedStatementsWithMap
               (Commands (NewUser_Statements demo.newAlice))
               (newUserQueryMap "alice" demo.newAlice) demo.idle))
     = [demo.createAlice; demo.grantAlice].
Proof.
  pose proof (@not_preparable_fallback strutil.ParseArbitraryStringSlice
                dbutil.QueryHelper demo.DB demo.driver
                (Commands (NewUser_Statements demo.newAlice))
                (newUserQueryMap "alice" demo.newAlice) demo.idle
                [] [demo.grantAlice] demo.createAlice [] demo.notSupported
                eq_refl eq_refl eq_refl eq_refl eq_refl) as [Hfallback _].
  destruct (Hfallback eq_refl [demo.createAlice] eq_refl) as [_ Hcommit].
  destruct (Hcommit [demo.createAlice; demo.grantAlice] eq_refl eq_refl)
    as (Hreturn & Hstate & _).
  repeat split; assumption.
Defined.

(** The second statement has a syntax error: the server's error 1064
    comes back as it is. *)
Lemma failing_statement_error_is_returned_witness :
  drvConnection demo.driver (committed demo.idle) = None
  /\ drvBeginTx demo.driver (committed demo.idle) = None
  /\ firstFailure demo.driver
       (rendered strutil.ParseArbitraryStringSlice dbutil.QueryHelper
          ["SELECT 1; SELEC 1; SELECT 2"] [])
       (committed demo.idle) = Some (1, demo.syntaxError)
  /\ demo.executePreparedStatementsWithMap ["SELECT 1; SELEC 1; SELECT 2"] []
       demo.idle =
     (Returned (Some demo.syntaxError),
      mkWorld [] None
        [EvLock; EvConnection; EvBeginTx;
         EvPrepare "SELECT 1"; EvStmtExec "SELECT 1"; EvStmtClose "SELECT 1";
         EvPrepare "SELEC 1";
         EvRollback; EvUnlock]).
Proof.
  do 3 (split; [reflexivity|]).
  exact (proj1 (proj2 (@failing_statement_error_is_returned
                         strutil.ParseArbitraryStringSlice dbutil.QueryHelper
                         demo.DB demo.driver demo.idle eq_refl eq_refl))
           ["SELECT 1; SELEC 1; SELECT 2"] [] 1 demo.syntaxError eq_refl).
Defined.

(** The two statements of one creation template, as they are sent. *)
Lemma statement_rendering_witness :
  drvConnection demo.driver (committed demo.idle) = None
  /\ drvBeginTx demo.driver (committed demo.idle) = None
  /\ applyAll (applyPrepared demo.driver)
       (flat_map
          (fun template =>
             Render template (newUserQueryMap "alice" demo.newAlice))
          (Commands (NewUser_Statements demo.newAlice)))
       (committed demo.idle)
     = Some [demo.createAlice; demo.grantAlice]
  /\ preparedQueries
       (journal
          (snd (demo.executePreparedStatementsWithMap
                  (Commands (NewUser_Statements demo.newAlice))
                  (newUserQueryMap "alice" demo.newAlice) demo.idle)))
     = [demo.createAlice; demo.grantAlice].
Proof.
  do 3 (split; [reflexivity|]).
  exact (proj2
           (proj1 (proj2 statement_rendering) demo.DB demo.driver
              (Commands (NewUser_Statements demo.newAlice))
              (newUserQueryMap "alice" demo.newAlice) demo.idle
              eq_refl eq_refl)
           [demo.createAlice; demo.grantAlice] eq_refl).
Defined.


(** Rotating the password of [ghost]: the refused prepare, the failed
    direct execution, and the panic. *)
Lemma fallback_failure_panics_witness :
  rendered strutil.ParseArbitraryStringSlice dbutil.QueryHelper
    [defaultMySQLRotateCredentialsSQL] (passwordQueryMap "ghost" "s3cret")
    = ([] ++ demo.alterGhost :: [])%list
  /\ drvPrepare demo.driver demo.alterGhost [] = Some demo.notSupported
  /\ notPreparable demo.notSupported = true
  /\ drvExec demo.driver demo.alterGhost [] = ([], Some demo.noSuchUser)
  /\ fst (demo.executePreparedStatementsWithMap
            [defaultMySQLRotateCredentialsSQL]
            (passwordQueryMap "ghost" "s3cret") demo.idle) = Panicked.
Proof.
  do 4 (split; [reflexivity|]).
  exact (@fallback_failure_panics strutil.ParseArbitraryStringSlice
           dbutil.QueryHelper demo.DB demo.driver
           [defaultMySQLRotateCredentialsSQL]
           (passwordQueryMap "ghost" "s3cret") demo.idle [] []
           demo.alterGhost [] [] demo.notSupported demo.noSuchUser
           eq_refl eq_refl eq_refl eq_refl eq_refl eq_refl eq_refl).
Defined.

(** A creation request without statements, on the old server. *)
Lemma new_user_without_statements_rejected_witness :
  Commands (NewUser_Statements demo.emptyRequest) = []
  /\ demo.NewUser false demo.emptyRequest "Ab12Cd34" demo.idle =
     (Returned (mkNewUserResponse EmptyString, Some ErrEmptyCreationStatement),
      demo.idle).
Proof.
  split; [reflexivity|].
  exact (@new_user_without_statements_rejected
           strutil.ParseArbitraryStringSlice dbutil.QueryHelper
           credsutil.GenerateUsername demo.DB demo.driver false
           demo.emptyRequest "Ab12Cd34" demo.idle eq_refl).
Defined.

(** An update that asks for nothing. *)
Lemma update_user_without_change_rejected_witness :
  UpdateUser_Password demo.updateNothing = None
  /\ UpdateUser_Expiration demo.updateNothing = None
  /\ demo.UpdateUser demo.updateNothing demo.idle =
     (Returned (mkUpdateUserResponse, Some (ErrorString "no change requested")),
      demo.idle).
Proof.
  do 2 (split; [reflexivity|]).
  exact (@update_user_without_change_rejected
           strutil.ParseArbitraryStringSlice dbutil.QueryHelper demo.DB
           demo.driver demo.updateNothing demo.idle eq_refl eq_refl).
Defined.

(** An update of the expiration alone. *)
Lemma update_user_expiration_only_witness :
  UpdateUser_Password demo.extendAlice = None
  /\ UpdateUser_Expiration demo.extendAlice
     = Some (mkChangeExpiration demo.expiry (mkStatements []))
  /\ demo.UpdateUser demo.extendAlice demo.idle =
     (Returned (mkUpdateUserResponse, None), demo.idle).
Proof.
  do 2 (split; [reflexivity|]).
  exact (@update_user_expiration_only
           strutil.ParseArbitraryStringSlice dbutil.QueryHelper demo.DB
           demo.driver demo.extendAlice
           (mkChangeExpiration demo.expiry (mkStatements [])) demo.idle
           eq_refl eq_refl).
Defined.

(* ===================================================================== *)
(** ** More on the lifecycle operations *)
(* ===================================================================== *)

Unset Implicit Arguments.

Lemma forallb_statementEvent_unlocked (evs : list Event) :
  forallb statementEvent evs = true ->
  forallb (fun e => negb (lockEvent e)) evs = true.
Proof.
  induction evs as [|e evs IH]; [reflexivity|].
  cbn [forallb]. intros H. apply andb_true_iff in H as [He Hevs].
  rewrite (IH Hevs). destruct e; try discriminate; reflexivity.
Qed.

Lemma forallb_EvExec_unlocked (qs : list string) :
  forallb (fun e => negb (lockEvent e)) (map EvExec qs) = true.
Proof.
  induction qs as [|q qs IH]; [reflexivity | exact IH].
Qed.

Section Operations.
Variable ParseArbitraryStringSlice : string -> string -> list string.
Variable QueryHelper : string -> list (string * string) -> string.
Variable DB : Type.
Variable drv : Driver DB.

(** The events of the statement loop are built from three shapes, one per
    query: prepared, executed and closed; refused and executed directly;
    refused. *)
Lemma sendQuery_loop_shape (P : list Event -> Prop) :
  P [] ->
  (forall q evs,
      P evs -> P ([EvPrepare q; EvStmtExec q; EvStmtClose q] ++ evs)%list) ->
  (forall q evs, P evs -> P ([EvPrepare q; EvExec q] ++ evs)%list) ->
  (forall q, P [EvPrepare q]) ->
  forall (qs : list string) (w : World DB) (d : DB),
    pending w = Some d ->
    exists r d' evs,
      forRange (sendQuery drv) qs w =
        (r, mkWorld (committed w) (Some d') (journal w ++ evs)%list)
      /\ P evs.
Proof.
  intros Hnil Hprepared Hdirect Hrefused.
  induction qs as [|q qs IH]; intros w d Hp.
  - exists (Returned None), d, []. cbn. unfold ret.
    rewrite <- (world_eta w Hp). auto.
  - cbn [forRange]. unfold bind.
    rewrite (@sendQuery_cases DB drv q w d Hp).
    destruct (drvPrepare drv q d) as [err|].
    + destruct (notPreparable err).
      * destruct (drvExec drv q d) as [d1 [err'|]]; cbn [fst snd].
        -- exists Panicked, d1, [EvPrepare q; EvExec q].
           split; [reflexivity | apply (Hdirect q [] Hnil)].
        -- match goal with
           | |- context [forRange _ qs ?w1] =>
               destruct (IH w1 d1 eq_refl) as (r & d' & evs & Hrun & Hevs)
           end.
           exists r, d', ([EvPrepare q; EvExec q] ++ evs)%list.
           rewrite Hrun. cbn [committed journal]. rewrite <- app_assoc.
           split; [reflexivity | apply Hdirect, Hevs].
      * exists (Returned (Some err)), d, [EvPrepare q].
        split; [reflexivity | apply Hrefused].
    + destruct (drvStmtExec drv q d) as [d1 [err'|]]; cbn [fst snd].
      * exists (Returned (Some err')), d1,
          [EvPrepare q; EvStmtExec q; EvStmtClose q].
        split; [reflexivity | apply (Hprepared q [] Hnil)].
      * match goal with
        | |- context [forRange _ qs ?w1] =>
            destruct (IH w1 d1 eq_refl) as (r & d' & evs & Hrun & Hevs)
        end.
        exists r, d',
          ([EvPrepare q; EvStmtExec q; EvStmtClose q] ++ evs)%list.
        rewrite Hrun. cbn [committed journal]. rewrite <- app_assoc.
        split; [reflexivity | apply Hprepared, Hevs].
Qed.

(** The journals of [executePreparedStatementsWithMap]. *)
Lemma executePreparedStatementsWithMap_journal (P : list Event -> Prop)
  (statements : list string) (queryMap : list (string * string)) (w : World DB) :
  P [] ->
  (forall q evs,
      P evs -> P ([EvPrepare q; EvStmtExec q; EvStmtClose q] ++ evs)%list) ->
  (forall q evs, P evs -> P ([EvPrepare q; EvExec q] ++ evs)%list) ->
  (forall q, P [EvPrepare q]) ->
  let w' :=
    snd (executePreparedStatementsWithMap ParseArbitraryStringSlice QueryHelper
           drv statements queryMap w) in
  journal w' = (journal w ++ [EvLock; EvConnection; EvUnlock])%list
  \/ journal w' = (journal w ++ [EvLock; EvConnection; EvBeginTx; EvUnlock])%list
  \/ exists evs tail,
       P evs
       /\ (tail = [EvCommit; EvRollback; EvUnlock] \/ tail = [EvRollback; EvUnlock])
       /\ journal w' =
          (journal w ++ [EvLock; EvConnection; EvBeginTx] ++ evs ++ tail)%list.
Proof.
  intros Hnil Hprepared Hdirect Hrefused w'. subst w'.
  destruct (drvConnection drv (committed w)) as [err|] eqn:Hc.
  { left.
    rewrite (@executePreparedStatementsWithMap_no_connection
               ParseArbitraryStringSlice QueryHelper DB drv statements queryMap
               w err Hc).
    reflexivity. }
  destruct (drvBeginTx drv (committed w)) as [err|] eqn:Hb.
  { right. left.
    rewrite (@executePreparedStatementsWithMap_no_transaction
               ParseArbitraryStringSlice QueryHelper DB drv statements queryMap
               w err Hc Hb).
    reflexivity. }
  right. right.
  rewrite (@executePreparedStatementsWithMap_begun
             ParseArbitraryStringSlice QueryHelper DB drv statements queryMap
             w Hc Hb).
  destruct (sendQuery_loop_shape P Hnil Hprepared Hdirect Hrefused
              (rendered ParseArbitraryStringSlice QueryHelper statements queryMap)
              (begun w) (committed w) eq_refl)
    as (r & d' & evs & Hrun & Hevs).
  rewrite Hrun. exists evs.
  destruct r as [[err|]|].
  - exists [EvRollback; EvUnlock]. cbn. rewrite <- !app_assoc. cbn. auto.
  - exists [EvCommit; EvRollback; EvUnlock]. unfold Commit. cbn.
    destruct (drvCommit drv d'); cbn; rewrite <- !app_assoc; cbn; auto.
  - exists [EvRollback; EvUnlock]. cbn. rewrite <- !app_assoc. cbn. auto.
Qed.

(** The loop of [DeleteUser], with what it executes. *)
Lemma ExecContext_loop_trace (qs : list string) :
  forall (w : World DB) (d : DB),
    pending w = Some d ->
    exists r d' n,
      forRange (ExecContext drv) qs w =
        (Returned r,
         mkWorld (committed w) (Some d')
           (journal w ++ map EvExec (firstn n qs))%list)
      /\ match firstDirectFailure drv qs d with
         | Some (k, err) => r = Some err /\ n = S k
         | None => r = None /\ n = List.length qs
         end.
Proof.
  induction qs as [|q qs IH]; intros w d Hp.
  - exists None, d, 0. cbn. unfold ret.
    rewrite <- (@world_eta DB w d Hp). auto.
  - cbn [forRange firstDirectFailure]. unfold bind.
    rewrite (@ExecContext_cases DB drv q w d Hp).
    destruct (drvExec drv q d) as [d1 [err'|]]; cbn [fst snd].
    + exists (Some err'), d1, 1. split; [reflexivity | auto].
    + match goal with
      | |- context [forRange _ qs ?w1] =>
          destruct (IH w1 d1 eq_refl) as (r & d' & n & Hrun & Hres)
      end.
      exists r, d', (S n). rewrite Hrun. cbn [committed journal firstn map].
      rewrite <- app_assoc. split; [reflexivity|].
      destruct (firstDirectFailure drv qs d1) as [[k err]|]; cbn;
        destruct Hres as [-> ->]; auto.
Qed.

(** The statement loop panics exactly when it reaches the close of a nil
    handle. *)
Lemma sendQuery_loop_panics (qs : list string) :
  forall (w : World DB) (d : DB),
    pending w = Some d ->
    (fst (forRange (sendQuery drv) qs w) = Panicked
     <-> reachesNilClose drv qs d = true).
Proof.
  induction qs as [|q qs IH]; intros w d Hp.
  - cbn. split; discriminate.
  - cbn [forRange reachesNilClose]. unfold bind.
    rewrite (@sendQuery_cases DB drv q w d Hp).
    destruct (drvPrepare drv q d) as [err|].
    + destruct (notPreparable err).
      * destruct (drvExec drv q d) as [d1 [err'|]]; cbn [fst snd].
        -- split; reflexivity.
        -- apply IH. reflexivity.
      * cbn. split; discriminate.
    + destruct (drvStmtExec drv q d) as [d1 [err'|]]; cbn [fst snd].
      * split; discriminate.
      * apply IH. reflexivity.
Qed.

(** X1.  When the connection cannot be obtained, the connection error comes
    back ([UpdateUser] wraps it), no transaction is begun, no statement is
    sent, and the lock is released: the calls made are [Lock], the
    connection attempt and [Unlock]. *)
Theorem connection_failure_sends_nothing (w : World DB) (err : error) :
  drvConnection drv (committed w) = Some err ->
  let refused :=
    mkWorld (committed w) (pending w)
      (journal w ++ [EvLock; EvConnection; EvUnlock])%list in
  (forall statements queryMap,
      executePreparedStatementsWithMap ParseArbitraryStringSlice QueryHelper
        drv statements queryMap w = (Returned (Some err), refused))
  /\ (forall GenerateUsername legacy req uniq username,
        Commands (NewUser_Statements req) <> [] ->
        generateUsername GenerateUsername legacy req uniq = (username, None) ->
        NewUser ParseArbitraryStringSlice QueryHelper GenerateUsername drv
          legacy req uniq w =
        (Returned (mkNewUserResponse EmptyString, Some err), refused))
  /\ (forall req pw,
        UpdateUser_Password req = Some pw ->
        UpdateUser_Username req <> EmptyString ->
        NewPassword pw <> EmptyString ->
        UpdateUser ParseArbitraryStringSlice QueryHelper drv req w =
        (Returned (mkUpdateUserResponse,
                   Some (Wrapf "failed to change password: %w" err)), refused))
  /\ (forall req,
        DeleteUser ParseArbitraryStringSlice drv req w =
        (Returned (mkDeleteUserResponse, Some err), refused)).
Proof.
  intros Hc refused. subst refused. split; [|split; [|split]].
  - intros statements queryMap.
    exact (@executePreparedStatementsWithMap_no_connection
             ParseArbitraryStringSlice QueryHelper DB drv statements queryMap
             w err Hc).
  - intros GenerateUsername legacy req uniq username Hsome Hgen.
    rewrite (@NewUser_runs ParseArbitraryStringSlice QueryHelper DB drv
               GenerateUsername legacy req uniq username w Hsome Hgen).
    rewrite (@executePreparedStatementsWithMap_no_connection
               ParseArbitraryStringSlice QueryHelper DB drv _ _ w err Hc).
    reflexivity.
  - intros req pw Hpw Husername Hpassword.
    rewrite (@UpdateUser_runs ParseArbitraryStringSlice QueryHelper DB drv
               req pw w Hpw Husername Hpassword).
    rewrite (@executePreparedStatementsWithMap_no_connection
               ParseArbitraryStringSlice QueryHelper DB drv _ _ w err Hc).
    reflexivity.
  - intros req.
    exact (@DeleteUser_no_connection ParseArbitraryStringSlice DB drv req w
             err Hc).
Qed.

(** X2.  When the backend refuses to begin the transaction, that error
    comes back ([UpdateUser] wraps it), no statement is sent, nothing is
    rolled back or committed, and the lock is released. *)
Theorem begin_failure_sends_nothing (w : World DB) (err : error) :
  drvConnection drv (committed w) = None ->
  drvBeginTx drv (committed w) = Some err ->
  let refused :=
    mkWorld (committed w) (pending w)
      (journal w ++ [EvLock; EvConnection; EvBeginTx; EvUnlock])%list in
  (forall statements queryMap,
      executePreparedStatementsWithMap ParseArbitraryStringSlice QueryHelper
        drv statements queryMap w = (Returned (Some err), refused))
  /\ (forall GenerateUsername legacy req uniq username,
        Commands (NewUser_Statements req) <> [] ->
        generateUsername GenerateUsername legacy req uniq = (username, None) ->
        NewUser ParseArbitraryStringSlice QueryHelper GenerateUsername drv
          legacy req uniq w =
        (Returned (mkNewUserResponse EmptyString, Some err), refused))
  /\ (forall req pw,
        UpdateUser_Password req = Some pw ->
        UpdateUser_Username req <> EmptyString ->
        NewPassword pw <> EmptyString ->
        UpdateUser ParseArbitraryStringSlice QueryHelper drv req w =
        (Returned (mkUpdateUserResponse,
                   Some (Wrapf "failed to change password: %w" err)), refused))
  /\ (forall req,
        DeleteUser ParseArbitraryStringSlice drv req w =
        (Returned (mkDeleteUserResponse, Some err), refused)).
Proof.
  intros Hc Hb refused. subst refused. split; [|split; [|split]].
  - intros statements queryMap.
    exact (@executePreparedStatementsWithMap_no_transaction
             ParseArbitraryStringSlice QueryHelper DB drv statements queryMap
             w err Hc Hb).
  - intros GenerateUsername legacy req uniq username Hsome Hgen.
    rewrite (@NewUser_runs ParseArbitraryStringSlice QueryHelper DB drv
               GenerateUsername legacy req uniq username w Hsome Hgen).
    rewrite (@executePreparedStatementsWithMap_no_transaction
               ParseArbitraryStringSlice QueryHelper DB drv _ _ w err Hc Hb).
    reflexivity.
  - intros req pw Hpw Husername Hpassword.
    rewrite (@UpdateUser_runs ParseArbitraryStringSlice QueryHelper DB drv
               req pw w Hpw Husername Hpassword).
    rewrite (@executePreparedStatementsWithMap_no_transaction
               ParseArbitraryStringSlice QueryHelper DB drv _ _ w err Hc Hb).
    reflexivity.
  - intros req.
    exact (@DeleteUser_no_transaction ParseArbitraryStringSlice DB drv req w
             err Hc Hb).
Qed.

(** X3.  When every statement succeeds and the backend refuses the commit,
    the commit error comes back, with nothing committed: the state is the
    one before the call and the transaction is done. *)
Theorem commit_failure_commits_nothing (w : World DB) (err : error) :
  drvConnection drv (committed w) = None ->
  drvBeginTx drv (committed w) = None ->
  (forall statements queryMap d,
      applyAll (applyPrepared drv)
        (rendered ParseArbitraryStringSlice QueryHelper statements queryMap)
        (committed w) = Some d ->
      drvCommit drv d = Some err ->
      exists evs,
        forallb statementEvent evs = true
        /\ executePreparedStatementsWithMap ParseArbitraryStringSlice
             QueryHelper drv statements queryMap w =
           (Returned (Some err),
            mkWorld (committed w) None
              (journal w ++ [EvLock; EvConnection; EvBeginTx] ++ evs
               ++ [EvCommit; EvRollback; EvUnlock])%list))
  /\ (forall req d,
        applyAll (applyDirect drv)
          (revocationQueries ParseArbitraryStringSlice req) (committed w)
          = Some d ->
        drvCommit drv d = Some err ->
        exists evs,
          forallb statementEvent evs = true
          /\ DeleteUser ParseArbitraryStringSlice drv req w =
             (Returned (mkDeleteUserResponse, Some err),
              mkWorld (committed w) None
                (journal w ++ [EvLock; EvConnection; EvBeginTx] ++ evs
                 ++ [EvCommit; EvRollback; EvUnlock])%list)).
Proof.
  intros Hc Hb. split.
  - intros statements queryMap d Hall Hcommit.
    destruct (@executePreparedStatementsWithMap_outcome
                ParseArbitraryStringSlice QueryHelper DB drv statements
                queryMap w Hc Hb)
      as (r & d' & evs & tail & Hrun & Hev & Hres).
    rewrite Hall, Hcommit in Hres. destruct Hres as (-> & -> & ->).
    exists evs. split; [exact Hev | exact Hrun].
  - intros req d Hall Hcommit.
    destruct (@DeleteUser_outcome ParseArbitraryStringSlice DB drv req w Hc Hb)
      as (e & d' & evs & tail & Hrun & Hev & Hres).
    rewrite Hall, Hcommit in Hres. destruct Hres as (-> & -> & ->).
    exists evs. split; [exact Hev | exact Hrun].
Qed.

(** The journals of [DeleteUser], which always returns. *)
Lemma DeleteUser_shape (req : DeleteUserRequest) (w : World DB) :
  let res := DeleteUser ParseArbitraryStringSlice drv req w in
  (exists err, fst res = Returned (mkDeleteUserResponse, err))
  /\ (journal (snd res) = (journal w ++ [EvLock; EvConnection; EvUnlock])%list
      \/ journal (snd res)
         = (journal w ++ [EvLock; EvConnection; EvBeginTx; EvUnlock])%list
      \/ exists n tail,
           (tail = [EvCommit; EvRollback; EvUnlock]
            \/ tail = [EvRollback; EvUnlock])
           /\ journal (snd res) =
              (journal w ++ [EvLock; EvConnection; EvBeginTx]
               ++ map EvExec
                    (firstn n (revocationQueries ParseArbitraryStringSlice req))
               ++ tail)%list).
Proof.
  intros res. subst res.
  destruct (drvConnection drv (committed w)) as [err|] eqn:Hc.
  { rewrite (@DeleteUser_no_connection ParseArbitraryStringSlice DB drv req w
               err Hc).
    split; [eexists; reflexivity | left; reflexivity]. }
  destruct (drvBeginTx drv (committed w)) as [err|] eqn:Hb.
  { rewrite (@DeleteUser_no_transaction ParseArbitraryStringSlice DB drv req w
               err Hc Hb).
    split; [eexists; reflexivity | right; left; reflexivity]. }
  rewrite (@DeleteUser_begun ParseArbitraryStringSlice DB drv req w Hc Hb).
  destruct (ExecContext_loop_trace
              (revocationQueries ParseArbitraryStringSlice req) (begun w)
              (committed w) eq_refl)
    as (r & d' & n & Hrun & _).
  rewrite Hrun. destruct r as [err|].
  - split; [eexists; reflexivity|]. right. right.
    exists n, [EvRollback; EvUnlock]. cbn. rewrite <- !app_assoc. cbn. auto.
  - unfold Commit. cbn. destruct (drvCommit drv d'); cbn;
      (split; [eexists; reflexivity|]); right; right;
      exists n, [EvCommit; EvRollback; EvUnlock];
      rewrite <- !app_assoc; cbn; auto.
Qed.

(** X4.  The mutex is taken once and released once, last, on every path of
    [executePreparedStatementsWithMap] (also when it panics) and of
    [DeleteUser]: the calls of a run are [Lock], calls that are not on the
    mutex, and [Unlock]. *)
Theorem lock_taken_and_released_once (w : World DB) :
  (forall statements queryMap,
      exists mid,
        forallb (fun e => negb (lockEvent e)) mid = true
        /\ journal
             (snd (executePreparedStatementsWithMap ParseArbitraryStringSlice
                     QueryHelper drv statements queryMap w))
           = (journal w ++ EvLock :: mid ++ [EvUnlock])%list)
  /\ (forall req,
        exists mid,
          forallb (fun e => negb (lockEvent e)) mid = true
          /\ journal (snd (DeleteUser ParseArbitraryStringSlice drv req w))
             = (journal w ++ EvLock :: mid ++ [EvUnlock])%list).
Proof.
  split.
  - intros statements queryMap.
    destruct (executePreparedStatementsWithMap_journal
                (fun evs => forallb statementEvent evs = true)
                statements queryMap w)
      as [Hj | [Hj | (evs & tail & Hevs & Htail & Hj)]];
      try reflexivity; try (intros q evs Hevs; exact Hevs).
    + exists [EvConnection]. split; [reflexivity | exact Hj].
    + exists [EvConnection; EvBeginTx]. split; [reflexivity | exact Hj].
    + apply forallb_statementEvent_unlocked in Hevs.
      destruct Htail as [-> | ->].
      * exists ([EvConnection; EvBeginTx] ++ evs ++ [EvCommit; EvRollback])%list.
        split.
        -- cbn. rewrite forallb_app, Hevs. reflexivity.
        -- rewrite Hj. cbn. rewrite <- !app_assoc. reflexivity.
      * exists ([EvConnection; EvBeginTx] ++ evs ++ [EvRollback])%list.
        split.
        -- cbn. rewrite forallb_app, Hevs. reflexivity.
        -- rewrite Hj. cbn. rewrite <- !app_assoc. reflexivity.
  - intros req.
    destruct (DeleteUser_shape req w)
      as [_ [Hj | [Hj | (n & tail & Htail & Hj)]]].
    + exists [EvConnection]. split; [reflexivity | exact Hj].
    + exists [EvConnection; EvBeginTx]. split; [reflexivity | exact Hj].
    + assert (Hevs :
        forallb (fun e => negb (lockEvent e))
          (map EvExec
             (firstn n (revocationQueries ParseArbitraryStringSlice req)))
        = true).
      { apply forallb_EvExec_unlocked. }
      destruct Htail as [-> | ->].
      * exists ([EvConnection; EvBeginTx]
                ++ map EvExec
                     (firstn n (revocationQueries ParseArbitraryStringSlice req))
                ++ [EvCommit; EvRollback])%list.
        split.
        -- cbn. rewrite forallb_app, Hevs. reflexivity.
        -- rewrite Hj. cbn. rewrite <- !app_assoc. reflexivity.
      * exists ([EvConnection; EvBeginTx]
                ++ map EvExec
                     (firstn n (revocationQueries ParseArbitraryStringSlice req))
                ++ [EvRollback])%list.
        split.
        -- cbn. rewrite forallb_app, Hevs. reflexivity.
        -- rewrite Hj. cbn. rewrite <- !app_assoc. reflexivity.
Qed.

(** The calls of the statement loop leak no handle, whatever follows
    them. *)
Lemma leakFree_callsOf (tail : list Event) :
  (forall d, leakFree drv tail d = true) ->
  forall (qs : list string) (d : DB),
    leakFree drv (callsOf drv qs d ++ tail)%list d = true.
Proof.
  intros Htail.
  induction qs as [|q qs IH]; intros d; [apply Htail|].
  cbn [callsOf]. unfold queryCalls, afterQuery.
  destruct (drvPrepare drv q d) as [err|] eqn:Hprepare.
  - destruct (notPreparable err).
    + cbn [app leakFree]. rewrite Hprepare. apply IH.
    + cbn [app leakFree]. rewrite Hprepare. apply IH.
  - cbn [app leakFree]. rewrite Hprepare, !String.eqb_refl. apply IH.
Qed.

(** X5.  [executePreparedStatementsWithMap] leaks no statement handle: on
    every path, every prepare that returned a handle is followed at once
    by the execution of that statement and by its [Close], also when the
    execution fails; and no statement is executed or closed that was not
    prepared just before. *)
Theorem prepared_statements_are_closed
  (statements : list string) (queryMap : list (string * string)) (w : World DB) :
  exists evs,
    journal
      (snd (executePreparedStatementsWithMap ParseArbitraryStringSlice
              QueryHelper drv statements queryMap w))
    = (journal w ++ evs)%list
    /\ leakFree drv evs (committed w) = true.
Proof.
  destruct (drvConnection drv (committed w)) as [err|] eqn:Hc.
  { rewrite (@executePreparedStatementsWithMap_no_connection
               ParseArbitraryStringSlice QueryHelper DB drv statements queryMap
               w err Hc).
    eexists. split; reflexivity. }
  destruct (drvBeginTx drv (committed w)) as [err|] eqn:Hb.
  { rewrite (@executePreparedStatementsWithMap_no_transaction
               ParseArbitraryStringSlice QueryHelper DB drv statements queryMap
               w err Hc Hb).
    eexists. split; reflexivity. }
  destruct (@executePreparedStatementsWithMap_calls
              ParseArbitraryStringSlice QueryHelper DB drv statements queryMap
              w Hc Hb)
    as (r & d' & tail & Hrun & Hres & _).
  rewrite Hrun. eexists. split; [reflexivity|].
  cbn [app leakFree].
  apply leakFree_callsOf. intros d.
  destruct (applyAll _ _ (committed w)); destruct Hres as [-> _]; reflexivity.
Qed.

(** A statement that is prepared and never executed or closed is a leak,
    and so is one that is executed and not closed. *)
Example leaks_are_seen :
  leakFree demo.driver [EvPrepare "SELECT 1"; EvCommit] [] = false
  /\ leakFree demo.driver
       [EvPrepare "SELECT 1"; EvStmtExec "SELECT 1"; EvCommit] [] = false
  /\ leakFree demo.driver
       [EvPrepare "SELECT 1"; EvStmtExec "SELECT 1"; EvStmtClose "SELECT 1";
        EvCommit] [] = true.
Proof. repeat split. Qed.

(** X6.  [DeleteUser] never panics and never uses the prepared-statement
    protocol: it returns on every path, and inside its transaction it only
    executes, directly and in their order, the first queries of its
    rendered list (all of them when [Commit] is reached). *)
Theorem delete_user_executes_directly (req : DeleteUserRequest) (w : World DB) :
  let res := DeleteUser ParseArbitraryStringSlice drv req w in
  (exists err, fst res = Returned (mkDeleteUserResponse, err))
  /\ (journal (snd res) = (journal w ++ [EvLock; EvConnection; EvUnlock])%list
      \/ journal (snd res)
         = (journal w ++ [EvLock; EvConnection; EvBeginTx; EvUnlock])%list
      \/ (exists n,
             journal (snd res) =
             (journal w ++ [EvLock; EvConnection; EvBeginTx]
              ++ map EvExec
                   (firstn n (revocationQueries ParseArbitraryStringSlice req))
              ++ [EvRollback; EvUnlock])%list)
      \/ journal (snd res) =
         (journal w ++ [EvLock; EvConnection; EvBeginTx]
          ++ map EvExec (revocationQueries ParseArbitraryStringSlice req)
          ++ [EvCommit; EvRollback; EvUnlock])%list).
Proof.
  intros res. subst res.
  destruct (drvConnection drv (committed w)) as [err|] eqn:Hc.
  { rewrite (@DeleteUser_no_connection ParseArbitraryStringSlice DB drv req w
               err Hc).
    split; [eexists; reflexivity | left; reflexivity]. }
  destruct (drvBeginTx drv (committed w)) as [err|] eqn:Hb.
  { rewrite (@DeleteUser_no_transaction ParseArbitraryStringSlice DB drv req w
               err Hc Hb).
    split; [eexists; reflexivity | right; left; reflexivity]. }
  rewrite (@DeleteUser_begun ParseArbitraryStringSlice DB drv req w Hc Hb).
  destruct (ExecContext_loop_trace
              (revocationQueries ParseArbitraryStringSlice req) (begun w)
              (committed w) eq_refl)
    as (r & d' & n & Hrun & Hres).
  rewrite Hrun. destruct r as [err|].
  - split; [eexists; reflexivity|]. right. right. left.
    exists n. cbn. rewrite <- !app_assoc. reflexivity.
  - destruct (firstDirectFailure drv
                (revocationQueries ParseArbitraryStringSlice req) (committed w))
      as [[k e]|]; destruct Hres as [Hr ->]; [discriminate|].
    rewrite firstn_all.
    unfold Commit. cbn. destruct (drvCommit drv d'); cbn;
      (split; [eexists; reflexivity|]); right; right; right;
      rewrite <- !app_assoc; reflexivity.
Qed.

(** X7.  When statement number [k] of [DeleteUser] is the first whose
    execution fails, exactly the statements up to it are executed, its
    error comes back as the backend gave it, and the transaction is rolled
    back with nothing committed. *)
Theorem delete_user_stops_at_failure (req : DeleteUserRequest) (w : World DB)
  (k : nat) (err : error) :
  drvConnection drv (committed w) = None ->
  drvBeginTx drv (committed w) = None ->
  firstDirectFailure drv (revocationQueries ParseArbitraryStringSlice req)
    (committed w) = Some (k, err) ->
  DeleteUser ParseArbitraryStringSlice drv req w =
  (Returned (mkDeleteUserResponse, Some err),
   mkWorld (committed w) None
     (journal w ++ [EvLock; EvConnection; EvBeginTx]
      ++ map EvExec
           (firstn (S k) (revocationQueries ParseArbitraryStringSlice req))
      ++ [EvRollback; EvUnlock])%list).
Proof.
  intros Hc Hb Hfail.
  rewrite (@DeleteUser_begun ParseArbitraryStringSlice DB drv req w Hc Hb).
  destruct (ExecContext_loop_trace
              (revocationQueries ParseArbitraryStringSlice req) (begun w)
              (committed w) eq_refl)
    as (r & d' & n & Hrun & Hres).
  cbn [begun committed] in Hres. rewrite Hfail in Hres.
  destruct Hres as [-> ->]. rewrite Hrun.
  unfold Unlock, Rollback, record, setPending, begun. cbn.
  rewrite <- !app_assoc. reflexivity.
Qed.

(** X8.  [executePreparedStatementsWithMap] panics in one situation only:
    the connection and the transaction were obtained, and the run of the
    rendered statements reaches one that prepare refuses with error 1295
    and whose direct execution fails. *)
Theorem panics_only_on_nil_close
  (statements : list string) (queryMap : list (string * string)) (w : World DB) :
  fst (executePreparedStatementsWithMap ParseArbitraryStringSlice QueryHelper
         drv statements queryMap w) = Panicked
  <-> drvConnection drv (committed w) = None
      /\ drvBeginTx drv (committed w) = None
      /\ reachesNilClose drv
           (rendered ParseArbitraryStringSlice QueryHelper statements queryMap)
           (committed w) = true.
Proof.
  destruct (drvConnection drv (committed w)) as [err|] eqn:Hc.
  { rewrite (@executePreparedStatementsWithMap_no_connection
               ParseArbitraryStringSlice QueryHelper DB drv statements queryMap
               w err Hc).
    cbn. split; [discriminate | intros (Habs & _); discriminate]. }
  destruct (drvBeginTx drv (committed w)) as [err|] eqn:Hb.
  { rewrite (@executePreparedStatementsWithMap_no_transaction
               ParseArbitraryStringSlice QueryHelper DB drv statements queryMap
               w err Hc Hb).
    cbn. split; [discriminate | intros (_ & Habs & _); discriminate]. }
  rewrite (@executePreparedStatementsWithMap_begun
             ParseArbitraryStringSlice QueryHelper DB drv statements queryMap
             w Hc Hb).
  pose proof (sendQuery_loop_panics
                (rendered ParseArbitraryStringSlice QueryHelper statements
                   queryMap) (begun w) (committed w) eq_refl) as Hloop.
  destruct (forRange (sendQuery drv) _ (begun w)) as [[[err|]|] w1];
    cbn [fst] in *.
  - split; [discriminate|]. intros (_ & _ & Hreach).
    apply Hloop in Hreach. discriminate.
  - unfold Commit.
    destruct (pending w1) as [d|]; [destruct (drvCommit drv d)|]; cbn;
      (split; [discriminate|]); intros (_ & _ & Hreach);
      apply Hloop in Hreach; discriminate.
  - split; [|reflexivity]. intros _. repeat split. apply Hloop. reflexivity.
Qed.

(** X9.  A password change with an empty user name or an empty new
    password is refused before the lock is taken: [UpdateUser] returns
    "must provide both username and password", wrapped in "failed to change
    password", and the world is untouched. *)
Theorem password_change_needs_both (req : UpdateUserRequest)
  (pw : ChangePassword) (w : World DB) :
  UpdateUser_Password req = Some pw ->
  UpdateUser_Username req = EmptyString \/ NewPassword pw = EmptyString ->
  UpdateUser ParseArbitraryStringSlice QueryHelper drv req w =
  (Returned
     (mkUpdateUserResponse,
      Some (Wrapf "failed to change password: %w"
              (ErrorString "must provide both username and password"))),
   w).
Proof.
  intros Hpw Hempty. unfold UpdateUser. rewrite Hpw.
  assert (Hrun :
    changeUserPassword ParseArbitraryStringSlice QueryHelper drv
      (UpdateUser_Username req) (NewPassword pw)
      (Commands (ChangePassword_Statements pw)) w =
    (Returned (Some (ErrorString "must provide both username and password")),
     w)).
  { unfold changeUserPassword.
    destruct Hempty as [-> | ->]; [reflexivity|].
    rewrite orb_true_r. reflexivity. }
  destruct (UpdateUser_Expiration req); unfold bind; rewrite Hrun; reflexivity.
Qed.

(** X10.  When the username cannot be generated, [NewUser] returns the
    generator's error wrapped in "error generating username", with an
    empty response, and the world is untouched: no lock, no connection, no
    transaction. *)
Theorem username_failure_touches_nothing
  (GenerateUsername : list UsernameOpt -> string -> string * option error)
  (legacy : bool) (req : NewUserRequest) (uniq username : string)
  (err : error) (w : World DB) :
  Commands (NewUser_Statements req) <> [] ->
  generateUsername GenerateUsername legacy req uniq = (username, Some err) ->
  NewUser ParseArbitraryStringSlice QueryHelper GenerateUsername drv legacy
    req uniq w = (Returned (mkNewUserResponse EmptyString, Some err), w)
  /\ username = EmptyString
  /\ exists cause, err = Wrapf "error generating username: {{err}}" cause.
Proof.
  intros Hsome Hgen. split.
  - unfold NewUser. rewrite Hgen.
    destruct (Commands (NewUser_Statements req)); [congruence | reflexivity].
  - unfold generateUsername in Hgen.
    destruct (GenerateUsername _ uniq) as [u [cause|]];
      inversion Hgen; subst. split; [reflexivity | eexists; reflexivity].
Qed.

(** X11.  The response of [NewUser] carries a username only on success:
    with an error the username is empty, and with no error it is the one
    that was generated (and put in the statements). *)
Theorem new_user_response_username
  (GenerateUsername : list UsernameOpt -> string -> string * option error)
  (legacy : bool) (req : NewUserRequest) (uniq : string) (w : World DB) :
  match
    fst (NewUser ParseArbitraryStringSlice QueryHelper GenerateUsername drv
           legacy req uniq w)
  with
  | Returned (resp, Some _) => NewUser_Username resp = EmptyString
  | Returned (resp, None) =>
      generateUsername GenerateUsername legacy req uniq
        = (NewUser_Username resp, None)
      /\ fst (executePreparedStatementsWithMap ParseArbitraryStringSlice
                QueryHelper drv (Commands (NewUser_Statements req))
                (newUserQueryMap (NewUser_Username resp) req) w)
         = Returned None
  | Panicked => True
  end.
Proof.
  unfold NewUser.
  destruct (Datatypes.length (Commands (NewUser_Statements req)) =? 0)%nat;
    [reflexivity|].
  destruct (generateUsername GenerateUsername legacy req uniq)
    as [username [err|]]; [reflexivity|].
  unfold bind, newUserQueryMap.
  destruct (executePreparedStatementsWithMap _ _ _ _ _ w) as [[[err|]|] w']
    eqn:Hrun.
  - reflexivity.
  - split; [reflexivity|]. exact (f_equal fst Hrun).
  - exact I.
Qed.

(** X12.  A password change hides the expiration change: with a password
    change in the request, [UpdateUser] does the same whatever the
    expiration change is, present or not. *)
Theorem expiration_ignored_with_password (req1 req2 : UpdateUserRequest)
  (pw : ChangePassword) (w : World DB) :
  UpdateUser_Username req1 = UpdateUser_Username req2 ->
  UpdateUser_Password req1 = Some pw ->
  UpdateUser_Password req2 = Some pw ->
  UpdateUser ParseArbitraryStringSlice QueryHelper drv req1 w =
  UpdateUser ParseArbitraryStringSlice QueryHelper drv req2 w.
Proof.
  intros Husername Hpw1 Hpw2. unfold UpdateUser.
  rewrite Hpw1, Hpw2, Husername.
  destruct (UpdateUser_Expiration req1), (UpdateUser_Expiration req2);
    reflexivity.
Qed.

(** X13.  Only the rendered queries count: two lists of templates (with
    their maps) that render to the same queries make
    [executePreparedStatementsWithMap] do the same, so statements may be
    given one per template or joined in one template; and two deletion
    requests that render to the same queries make [DeleteUser] do the
    same. *)
Theorem same_rendering_same_run (w : World DB) :
  (forall statements1 queryMap1 statements2 queryMap2,
      rendered ParseArbitraryStringSlice QueryHelper statements1 queryMap1
        = rendered ParseArbitraryStringSlice QueryHelper statements2 queryMap2 ->
      executePreparedStatementsWithMap ParseArbitraryStringSlice QueryHelper
        drv statements1 queryMap1 w =
      executePreparedStatementsWithMap ParseArbitraryStringSlice QueryHelper
        drv statements2 queryMap2 w)
  /\ (forall req1 req2,
        revocationQueries ParseArbitraryStringSlice req1
          = revocationQueries ParseArbitraryStringSlice req2 ->
        DeleteUser ParseArbitraryStringSlice drv req1 w =
        DeleteUser ParseArbitraryStringSlice drv req2 w).
Proof.
  split.
  - intros statements1 queryMap1 statements2 queryMap2 Hsame.
    destruct (drvConnection drv (committed w)) as [err|] eqn:Hc.
    { rewrite !(@executePreparedStatementsWithMap_no_connection
                  ParseArbitraryStringSlice QueryHelper DB drv _ _ w err Hc).
      reflexivity. }
    destruct (drvBeginTx drv (committed w)) as [err|] eqn:Hb.
    { rewrite !(@executePreparedStatementsWithMap_no_transaction
                  ParseArbitraryStringSlice QueryHelper DB drv _ _ w err Hc Hb).
      reflexivity. }
    rewrite !(@executePreparedStatementsWithMap_begun
                ParseArbitraryStringSlice QueryHelper DB drv _ _ w Hc Hb).
    rewrite Hsame. reflexivity.
  - intros req1 req2 Hsame.
    destruct (drvConnection drv (committed w)) as [err|] eqn:Hc.
    { rewrite !(@DeleteUser_no_connection ParseArbitraryStringSlice DB drv _ w
                  err Hc).
      reflexivity. }
    destruct (drvBeginTx drv (committed w)) as [err|] eqn:Hb.
    { rewrite !(@DeleteUser_no_transaction ParseArbitraryStringSlice DB drv _ w
                  err Hc Hb).
      reflexivity. }
    rewrite !(@DeleteUser_begun ParseArbitraryStringSlice DB drv _ w Hc Hb).
    rewrite Hsame. reflexivity.
Qed.

End Operations.

(* ===================================================================== *)
(** ** The operations on backends that refuse *)
(* ===================================================================== *)

(** The server cannot be reached. *)
Lemma connection_failure_sends_nothing_witness :
  drvConnection outage.noConnection (committed demo.idle)
    = Some outage.unreachable
  /\ DeleteUser strutil.ParseArbitraryStringSlice outage.noConnection
       demo.deleteAlice demo.idle =
     (Returned (mkDeleteUserResponse, Some outage.unreachable),
      mkWorld [] None [EvLock; EvConnection; EvUnlock]).
Proof.
  split; [reflexivity|].
  exact (proj2 (proj2 (proj2
           (connection_failure_sends_nothing strutil.ParseArbitraryStringSlice
              dbutil.QueryHelper demo.DB outage.noConnection demo.idle
              outage.unreachable eq_refl))) demo.deleteAlice).
Defined.

(** The server is read-only. *)
Lemma begin_failure_sends_nothing_witness :
  drvConnection outage.noTransaction (committed demo.idle) = None
  /\ drvBeginTx outage.noTransaction (committed demo.idle)
     = Some outage.readOnly
  /\ DeleteUser strutil.ParseArbitraryStringSlice outage.noTransaction
       demo.deleteAlice demo.idle =
     (Returned (mkDeleteUserResponse, Some outage.readOnly),
      mkWorld [] None [EvLock; EvConnection; EvBeginTx; EvUnlock]).
Proof.
  do 2 (split; [reflexivity|]).
  exact (proj2 (proj2 (proj2
           (begin_failure_sends_nothing strutil.ParseArbitraryStringSlice
              dbutil.QueryHelper demo.DB outage.noTransaction demo.idle
              outage.readOnly eq_refl eq_refl))) demo.deleteAlice).
Defined.

(** The connection is lost at the commit. *)
Lemma commit_failure_commits_nothing_witness :
  drvConnection outage.noCommit (committed demo.idle) = None
  /\ drvBeginTx outage.noCommit (committed demo.idle) = None
  /\ applyAll (applyDirect outage.noCommit)
       (revocationQueries strutil.ParseArbitraryStringSlice demo.deleteAlice)
       (committed demo.idle)
     = Some ["REVOKE ALL PRIVILEGES, GRANT OPTION FROM 'alice'@'%'";
             "DROP USER 'alice'@'%'"]
  /\ exists evs,
       forallb statementEvent evs = true
       /\ DeleteUser strutil.ParseArbitraryStringSlice outage.noCommit
            demo.deleteAlice demo.idle =
          (Returned (mkDeleteUserResponse, Some outage.lostConnection),
           mkWorld [] None
             ([EvLock; EvConnection; EvBeginTx] ++ evs
              ++ [EvCommit; EvRollback; EvUnlock])%list).
Proof.
  do 3 (split; [reflexivity|]).
  exact (proj2
           (commit_failure_commits_nothing strutil.ParseArbitraryStringSlice
              dbutil.QueryHelper demo.DB outage.noCommit demo.idle
              outage.lostConnection eq_refl eq_refl)
           demo.deleteAlice _ eq_refl eq_refl).
Defined.

(** The second of three deletion statements fails: the third is not
    executed. *)
Lemma delete_user_stops_at_failure_witness :
  firstDirectFailure demo.driver
    (revocationQueries strutil.ParseArbitraryStringSlice outage.dropBoth)
    (committed demo.idle) = Some (1, demo.noSuchUser)
  /\ demo.DeleteUser outage.dropBoth demo.idle =
     (Returned (mkDeleteUserResponse, Some demo.noSuchUser),
      mkWorld [] None
        ([EvLock; EvConnection; EvBeginTx]
         ++ map EvExec outage.dropBothQueries
         ++ [EvRollback; EvUnlock])%list).
Proof.
  split; [reflexivity|].
  exact (delete_user_stops_at_failure strutil.ParseArbitraryStringSlice
           demo.DB demo.driver outage.dropBoth demo.idle 1 demo.noSuchUser
           eq_refl eq_refl eq_refl).
Defined.

(** A password change for nobody. *)
Lemma password_change_needs_both_witness :
  UpdateUser_Username outage.rotateNobody = EmptyString
  /\ demo.UpdateUser outage.rotateNobody demo.idle =
     (Returned
        (mkUpdateUserResponse,
         Some (Wrapf "failed to change password: %w"
                 (ErrorString "must provide both username and password"))),
      demo.idle).
Proof.
  split; [reflexivity|].
  exact (password_change_needs_both strutil.ParseArbitraryStringSlice
           dbutil.QueryHelper demo.DB demo.driver outage.rotateNobody
           (mkChangePassword "n3w" (mkStatements [])) demo.idle eq_refl
           (or_introl eq_refl)).
Defined.

(** A suffix too long for the legacy length. *)
Lemma username_failure_touches_nothing_witness :
  Commands (NewUser_Statements demo.newAlice) <> []
  /\ demo.NewUser true demo.newAlice outage.longSuffix demo.idle =
     (Returned
        (mkNewUserResponse EmptyString,
         Some (Wrapf "error generating username: {{err}}"
                 (ErrGenerateUsername
                    "uniqueness suffix exceeds the maximum length"))),
      demo.idle).
Proof.
  split; [discriminate|].
  exact (proj1
           (username_failure_touches_nothing strutil.ParseArbitraryStringSlice
              dbutil.QueryHelper demo.DB demo.driver credsutil.GenerateUsername
              true demo.newAlice outage.longSuffix EmptyString _ demo.idle
              ltac:(discriminate) eq_refl)).
Defined.

(** The password of [alice], with and without a new expiration. *)
Lemma expiration_ignored_with_password_witness :
  UpdateUser_Password outage.rotateAndExtend
    = UpdateUser_Password demo.rotateAlice
  /\ demo.UpdateUser outage.rotateAndExtend demo.idle
     = demo.UpdateUser demo.rotateAlice demo.idle.
Proof.
  split; [reflexivity|].
  exact (expiration_ignored_with_password strutil.ParseArbitraryStringSlice
           dbutil.QueryHelper demo.DB demo.driver outage.rotateAndExtend
           demo.rotateAlice (mkChangePassword "n3w" (mkStatements []))
           demo.idle eq_refl eq_refl eq_refl).
Defined.

(** Two statements in one template, and one per template. *)
Lemma same_rendering_same_run_witness :
  rendered strutil.ParseArbitraryStringSlice dbutil.QueryHelper
    ["SELECT 1; SELECT 2"] []
  = rendered strutil.ParseArbitraryStringSlice dbutil.QueryHelper
      ["SELECT 1"; "SELECT 2"] []
  /\ demo.executePreparedStatementsWithMap ["SELECT 1; SELECT 2"] [] demo.idle
     = demo.executePreparedStatementsWithMap ["SELECT 1"; "SELECT 2"] []
         demo.idle.
Proof.
  split; [reflexivity|].
  exact (proj1
           (same_rendering_same_run strutil.ParseArbitraryStringSlice
              dbutil.QueryHelper demo.DB demo.driver demo.idle)
           ["SELECT 1; SELECT 2"] [] ["SELECT 1"; "SELECT 2"] [] eq_refl).
Defined.

(* ===================================================================== *)
(** ** [retry] *)
(* ===================================================================== *)

Section Retry.
Import sh.
Local Open Scope Z_scope.

Lemma wrap64_small (z : Z) : 0 <= z < 2 ^ 63 -> wrap64 z = z.
Proof.
  intros Hz. unfold wrap64.
  change (2 ^ 64) with (2 * 2 ^ 63) in *.
  rewrite Z.mod_small; lia.
Qed.

Lemma pow2_small (n : nat) : (n < 63)%nat -> 0 <= 2 ^ Z.of_nat n < 2 ^ 63.
Proof.
  intros Hn. split; [apply Z.pow_nonneg; lia|].
  apply Z.pow_lt_mono_r; lia.
Qed.

(** One failed run that is not the last. *)
Lemma until_again (fuel : nat) (retries : Z) (cmd : nat -> N) (n : nat) :
  (n < 62)%nat ->
  cmd n <> 0%N ->
  Z.of_nat (S n) < retries ->
  until (S fuel) retries cmd n (Z.of_nat n) =
  (Run n :: Sleep (2 ^ Z.of_nat n)
     :: fst (until fuel retries cmd (S n) (Z.of_nat (S n))),
   snd (until fuel retries cmd (S n) (Z.of_nat (S n)))).
Proof.
  intros Hn Hfail Hmore. cbn [until].
  apply N.eqb_neq in Hfail. rewrite Hfail.
  destruct (Z.ltb_spec (Z.of_nat n) 0) as [Hneg|_]; [lia|].
  rewrite (wrap64_small (2 ^ Z.of_nat n)) by (apply pow2_small; lia).
  rewrite (wrap64_small (Z.of_nat n + 1)) by (change (2 ^ 63) with 9223372036854775808; lia).
  replace (Z.of_nat n + 1) with (Z.of_nat (S n)) by lia.
  destruct (Z.ltb_spec (Z.of_nat (S n)) retries) as [_|Hstop]; [|lia].
  destruct (Z.ltb_spec (2 ^ Z.of_nat n) 0) as [Hneg|_].
  { pose proof (pow2_small n ltac:(lia)). lia. }
  destruct (until fuel retries cmd (S n) (Z.of_nat (S n))). reflexivity.
Qed.

(** The failed run after which [count] reaches [retries]. *)
Lemma until_last (fuel : nat) (retries : Z) (cmd : nat -> N) (n : nat) :
  (n < 63)%nat ->
  cmd n <> 0%N ->
  retries <= Z.of_nat (S n) ->
  until (S fuel) retries cmd n (Z.of_nat n) = ([Run n], Exit (cmd n)).
Proof.
  intros Hn Hfail Hstop. cbn [until].
  apply N.eqb_neq in Hfail. rewrite Hfail.
  destruct (Z.ltb_spec (Z.of_nat n) 0) as [Hneg|_]; [lia|].
  rewrite (wrap64_small (Z.of_nat n + 1)) by (change (2 ^ 63) with 9223372036854775808; lia).
  destruct (Z.ltb_spec (Z.of_nat n + 1) retries) as [Hmore|_]; [lia|].
  reflexivity.
Qed.

Lemma until_succeeds (retries : Z) (cmd : nat -> N) (k : nat) :
  forall (fuel n : nat),
    retries <= 63 ->
    Z.of_nat (n + k) < Z.max 1 retries ->
    (forall i, (n <= i < n + k)%nat -> cmd i <> 0%N) ->
    cmd (n + k)%nat = 0%N ->
    (k < fuel)%nat ->
    until fuel retries cmd n (Z.of_nat n) =
    ((backoff n k ++ [Run (n + k)%nat])%list, Return 0%N).
Proof.
  induction k as [|k IH]; intros fuel n Hretries Hbound Hfail Hok Hfuel.
  - destruct fuel as [|fuel]; [lia|]. cbn [until backoff app].
    rewrite Nat.add_0_r in *. rewrite Hok. reflexivity.
  - destruct fuel as [|fuel]; [lia|].
    rewrite until_again; [| lia | apply Hfail; lia | lia].
    rewrite (IH fuel (S n)); try lia.
    + cbn [fst snd backoff app].
      replace (S n + k)%nat with (n + S k)%nat by lia. reflexivity.
    + intros i Hi. apply Hfail. lia.
    + replace (S n + k)%nat with (n + S k)%nat by lia. exact Hok.
Qed.

Lemma until_gives_up (retries : Z) (cmd : nat -> N) (j : nat) :
  forall (fuel n : nat),
    retries <= 63 ->
    Z.of_nat (n + j) = Z.max 1 retries - 1 ->
    (forall i, (n <= i <= n + j)%nat -> cmd i <> 0%N) ->
    (j < fuel)%nat ->
    until fuel retries cmd n (Z.of_nat n) =
    ((backoff n j ++ [Run (n + j)%nat])%list, Exit (cmd (n + j)%nat)).
Proof.
  induction j as [|j IH]; intros fuel n Hretries Hlast Hfail Hfuel.
  - destruct fuel as [|fuel]; [lia|].
    rewrite Nat.add_0_r in *.
    rewrite until_last; [reflexivity | lia | apply Hfail; lia | lia].
  - destruct fuel as [|fuel]; [lia|].
    rewrite until_again; [| lia | apply Hfail; lia | lia].
    rewrite (IH fuel (S n)); try lia.
    + cbn [fst snd backoff app].
      replace (S n + j)%nat with (n + S j)%nat by lia. reflexivity.
    + intros i Hi. apply Hfail. lia.
Qed.

Lemma slept_backoff (k : nat) :
  forall n calls,
    slept (backoff n k ++ calls)%list
    = 2 ^ Z.of_nat (n + k) - 2 ^ Z.of_nat n + slept calls.
Proof.
  induction k as [|k IH]; intros n calls; cbn [backoff app slept].
  - rewrite Nat.add_0_r. lia.
  - rewrite IH.
    replace (S n + k)%nat with (n + S k)%nat by lia.
    rewrite (Nat2Z.inj_succ n), Z.pow_succ_r by lia. lia.
Qed.

Lemma runs_backoff (k : nat) :
  forall n calls, runs (backoff n k ++ calls)%list = (k + runs calls)%nat.
Proof.
  induction k as [|k IH]; intros n calls; cbn [backoff app runs]; [reflexivity|].
  rewrite IH. reflexivity.
Qed.

(** X14.  When the command first succeeds at its run number [k], within
    the allowed number of runs, [retry] returns 0 after running it [k + 1]
    times, sleeping 1, 2, 4, ... seconds after the failed runs, [2^k - 1]
    seconds in all. *)
Theorem retry_backs_off_until_success (fuel : nat) (retries : Z)
  (cmd : nat -> N) (k : nat) :
  retries <= 63 ->
  Z.of_nat k < Z.max 1 retries ->
  (forall i, (i < k)%nat -> cmd i <> 0%N) ->
  cmd k = 0%N ->
  (k < fuel)%nat ->
  retry fuel retries cmd = ((backoff 0 k ++ [Run k])%list, Return 0%N)
  /\ slept (fst (retry fuel retries cmd)) = 2 ^ Z.of_nat k - 1
  /\ runs (fst (retry fuel retries cmd)) = S k.
Proof.
  intros Hretries Hbound Hfail Hok Hfuel.
  assert (Hrun :
    retry fuel retries cmd = ((backoff 0 k ++ [Run k])%list, Return 0%N)).
  { unfold retry.
    exact (until_succeeds retries cmd k fuel 0%nat Hretries Hbound
             (fun i Hi => Hfail i (proj2 Hi)) Hok Hfuel). }
  rewrite Hrun. cbn [fst]. split; [reflexivity|]. split.
  - rewrite slept_backoff. cbn. lia.
  - rewrite runs_backoff. cbn. lia.
Qed.

(** X15.  For [retries] up to 63 (beyond that the power of two of the
    wait leaves the 64-bit range of shell arithmetic): when the command
    fails at each of its allowed runs, [retry] ends the whole script with
    the exit status of the last run, after running the command
    [max 1 retries] times; it does not sleep after the last run. *)
Theorem retry_gives_up_with_last_status (fuel : nat) (retries : Z)
  (cmd : nat -> N) (last : nat) :
  retries <= 63 ->
  Z.of_nat last = Z.max 1 retries - 1 ->
  (forall i, (i <= last)%nat -> cmd i <> 0%N) ->
  (last < fuel)%nat ->
  retry fuel retries cmd
    = ((backoff 0 last ++ [Run last])%list, Exit (cmd last))
  /\ slept (fst (retry fuel retries cmd)) = 2 ^ Z.of_nat last - 1
  /\ runs (fst (retry fuel retries cmd)) = S last.
Proof.
  intros Hretries Hlast Hfail Hfuel.
  assert (Hrun :
    retry fuel retries cmd
      = ((backoff 0 last ++ [Run last])%list, Exit (cmd last))).
  { unfold retry.
    exact (until_gives_up retries cmd last fuel 0%nat Hretries Hlast
             (fun i Hi => Hfail i (proj2 Hi)) Hfuel). }
  rewrite Hrun. cbn [fst]. split; [reflexivity|]. split.
  - rewrite slept_backoff. cbn. lia.
  - rewrite runs_backoff. cbn. lia.
Qed.

Lemma until_bounded (retries : Z) (cmd : nat -> N) (j : nat) :
  forall (fuel n : nat),
    retries <= 63 ->
    Z.of_nat (n + j) = Z.max 1 retries - 1 ->
    (j < fuel)%nat ->
    snd (until fuel retries cmd n (Z.of_nat n)) <> Looping
    /\ (runs (fst (until fuel retries cmd n (Z.of_nat n))) <= S j)%nat
    /\ 0 <= slept (fst (until fuel retries cmd n (Z.of_nat n)))
         <= 2 ^ Z.of_nat (n + j) - 2 ^ Z.of_nat n.
Proof.
  assert (Hzero :
    forall fuel n m,
      cmd n = 0%N ->
      snd (until (S fuel) retries cmd n (Z.of_nat n)) <> Looping
      /\ (runs (fst (until (S fuel) retries cmd n (Z.of_nat n))) <= S m)%nat
      /\ 0 <= slept (fst (until (S fuel) retries cmd n (Z.of_nat n)))
           <= 2 ^ Z.of_nat (n + m) - 2 ^ Z.of_nat n).
  { intros fuel n m Hok. cbn [until]. rewrite Hok. cbn.
    assert (2 ^ Z.of_nat n <= 2 ^ Z.of_nat (n + m))
      by (apply Z.pow_le_mono_r; lia).
    repeat split; try discriminate; lia. }
  induction j as [|j IH]; intros fuel n Hretries Hlast Hfuel;
    (destruct fuel as [|fuel]; [lia|]);
    (destruct (N.eq_dec (cmd n) 0) as [Hok|Hfail]; [apply Hzero, Hok|]).
  - rewrite Nat.add_0_r in *.
    rewrite until_last; [| lia | exact Hfail | lia].
    cbn. repeat split; try discriminate; lia.
  - rewrite until_again; [| lia | exact Hfail | lia].
    destruct (IH fuel (S n)) as (Hend & Hruns & Hslept); try lia.
    cbn [fst snd runs slept].
    replace (S n + j)%nat with (n + S j)%nat in * by lia.
    assert (Hpow : 2 ^ Z.of_nat (S n) = 2 * 2 ^ Z.of_nat n)
      by (rewrite Nat2Z.inj_succ, Z.pow_succ_r; lia).
    assert (0 <= 2 ^ Z.of_nat n) by (apply Z.pow_nonneg; lia).
    repeat split; try exact Hend; lia.
Qed.

(** The first thing the loop does is to run the command. *)
Lemma until_runs_first (fuel : nat) (retries : Z) (cmd : nat -> N) (n : nat)
  (count : Z) :
  exists calls, fst (until (S fuel) retries cmd n count) = Run n :: calls.
Proof.
  cbn [until].
  destruct (cmd n =? 0)%N; [eexists; reflexivity|].
  destruct (count <? 0); [eexists; reflexivity|].
  destruct (wrap64 (count + 1) <? retries); [|eexists; reflexivity].
  destruct (wrap64 (2 ^ count) <? 0); [eexists; reflexivity|].
  destruct (until fuel retries cmd (S n) (wrap64 (count + 1))).
  eexists. reflexivity.
Qed.

(** X16.  For [retries] up to 63 and whatever the command does, [retry]
    runs the command first, once at least (also with [retries] zero or
    negative), ends within [max 1 retries] runs of it, and sleeps less than
    [2 ^ (max 1 retries - 1)] seconds in all. *)
Theorem retry_is_bounded (fuel : nat) (retries : Z) (cmd : nat -> N) :
  retries <= 63 ->
  Z.max 1 retries <= Z.of_nat fuel ->
  snd (retry fuel retries cmd) <> Looping
  /\ (exists calls, fst (retry fuel retries cmd) = Run 0 :: calls)
  /\ 1 <= Z.of_nat (runs (fst (retry fuel retries cmd))) <= Z.max 1 retries
  /\ 0 <= slept (fst (retry fuel retries cmd)) < 2 ^ (Z.max 1 retries - 1).
Proof.
  intros Hretries Hfuel. unfold retry.
  destruct (until_bounded retries cmd (Z.to_nat (Z.max 1 retries - 1)) fuel
              0%nat Hretries)
    as (Hend & Hruns & Hslept); try lia.
  cbn [Nat.add] in Hslept.
  rewrite Z2Nat.id in Hslept by lia.
  change (Z.of_nat 0) with 0 in *. rewrite Z.pow_0_r in Hslept.
  assert (Hfirst :
    exists calls, fst (until fuel retries cmd 0 0) = Run 0 :: calls).
  { destruct fuel as [|fuel]; [lia|]. apply until_runs_first. }
  split; [exact Hend|]. split; [exact Hfirst|].
  destruct Hfirst as (calls & Hcalls). rewrite Hcalls in *.
  cbn [runs] in *. split; lia.
Qed.

End Retry.

(** The flaky command under [retry 5]. *)
Lemma retry_backs_off_until_success_witness :
  (5 <= 63)%Z
  /\ sh.flaky 2 = 0%N
  /\ sh.retry 10 5 sh.flaky =
     ([sh.Run 0; sh.Sleep 1; sh.Run 1; sh.Sleep 2; sh.Run 2], sh.Return 0%N)
  /\ sh.slept (fst (sh.retry 10 5 sh.flaky)) = 3%Z.
Proof.
  split; [lia|]. split; [reflexivity|].
  destruct (retry_backs_off_until_success 10 5 sh.flaky 2) as (Hrun & Hslept & _).
  - lia.
  - lia.
  - intros i Hi. unfold sh.flaky.
    destruct (Nat.ltb_spec i 2); [discriminate | lia].
  - reflexivity.
  - lia.
  - split; [exact Hrun | exact Hslept].
Defined.

(** The broken command under [retry 3]. *)
Lemma retry_gives_up_with_last_status_witness :
  sh.retry 10 3 sh.broken =
  ([sh.Run 0; sh.Sleep 1; sh.Run 1; sh.Sleep 2; sh.Run 2], sh.Exit 7%N).
Proof.
  refine (proj1 (retry_gives_up_with_last_status 10 3 sh.broken 2 _ _ _ _)).
  - lia.
  - reflexivity.
  - intros i _. discriminate.
  - lia.
Defined.

(** [retry 0] on the broken command: one run, no sleep. *)
Lemma retry_is_bounded_witness :
  snd (sh.retry 10 0 sh.broken) <> sh.Looping
  /\ (exists calls, fst (sh.retry 10 0 sh.broken) = sh.Run 0 :: calls)
  /\ (1 <= Z.of_nat (sh.runs (fst (sh.retry 10 0 sh.broken))) <= 1)%Z
  /\ (0 <= sh.slept (fst (sh.retry 10 0 sh.broken)) < 1)%Z.
Proof.
  exact (retry_is_bounded 10 0 sh.broken ltac:(lia) ltac:(lia)).
Defined.

(* ===================================================================== *)
(** ** The static secret cache updater *)
(* ===================================================================== *)

Section UpdaterFacts.
Import cache.
Variable Secret : Type.
Variable address token namespace : string.
Variable Unmarshal : string -> cache.error + list (string * json).
Variable Clone : nat -> option cache.error.
Variable ReadWithContext : string -> option Secret * option cache.error.

Local Abbreviation Event := (cache.Event Secret).
Local Abbreviation connect := (@cache.connect Secret address token namespace).
Local Abbreviation receive :=
  (@cache.receive Secret Unmarshal Clone ReadWithContext).
Local Abbreviation handle := (@cache.handle Secret Unmarshal Clone ReadWithContext).
Local Abbreviation streamStaticSecretEvents :=
  (@cache.streamStaticSecretEvents Secret address token namespace Unmarshal
     Clone ReadWithContext).
Local Abbreviation dialCalls := (@cache.dialCalls Secret address token namespace).
Local Abbreviation failedDial := (@cache.failedDial Secret address token namespace).

Lemma count_app (p : Event -> bool) (calls1 calls2 : list Event) :
  count p (calls1 ++ calls2) = count p calls1 + count p calls2.
Proof.
  induction calls1 as [|e calls1 IH]; cbn; [reflexivity|].
  rewrite IH. lia.
Qed.

Lemma slept_app (calls1 calls2 : list Event) :
  slept (calls1 ++ calls2) = (slept calls1 + slept calls2)%Z.
Proof.
  induction calls1 as [|e calls1 IH]; cbn; [reflexivity|].
  destruct e; rewrite ?IH; lia.
Qed.

(** Dialing reads nothing and closes nothing. *)
Lemma connect_quiet (dials : list (option cache.error)) :
  count (@isRead Secret) (fst (connect dials)) = 0
  /\ count (@isClose Secret) (fst (connect dials)) = 0.
Proof.
  induction dials as [|[err|] dials [IHr IHc]]; cbn; [auto | | auto].
  destruct (connect dials) as [later connected]. cbn in *. auto.
Qed.

(** What an update calls, and what [handle] calls. *)
Lemma handle_quiet (n : nat) (message : string) :
  count (@isClose Secret) (fst (fst (handle n message))) = 0
  /\ slept (fst (fst (handle n message))) = 0%Z.
Proof.
  unfold cache.handle, updateStaticSecret.
  destruct (Unmarshal message) as [err|messageMap]; [cbn; auto|].
  destruct (asMap (index messageMap "data")) as [data|]; [|cbn; auto].
  destruct (asMap (index data "event")) as [event|]; [|cbn; auto].
  destruct (asMap (index event "metadata")) as [metadata|]; [|cbn; auto].
  destruct (asBool (index metadata "modified")) as [[|]|]; try (cbn; auto).
  destruct (asString (index metadata "path")) as [path|]; [|cbn; auto].
  destruct (Clone n); cbn; auto.
Qed.

(** Receiving closes nothing, sleeps never, and returns no nil error. *)
Lemma receive_quiet (reads : list (cache.error + string)) :
  forall n,
    count (@isClose Secret) (fst (receive n reads)) = 0
    /\ slept (fst (receive n reads)) = 0%Z
    /\ snd (receive n reads) <> Returns None.
Proof.
  induction reads as [|[err|message] reads IH]; intros n; cbn [cache.receive].
  - cbn. repeat split. discriminate.
  - cbn. repeat split. discriminate.
  - destruct (handle_quiet n message) as [Hclose Hslept].
    destruct (handle n message) as [[calls [err|]] updated]; cbn [fst snd] in *.
    + cbn. repeat split; try assumption. discriminate.
    + destruct (IH (if updated then S n else n)) as (IHc & IHs & IHr).
      destruct (receive (if updated then S n else n) reads) as [later result].
      cbn [fst snd] in *. cbn [count slept isClose Nat.add].
      rewrite count_app, slept_app, Hclose, Hslept, IHc, IHs.
      repeat split. exact IHr.
Qed.

(** X17.  [streamStaticSecretEvents] never returns nil: when it returns,
    it returns an error, and the websocket it opened has been closed,
    once, as the last call.  While it has not returned, nothing is
    closed. *)
Theorem stream_returns_an_error_and_closes
  (dials : list (option cache.error)) (reads : list (cache.error + string)) :
  match streamStaticSecretEvents dials reads with
  | (calls, Returns err) =>
      err <> None
      /\ snd (connect dials) = true
      /\ exists before,
           calls = (before ++ [EvClose Secret])%list
           /\ count (@isClose Secret) before = 0
  | (calls, Waits) => count (@isClose Secret) calls = 0
  end.
Proof.
  unfold cache.streamStaticSecretEvents.
  destruct (connect_quiet dials) as [_ Hconnect].
  destruct (connect dials) as [calls [|]]; cbn [fst snd] in *; [|exact Hconnect].
  destruct (receive_quiet reads 0) as (Hclose & _ & Hresult).
  destruct (receive 0 reads) as [later [err|]]; cbn [fst snd] in *.
  - split; [intros ->; apply Hresult; reflexivity|]. split; [reflexivity|].
    exists (calls ++ later)%list. split; [apply app_assoc|].
    rewrite count_app, Hconnect, Hclose. reflexivity.
  - rewrite count_app, Hconnect, Hclose. reflexivity.
Qed.

Lemma connect_failures (failures : list cache.error)
  (rest : list (option cache.error)) :
  connect (map Some failures ++ rest)
  = ((flat_map failedDial failures ++ fst (connect rest))%list,
     snd (connect rest)).
Proof.
  induction failures as [|err failures IH].
  - cbn. destruct (connect rest). reflexivity.
  - cbn [map app cache.connect openWebSocketConnection flat_map].
    rewrite IH. unfold cache.failedDial. rewrite <- !app_assoc. reflexivity.
Qed.

Lemma failedDials_slept (failures : list cache.error) :
  slept (flat_map failedDial failures)
  = (Z.of_nat (List.length failures) * StaticSecretBackoff)%Z.
Proof.
  induction failures as [|err failures IH]; [reflexivity|].
  cbn [flat_map List.length]. rewrite slept_app, IH.
  unfold cache.failedDial, cache.dialCalls. cbn [app slept]. lia.
Qed.

Lemma failedDials_read_nothing (failures : list cache.error) :
  count (@isRead Secret) (flat_map failedDial failures) = 0.
Proof.
  induction failures as [|err failures IH]; [reflexivity|].
  cbn [flat_map]. rewrite count_app, IH. reflexivity.
Qed.

(** X18.  The updater dials until a dial succeeds, with a constant pause:
    each failed dial is logged and followed by a sleep of
    [StaticSecretBackoff] (10 s) and by the next dial; nothing is read
    before a dial succeeds, nothing sleeps afterwards, and the dials after
    the first success are not made. *)
Theorem dials_with_constant_backoff (failures : list cache.error)
  (rest : list (option cache.error)) (reads : list (cache.error + string)) :
  streamStaticSecretEvents (map Some failures) reads
    = (flat_map failedDial failures, Waits)
  /\ streamStaticSecretEvents (map Some failures ++ None :: rest) reads
     = streamStaticSecretEvents (map Some failures ++ [None]) reads
  /\ (exists later,
        fst (streamStaticSecretEvents (map Some failures ++ None :: rest) reads)
        = (flat_map failedDial failures ++ dialCalls ++ later)%list
        /\ slept later = 0%Z)
  /\ count (@isRead Secret) (flat_map failedDial failures ++ dialCalls) = 0
  /\ slept
       (fst (streamStaticSecretEvents (map Some failures ++ None :: rest) reads))
     = (Z.of_nat (List.length failures) * StaticSecretBackoff)%Z.
Proof.
  pose proof (failedDials_slept failures) as Hslept.
  pose proof (failedDials_read_nothing failures) as Hread.
  assert (Hrun :
    forall tail,
      streamStaticSecretEvents (map Some failures ++ None :: tail) reads
      = match receive 0 reads with
        | (later, Returns err) =>
            ((flat_map failedDial failures ++ dialCalls)
             ++ later ++ [EvClose Secret], Returns err)%list
        | (later, Waits) =>
            ((flat_map failedDial failures ++ dialCalls) ++ later, Waits)%list
        end).
  { intros tail. unfold cache.streamStaticSecretEvents.
    rewrite connect_failures. reflexivity. }
  split; [|split; [|split; [|split]]].
  - unfold cache.streamStaticSecretEvents.
    rewrite <- (app_nil_r (map Some failures)), connect_failures.
    cbn. rewrite app_nil_r. reflexivity.
  - rewrite (Hrun rest), (Hrun []). reflexivity.
  - rewrite (Hrun rest).
    destruct (receive_quiet reads 0) as (_ & Hquiet & _).
    destruct (receive 0 reads) as [later [err|]]; cbn [fst snd] in *.
    + exists (later ++ [EvClose Secret])%list. split.
      * rewrite <- app_assoc. reflexivity.
      * rewrite slept_app, Hquiet. reflexivity.
    + exists later. split; [rewrite <- app_assoc; reflexivity | exact Hquiet].
  - rewrite count_app, Hread. reflexivity.
  - rewrite (Hrun rest).
    destruct (receive_quiet reads 0) as (_ & Hquiet & _).
    destruct (receive 0 reads) as [later [err|]]; cbn [fst snd] in *;
      rewrite !slept_app, Hslept, Hquiet; cbn; lia.
Qed.

(** X19.  An event counts as a modification only when its
    [data.event.metadata.modified] is the JSON boolean [true]: with any
    other value there (absent, [false], or the string "true"), the
    message is read and dropped, with no update and no error, and the
    loop goes on to the next message. *)
Theorem event_needs_boolean_modified (n : nat) (message : string)
  (messageMap data event metadata : list (string * json))
  (reads : list (cache.error + string)) :
  Unmarshal message = inr messageMap ->
  asMap (index messageMap "data") = Some data ->
  asMap (index data "event") = Some event ->
  asMap (index event "metadata") = Some metadata ->
  index metadata "modified" <> JBool true ->
  receive n (inr message :: reads)
  = (EvRead Secret :: fst (receive n reads), snd (receive n reads)).
Proof.
  intros Hparse Hdata Hevent Hmetadata Hmodified.
  cbn [cache.receive]. unfold cache.handle.
  rewrite Hparse, Hdata, Hevent, Hmetadata.
  destruct (index metadata "modified") as [|[|]| | | |]; try congruence;
    cbn; destruct (receive n reads); reflexivity.
Qed.

(** X20.  For an event with [modified] true and a string [path], the
    update clones the client, looks the path up in the cache, reads the
    secret and logs what the read returned; the error of that read is
    dropped, so the loop goes on whether the read worked or not.  Only a
    failed [Clone] ends the stream, before anything is looked up or read,
    with an error that wraps the one of [Clone]. *)
Theorem update_survives_a_failed_read (n : nat) (message path : string)
  (messageMap data event metadata : list (string * json))
  (reads : list (cache.error + string)) :
  Unmarshal message = inr messageMap ->
  asMap (index messageMap "data") = Some data ->
  asMap (index data "event") = Some event ->
  asMap (index event "metadata") = Some metadata ->
  index metadata "modified" = JBool true ->
  index metadata "path" = JString path ->
  match Clone n with
  | None =>
      receive n (inr message :: reads)
      = (EvRead Secret :: EvClone Secret :: EvCacheGet Secret path
           :: EvReadSecret Secret path
           :: EvLogInfo (fst (ReadWithContext path))
           :: fst (receive (S n) reads),
         snd (receive (S n) reads))
  | Some err =>
      receive n (inr message :: reads)
      = ([EvRead Secret; EvClone Secret],
         Returns (Some (Errorf unexpectedEventFormat [message] (Some err))))
  end.
Proof.
  intros Hparse Hdata Hevent Hmetadata Hmodified Hpath.
  cbn [cache.receive]. unfold cache.handle, updateStaticSecret.
  rewrite Hparse, Hdata, Hevent, Hmetadata, Hmodified, Hpath. cbn [asBool asString].
  destruct (Clone n) as [err|]; [reflexivity|].
  destruct (receive (S n) reads). reflexivity.
Qed.

End UpdaterFacts.

(** X21.  A message that is JSON but not an event ends the stream with
    the error "unexpected event format", and that error has no cause: when
    the [data], the [event] or the [metadata] of the message is not an
    object, or the [path] of a modified event is not a string, the [err]
    that the code formats is the nil error of the successful
    [json.Unmarshal], and nothing was called for the message but the
    read.  The error carries a cause in one case only, the failure of
    [client.Clone] on an event that was well formed. *)
Theorem unexpected_format_cause (Secret : Type)
  (Unmarshal : string -> cache.error + list (string * cache.json))
  (Clone : nat -> option cache.error)
  (ReadWithContext : string -> option Secret * option cache.error)
  (n : nat) (message : string) :
  (forall messageMap reads,
      Unmarshal message = inr messageMap ->
      let stream :=
        cache.receive Unmarshal Clone ReadWithContext n
          (inr message :: reads) in
      let noCause :=
        ([cache.EvRead Secret],
         cache.Returns
           (Some (cache.Errorf cache.unexpectedEventFormat [message] None))) in
      (cache.asMap (cache.index messageMap "data") = None -> stream = noCause)
      /\ (forall data,
            cache.asMap (cache.index messageMap "data") = Some data ->
            cache.asMap (cache.index data "event") = None ->
            stream = noCause)
      /\ (forall data event,
            cache.asMap (cache.index messageMap "data") = Some data ->
            cache.asMap (cache.index data "event") = Some event ->
            cache.asMap (cache.index event "metadata") = None ->
            stream = noCause)
      /\ (forall data event metadata,
            cache.asMap (cache.index messageMap "data") = Some data ->
            cache.asMap (cache.index data "event") = Some event ->
            cache.asMap (cache.index event "metadata") = Some metadata ->
            cache.index metadata "modified" = cache.JBool true ->
            cache.asString (cache.index metadata "path") = None ->
            stream = noCause))
  /\ (forall (calls : list (cache.Event Secret)) args wrapped updated,
        cache.handle Unmarshal Clone ReadWithContext n message
        = (calls,
           Some (cache.Errorf cache.unexpectedEventFormat args wrapped),
           updated) ->
        args = [message]
        /\ (exists messageMap, Unmarshal message = inr messageMap)
        /\ match wrapped with
           | None => calls = [] /\ updated = false
           | Some err =>
               Clone n = Some err /\ calls = [cache.EvClone Secret]
               /\ updated = true
           end).
Proof.
  split.
  - intros messageMap reads Hparse stream noCause. subst stream noCause.
    cbn [cache.receive]. unfold cache.handle. rewrite Hparse.
    split; [|split; [|split]].
    + intros ->. reflexivity.
    + intros data -> ->. reflexivity.
    + intros data event -> -> ->. reflexivity.
    + intros data event metadata -> -> -> -> ->. reflexivity.
  - intros calls args wrapped updated.
    unfold cache.handle, cache.updateStaticSecret.
    destruct (Unmarshal message) as [err|messageMap].
    { intros H. exfalso. injection H. intros. discriminate. }
    intros H. split; [|split; [exists messageMap; reflexivity|]];
      destruct (cache.asMap (cache.index messageMap "data")) as [data|];
      try (inversion H; subst; auto; fail);
      destruct (cache.asMap (cache.index data "event")) as [event|];
      try (inversion H; subst; auto; fail);
      destruct (cache.asMap (cache.index event "metadata")) as [metadata|];
      try (inversion H; subst; auto; fail);
      destruct (cache.asBool (cache.index metadata "modified")) as [[|]|];
      try discriminate;
      destruct (cache.asString (cache.index metadata "path")) as [path|];
      try (inversion H; subst; auto; fail);
      destruct (Clone n) as [err|]; try discriminate;
      inversion H; subst; auto.
Qed.

(* --------------------------------------------------------------------- *)
(** *** The updater on two events *)
(* --------------------------------------------------------------------- *)

(** The example event of the source has the string "true" as [modified]:
    it is read and dropped. *)
Lemma event_needs_boolean_modified_witness :
  cache.decode "example" = inr cache.exampleEvent
  /\ cache.index
       [("current_version", cache.JString "1");
        ("data_path", cache.JString "secret/data/foo");
        ("modified", cache.JString "true");
        ("oldest_version", cache.JString "0");
        ("operation", cache.JString "data-write");
        ("path", cache.JString "secret/data/foo")] "modified"
     <> cache.JBool true
  /\ cache.receive cache.decode cache.cloneOk cache.readFails 0
       [inr "example"; inl cache.closed]
     = (cache.EvRead string
          :: fst (cache.receive cache.decode cache.cloneOk cache.readFails 0
                    [inl cache.closed]),
        snd (cache.receive cache.decode cache.cloneOk cache.readFails 0
               [inl cache.closed])).
Proof.
  split; [reflexivity|]. split; [discriminate|].
  eapply (event_needs_boolean_modified string cache.decode cache.cloneOk
            cache.readFails 0 "example" cache.exampleEvent);
    [reflexivity | reflexivity | reflexivity | reflexivity | discriminate].
Defined.

(** A modified event whose secret cannot be read: the update is made, nil
    is logged and the loop goes on. *)
Lemma update_survives_a_failed_read_witness :
  cache.decode "modified" = inr cache.modifiedEvent
  /\ cache.receive cache.decode cache.cloneOk cache.readFails 0
       [inr "modified"; inl cache.closed]
     = ([cache.EvRead string; cache.EvClone string;
         cache.EvCacheGet string "secret/data/foo";
         cache.EvReadSecret string "secret/data/foo";
         cache.EvLogInfo None; cache.EvRead string],
        cache.Returns
          (Some (cache.Errorf
                   "error when attempting to read from event stream, reopening websocket: %w"
                   [] (Some cache.closed)))).
Proof.
  split; [reflexivity|].
  eapply (update_survives_a_failed_read string cache.decode cache.cloneOk
            cache.readFails 0 "modified" "secret/data/foo" cache.modifiedEvent);
    reflexivity.
Defined.

(** A message that is JSON and has no [data]. *)
Lemma unexpected_format_cause_witness :
  cache.asMap (cache.index [] "data") = None
  /\ cache.receive (fun _ => inr []) cache.cloneOk cache.readFails 0
       [inr "{}"; inr "{}"]
     = ([cache.EvRead string],
        cache.Returns
          (Some (cache.Errorf cache.unexpectedEventFormat ["{}"] None))).
Proof.
  split; [reflexivity|].
  exact (proj1
           (proj1 (unexpected_format_cause string (fun _ => inr [])
                     cache.cloneOk cache.readFails 0 "{}")
              [] [inr "{}"] eq_refl)
           eq_refl).
Defined.

(* ===================================================================== *)
(** ** The script that installs packages *)
(* ===================================================================== *)

Section Install.
Import sh.
Variable PACKAGES packages : string.
Variable command_v : string -> string.
Variable status : list Step -> Command -> N.

Local Abbreviation script := (sh.script PACKAGES packages command_v status).
Local Abbreviation chosen := (sh.chosen command_v).

(** The runs of the script, one case for each way through it. *)
Ltac branches :=
  unfold sh.script, body, sh.chosen, zypper, andThen, exec, echo, exit;
  destruct (PACKAGES =? "")%string eqn:HPACKAGES; cbn [app fst snd];
  [|destruct (status [] CloudInitWait =? 0)%N eqn:Hwait; cbn [app fst snd];
    [destruct (found command_v "yum") eqn:Hyum; cbn [app fst snd];
     [destruct (status _ CdTmp =? 0)%N eqn:Hcd; cbn [app fst snd];
      [destruct (status _ YumInstall =? 0)%N eqn:Hinstall; cbn [app fst snd]|]
     |destruct (found command_v "apt") eqn:Hapt; cbn [app fst snd];
      [destruct (status _ CdTmp =? 0)%N eqn:Hcd; cbn [app fst snd];
       [destruct (status _ AptUpdate =? 0)%N eqn:Hupdate; cbn [app fst snd];
        [destruct (status _ AptInstall =? 0)%N eqn:Hinstall;
         cbn [app fst snd]|]|]
      |destruct (found command_v "zypper") eqn:Hzypper; cbn [app fst snd];
       [destruct (status _ ZypperInstall =? 0)%N eqn:Hfirst;
        cbn [app fst snd];
        [|apply N.eqb_neq in Hfirst;
          destruct (status _ SUSEConnect =? 0)%N eqn:Hregister;
          cbn [app fst snd];
          [destruct (status _ ZypperInstall =? 0)%N eqn:Hsecond;
           cbn [app fst snd]|]]|]]]|]].

(** X22.  The script uses one package manager: the first of yum, apt and
    zypper that [command -v] finds.  No command of another manager is
    run, whatever fails; and with none of the three the script installs
    nothing and exits with status 1. *)
Theorem one_package_manager (command : Command) (name : string) :
  In (Exec command) (fst script) ->
  manager command = Some name ->
  chosen = Some name
  /\ (PACKAGES =? "")%string = false
  /\ status [] CloudInitWait = 0%N.
Proof.
  branches; intros Hin Hmanager; cbn in Hin;
    repeat (destruct Hin as [Hin|Hin];
            [try discriminate; injection Hin as <-; cbn in Hmanager;
             try discriminate; injection Hmanager as <-|]);
    try contradiction;
    (split; [reflexivity|]); (split; [reflexivity|]);
    apply N.eqb_eq; assumption.
Qed.

(** X23.  The script exits with status 0 in two cases only: [PACKAGES] is
    empty, or its last command was the install of a package manager and
    that install succeeded.  A success of the script is never the
    success of an earlier command with the install left out or failed. *)
Theorem success_means_installed :
  snd script = 0%N
  <-> ((PACKAGES =? "")%string = true
       \/ exists log command,
            fst script = (log ++ [Exec command])%list
            /\ isInstall command = true
            /\ status log command = 0%N).
Proof.
  split.
  - branches; intros Hexit; auto; right;
      try discriminate; try (rewrite Hexit in *; discriminate);
      match goal with
      | H : (status ?log ?command =? 0)%N = true |- _ =>
          exists log, command;
          split; [reflexivity | split; [reflexivity|]];
          apply N.eqb_eq; exact H
      end.
  - intros [Hempty|(log & command & Hlog & Hinstalls & Hstatus)].
    + unfold sh.script, body. rewrite Hempty. reflexivity.
    + assert (Hl : removelast (fst script) = log)
        by (rewrite Hlog; apply removelast_last).
      assert (Hc : last (fst script) (Echo "") = Exec command)
        by (rewrite Hlog; apply last_last).
      clear Hlog. revert Hl Hc.
      branches; cbn [removelast last]; intros Hl Hc; try reflexivity;
        subst log; try discriminate Hc; injection Hc as <-;
        try discriminate Hinstalls; exact Hstatus.
Qed.

(** The places at which a step can stand in a run. *)
Ltac cut_at H log :=
  destruct log as [|? log]; cbn [app] in H;
  [try discriminate H
  |first [discriminate H | injection H as <- H; cut_at H log]].

(** X24.  The script stops at the first command that fails, with the
    status of that command: nothing is run after it.  The one exception
    is the first [zypper install], whose failure is followed by the
    registration with PackageHub. *)
Theorem failure_ends_the_script (log post : list Step) (command : Command) :
  fst script = (log ++ Exec command :: post)%list ->
  status log command <> 0%N ->
  (post = [] /\ snd script = status log command)
  \/ (command = ZypperInstall
      /\ times ZypperInstall log = 0
      /\ exists post', post = Exec SUSEConnect :: post').
Proof.
  branches; intros Hlog Hfail; cut_at Hlog log;
    injection Hlog as <- <-;
    first
      [ exfalso; apply Hfail; apply N.eqb_eq; assumption
      | left; split; reflexivity
      | right; split; [reflexivity|]; split; [reflexivity|];
        eexists; reflexivity ].
Qed.

(** X25.  No failed command is tried again: [retry] is defined in the
    script and never called.  Every command runs at most once in a run,
    but [zypper install], which runs at most twice. *)
Theorem commands_run_once (command : Command) :
  times command (fst script)
  <= if sameCommand command ZypperInstall then 2 else 1.
Proof.
  branches; destruct command; cbn; lia.
Qed.

End Install.

(* --------------------------------------------------------------------- *)
(** *** The script on two hosts *)
(* --------------------------------------------------------------------- *)

Lemma one_package_manager_witness :
  In (sh.Exec sh.YumInstall)
    (fst (sh.script "jq" "jq" sh.yumAndApt sh.works))
  /\ sh.manager sh.YumInstall = Some "yum"
  /\ sh.chosen sh.yumAndApt = Some "yum"
  /\ ("jq" =? "")%string = false
  /\ sh.works [] sh.CloudInitWait = 0%N.
Proof.
  split; [cbn; auto|]. split; [reflexivity|].
  apply (one_package_manager "jq" "jq" sh.yumAndApt sh.works
           sh.YumInstall "yum"); [cbn; auto | reflexivity].
Defined.

Lemma failure_ends_the_script_witness :
  sh.script "jq" "jq" sh.onlyZypper sh.packageHub
  = ([sh.Exec sh.CloudInitWait; sh.Echo "Installing Dependencies: jq";
      sh.Exec sh.ZypperInstall; sh.Exec sh.SUSEConnect;
      sh.Exec sh.ZypperInstall], 0%N)
  /\ sh.packageHub
       [sh.Exec sh.CloudInitWait; sh.Echo "Installing Dependencies: jq"]
       sh.ZypperInstall = 104%N
  /\ (([sh.Exec sh.SUSEConnect; sh.Exec sh.ZypperInstall] = []
       /\ snd (sh.script "jq" "jq" sh.onlyZypper sh.packageHub)
          = sh.packageHub
              [sh.Exec sh.CloudInitWait; sh.Echo "Installing Dependencies: jq"]
              sh.ZypperInstall)
      \/ (sh.ZypperInstall = sh.ZypperInstall
          /\ sh.times sh.ZypperInstall
               [sh.Exec sh.CloudInitWait;
                sh.Echo "Installing Dependencies: jq"] = 0
          /\ exists post',
               [sh.Exec sh.SUSEConnect; sh.Exec sh.ZypperInstall]
               = sh.Exec sh.SUSEConnect :: post')).
Proof.
  split; [reflexivity|]. split; [reflexivity|].
  apply (failure_ends_the_script "jq" "jq" sh.onlyZypper sh.packageHub
           [sh.Exec sh.CloudInitWait; sh.Echo "Installing Dependencies: jq"]
           [sh.Exec sh.SUSEConnect; sh.Exec sh.ZypperInstall]
           sh.ZypperInstall); [reflexivity | discriminate].
Defined.
